(** * AIstudioProxyAPI: the browser-instance pool and its request dispatch

    A shallow embedding of [api_utils/instance_manager.py],
    [api_utils/load_balancer.py] and [api_utils/context_init.py], followed by
    the properties of the pool that the design document states.

    Conventions of the embedding:
    - Python [int] is [Z]; [str] is [string]; [Optional[T]] is [option T].
    - A Python [dict] keeps insertion order, and the pool relies on it, so a
      dict is an association list (module [Dict]).
    - Python exceptions are explicit: a fallible primitive returns
      [Py.Result], and the methods of the manager run in the state-and-error
      monad [Op].
    - The two effects the code reads from its environment are arguments:
      the event-loop clock ([now]) and the draw of [random.choice]
      ([draw]). *)

From Stdlib Require Import ZArith List String Ascii Bool Arith Lia Permutation.
From Stdlib Require DecimalNat DecimalString.
Import ListNotations.

(* ===================================================================== *)
(** ** Python primitives used by the pool *)
(* ===================================================================== *)

Module Py.

Inductive Exn : Type :=
| IndexError
| KeyError
| ValueError
| ZeroDivisionError.

Inductive Result (A : Type) : Type :=
| Ok (a : A)
| Raise (e : Exn).

Arguments Ok {A} a.
Arguments Raise {A} e.

Definition raises {A} (r : Result A) : bool :=
  match r with Ok _ => false | Raise _ => true end.

(** [a % b] on [int]: floored modulo, [ZeroDivisionError] when [b = 0]. *)
Definition mod_ (a b : Z) : Result Z :=
  if (b =? 0)%Z then Raise ZeroDivisionError else Ok (a mod b)%Z.

(** [l[i]] on a list: a negative index counts from the end, an index
    outside [-len, len) raises [IndexError]. *)
Definition getitem {A} (l : list A) (i : Z) : Result A :=
  let n := Z.of_nat (List.length l) in
  let j := if (i <? 0)%Z then (i + n)%Z else i in
  if ((j <? 0) || (n <=? j))%Z then Raise IndexError
  else match nth_error l (Z.to_nat j) with
       | Some x => Ok x
       | None => Raise IndexError
       end.

(** The loop of [min(iterable, key=...)]: the running minimum is replaced
    only by a strictly smaller key, so the first minimal element wins. *)
Fixpoint min_loop {A} (key : A -> Z) (best : A) (l : list A) : A :=
  match l with
  | [] => best
  | x :: rest =>
      if (key x <? key best)%Z then min_loop key x rest
      else min_loop key best rest
  end.

(** [min(l, key=key)]; [ValueError] on an empty sequence. *)
Definition min_by {A} (key : A -> Z) (l : list A) : Result A :=
  match l with
  | [] => Raise ValueError
  | x :: rest => Ok (min_loop key x rest)
  end.

(** [random.choice(seq)]: [IndexError] on an empty sequence, otherwise
    [seq[randbelow(len(seq))]].  The generator is outside the model; its
    output is the argument [draw], reduced below [len(seq)]. *)
Definition choice {A} (draw : nat) (l : list A) : Result A :=
  match l with
  | [] => Raise IndexError
  | _ :: _ => getitem l (Z.of_nat (draw mod List.length l))
  end.

(** [s.rfind(c)]: the index of the last occurrence of [c], or [-1]. *)
Fixpoint rfind_loop (c : ascii) (s : string) (pos last : Z) : Z :=
  match s with
  | EmptyString => last
  | String a rest =>
      rfind_loop c rest (pos + 1)%Z (if Ascii.eqb a c then pos else last)
  end.

Definition rfind (c : ascii) (s : string) : Z := rfind_loop c s 0%Z (-1)%Z.

(** [s[i:]] for [0 <= i]. *)
Fixpoint slice_from (i : nat) (s : string) : string :=
  match i, s with
  | O, _ => s
  | S _, EmptyString => EmptyString
  | S k, String _ rest => slice_from k rest
  end.

(** [os.path.basename] of [posixpath]:
    [i = p.rfind('/') + 1; return p[i:]]. *)
Definition basename (p : string) : string :=
  slice_from (Z.to_nat (rfind "/"%char p + 1)) p.

(** The characters of a string, in order. *)
Definition chars (s : string) : list ascii := list_ascii_of_string s.

(** The values stored in a statistics dictionary. *)
Inductive Handle : Type := ObjRef (addr : nat).

Inductive Value : Type :=
| VStr (s : string)
| VBool (b : bool)
| VInt (z : Z)
| VObj (h : Handle).

Definition is_object (v : Value) : bool :=
  match v with VObj _ => true | _ => false end.

End Py.

(* ===================================================================== *)
(** ** Insertion-ordered dictionaries with string keys *)
(* ===================================================================== *)

Module Dict.

Definition t (V : Type) : Type := list (string * V).

Definition empty {V} : t V := [].

Definition keys {V} (d : t V) : list string := map fst d.
Definition values {V} (d : t V) : list V := map snd d.
Definition items {V} (d : t V) : list (string * V) := d.
Definition len {V} (d : t V) : nat := List.length d.

Fixpoint get {V} (k : string) (d : t V) : option V :=
  match d with
  | [] => None
  | (k', v) :: rest => if String.eqb k k' then Some v else get k rest
  end.

(** [k in d] *)
Definition contains {V} (k : string) (d : t V) : bool :=
  match get k d with Some _ => true | None => false end.

(** [d[k]] *)
Definition getitem {V} (k : string) (d : t V) : Py.Result V :=
  match get k d with Some v => Py.Ok v | None => Py.Raise Py.KeyError end.

(** [d[k] = v]: an existing key keeps its position, a new key goes last. *)
Fixpoint setitem {V} (k : string) (v : V) (d : t V) : t V :=
  match d with
  | [] => [(k, v)]
  | (k', v') :: rest =>
      if String.eqb k k' then (k', v) :: rest
      else (k', v') :: setitem k v rest
  end.

(** [del d[k]] (the callers test [k in d] first). *)
Fixpoint delitem {V} (k : string) (d : t V) : t V :=
  match d with
  | [] => []
  | (k', v') :: rest =>
      if String.eqb k k' then rest else (k', v') :: delitem k rest
  end.

(** A well-formed dictionary holds every key once. *)
Definition wf {V} (d : t V) : Prop := NoDup (keys d).

End Dict.

(* ===================================================================== *)
(** ** [api_utils/instance_manager.py] *)
(* ===================================================================== *)

Module InstanceManager.

Import Py.

(** [class LoadBalanceStrategy(str, Enum)] *)
Inductive LoadBalanceStrategy : Type :=
| ROUND_ROBIN
| RANDOM
| LEAST_CONNECTIONS.

Definition strategy_value (s : LoadBalanceStrategy) : string :=
  match s with
  | ROUND_ROBIN => "round_robin"
  | RANDOM => "random"
  | LEAST_CONNECTIONS => "least_connections"
  end.

(** [@dataclass class BrowserInstance].  [browser] and [page] are objects
    owned by the browser-automation layer, kept here by reference;
    [last_used] is a reading of the event-loop clock. *)
Record BrowserInstance : Type := mkBrowserInstance {
  id : string;
  auth_file : string;
  browser : Handle;
  page : option Handle;
  ws_endpoint : string;
  port : Z;
  is_ready : bool;
  request_count : Z;
  error_count : Z;
  enabled : bool;
  last_used : Z
}.

Definition set_request_count (n : Z) (i : BrowserInstance) : BrowserInstance :=
  mkBrowserInstance (id i) (auth_file i) (browser i) (page i) (ws_endpoint i)
    (port i) (is_ready i) n (error_count i) (enabled i) (last_used i).

Definition set_error_count (n : Z) (i : BrowserInstance) : BrowserInstance :=
  mkBrowserInstance (id i) (auth_file i) (browser i) (page i) (ws_endpoint i)
    (port i) (is_ready i) (request_count i) n (enabled i) (last_used i).

Definition set_enabled (b : bool) (i : BrowserInstance) : BrowserInstance :=
  mkBrowserInstance (id i) (auth_file i) (browser i) (page i) (ws_endpoint i)
    (port i) (is_ready i) (request_count i) (error_count i) b (last_used i).

Definition set_last_used (t : Z) (i : BrowserInstance) : BrowserInstance :=
  mkBrowserInstance (id i) (auth_file i) (browser i) (page i) (ws_endpoint i)
    (port i) (is_ready i) (request_count i) (error_count i) (enabled i) t.

(** [class MultiInstanceManager]: the registry, the active strategy and the
    round-robin cursor.  The [asyncio.Lock] of the class guards
    [get_next_instance] only; a call that runs alone finds it free and
    leaves it free, and the interleaving of several calls is the subject
    of module [Concurrent]. *)
Record MultiInstanceManager : Type := mkManager {
  instances : Dict.t BrowserInstance;
  strategy : LoadBalanceStrategy;
  current_index : Z
}.

Definition set_instances (d : Dict.t BrowserInstance)
  (self : MultiInstanceManager) : MultiInstanceManager :=
  mkManager d (strategy self) (current_index self).

Definition set_current_index (c : Z)
  (self : MultiInstanceManager) : MultiInstanceManager :=
  mkManager (instances self) (strategy self) c.

(** [__init__(self, strategy=ROUND_ROBIN)] *)
Definition init (s : LoadBalanceStrategy) : MultiInstanceManager :=
  mkManager Dict.empty s 0%Z.

(** *** The monad of the methods: the manager as state, exceptions as
    results.  A raised exception keeps the state it was raised in. *)

Definition Op (A : Type) : Type :=
  MultiInstanceManager -> Result A * MultiInstanceManager.

Definition ret {A} (a : A) : Op A := fun self => (Ok a, self).

Definition bind {A B} (c : Op A) (k : A -> Op B) : Op B :=
  fun self =>
    match c self with
    | (Ok a, self') => k a self'
    | (Raise e, self') => (Raise e, self')
    end.

Definition lift {A} (r : Result A) : Op A := fun self => (r, self).

Definition read {A} (f : MultiInstanceManager -> A) : Op A :=
  fun self => (Ok (f self), self).

Definition write (f : MultiInstanceManager -> MultiInstanceManager) : Op unit :=
  fun self => (Ok tt, f self).

Declare Scope op_scope.
Delimit Scope op_scope with op.
Notation "x <- c ;; k" := (bind c (fun x => k))
  (at level 61, c at next level, right associativity) : op_scope.
Notation "c ;; k" := (bind c (fun _ => k))
  (at level 61, right associativity) : op_scope.
Local Open Scope op_scope.

(** [self.instances[instance_id].<field> = ...]: the object stored under the
    key is changed in place, so the key keeps its position. *)
Definition update_instance (instance_id : string)
  (f : BrowserInstance -> BrowserInstance) : Op unit :=
  d <- read instances ;;
  inst <- lift (Dict.getitem instance_id d) ;;
  write (set_instances (Dict.setitem instance_id (f inst) d)).

Definition add_instance (instance : BrowserInstance) : Op unit :=
  write (fun self =>
    set_instances (Dict.setitem (id instance) instance (instances self)) self).

Definition remove_instance (instance_id : string) : Op unit :=
  present <- read (fun self => Dict.contains instance_id (instances self)) ;;
  if present
  then write (fun self =>
         set_instances (Dict.delitem instance_id (instances self)) self)
  else ret tt.

(** [[inst for inst in self.instances.values()
      if inst.enabled and inst.is_ready]] *)
Fixpoint enabled_and_ready (l : list BrowserInstance) : list BrowserInstance :=
  match l with
  | [] => []
  | inst :: rest =>
      if enabled inst && is_ready inst
      then inst :: enabled_and_ready rest
      else enabled_and_ready rest
  end.

Definition get_enabled_instances (self : MultiInstanceManager)
  : list BrowserInstance :=
  enabled_and_ready (Dict.values (instances self)).

(** [not enabled] on a list *)
Definition is_empty {A} (l : list A) : bool :=
  match l with [] => true | _ :: _ => false end.

(** [get_next_instance], the body of [async with self.lock].  The three
    strategies are all there are, so the [return] after the last [elif] is
    never reached; the warning logged on an empty list is left out. *)
Definition get_next_instance (draw : nat) : Op (option BrowserInstance) :=
  enabled <- read get_enabled_instances ;;
  if is_empty enabled then ret None
  else
    s <- read strategy ;;
    match s with
    | ROUND_ROBIN =>
        cur <- read current_index ;;
        idx <- lift (mod_ cur (Z.of_nat (List.length enabled))) ;;
        instance <- lift (getitem enabled idx) ;;
        cur' <- read current_index ;;
        next <- lift (mod_ (cur' + 1) (Z.of_nat (List.length enabled))) ;;
        write (set_current_index next) ;;
        ret (Some instance)
    | RANDOM =>
        instance <- lift (choice draw enabled) ;;
        ret (Some instance)
    | LEAST_CONNECTIONS =>
        instance <- lift (min_by request_count enabled) ;;
        ret (Some instance)
    end.

Definition mark_request_start (now : Z) (instance_id : string) : Op unit :=
  present <- read (fun self => Dict.contains instance_id (instances self)) ;;
  if present
  then
    update_instance instance_id
      (fun i => set_request_count (request_count i + 1) i) ;;
    update_instance instance_id (set_last_used now)
  else ret tt.

Definition mark_request_error (instance_id : string) : Op unit :=
  present <- read (fun self => Dict.contains instance_id (instances self)) ;;
  if present
  then update_instance instance_id
         (fun i => set_error_count (error_count i + 1) i)
  else ret tt.

(** One entry of [get_stats]. *)
Definition stats_entry (inst : BrowserInstance) : Dict.t Value :=
  [ ("id", VStr (id inst));
    ("auth_file", VStr (basename (auth_file inst)));
    ("is_ready", VBool (is_ready inst));
    ("enabled", VBool (enabled inst));
    ("request_count", VInt (request_count inst));
    ("error_count", VInt (error_count inst));
    ("port", VInt (port inst)) ]%string.

(** The dict comprehension of [get_stats]: one [d[k] = v] per item. *)
Definition get_stats (self : MultiInstanceManager) : Dict.t (Dict.t Value) :=
  fold_left
    (fun acc kv => Dict.setitem (fst kv) (stats_entry (snd kv)) acc)
    (Dict.items (instances self)) Dict.empty.

Definition set_strategy (s : LoadBalanceStrategy) : Op unit :=
  write (fun self => mkManager (instances self) s (current_index self)).

Definition enable_instance (instance_id : string) (b : bool) : Op unit :=
  present <- read (fun self => Dict.contains instance_id (instances self)) ;;
  if present
  then update_instance instance_id (set_enabled b)
  else ret tt.

(** The registry of a manager that was filled through [add_instance]: a
    dictionary (every key once) whose keys are the ids of the instances
    stored under them. *)
Definition well_formed (self : MultiInstanceManager) : Prop :=
  Dict.wf (instances self)
  /\ Forall (fun kv => fst kv = id (snd kv)) (instances self).

(** *** Running the methods *)

Definition exec {A} (c : Op A) (self : MultiInstanceManager)
  : MultiInstanceManager := snd (c self).

Definition result {A} (c : Op A) (self : MultiInstanceManager)
  : Result A := fst (c self).

(** [for inst in insts: manager.add_instance(inst)] *)
Definition register_all (insts : list BrowserInstance)
  (self : MultiInstanceManager) : MultiInstanceManager :=
  fold_left (fun m inst => exec (add_instance inst) m) insts self.

(** Consecutive [await manager.get_next_instance()] calls, one per draw,
    with nothing in between; the results in call order. *)
Fixpoint select_many (draws : list nat) (self : MultiInstanceManager)
  : list (Result (option BrowserInstance)) * MultiInstanceManager :=
  match draws with
  | [] => ([], self)
  | d :: rest =>
      let (r, self') := get_next_instance d self in
      let (rs, self'') := select_many rest self' in
      (r :: rs, self'')
  end.

(** [for _ in range(n): c] *)
Fixpoint times (n : nat) (c : Op unit) : Op unit :=
  match n with
  | O => ret tt
  | S k => c ;; times k c
  end.

End InstanceManager.

(* ===================================================================== *)
(** ** [api_utils/load_balancer.py] *)
(* ===================================================================== *)

Module LoadBalancer.

Import Py InstanceManager.
Local Open Scope op_scope.

(** Every method works on the module-level [instance_manager], which is the
    state of [Op]. *)

Definition get_instance (draw : nat) : Op (option BrowserInstance) :=
  instance <- get_next_instance draw ;;
  ret instance.

Definition mark_request_start (now : Z) (instance : BrowserInstance) : Op unit :=
  InstanceManager.mark_request_start now (id instance).

Definition mark_request_error (instance : BrowserInstance) : Op unit :=
  InstanceManager.mark_request_error (id instance).

Record Stats : Type := mkStats {
  stats_strategy : string;
  total_instances : nat;
  enabled_instances : nat;
  stats_instances : Dict.t (Dict.t Value)
}.

Definition get_stats : Op Stats :=
  read (fun self =>
    mkStats (strategy_value (strategy self))
            (Dict.len (instances self))
            (List.length (get_enabled_instances self))
            (InstanceManager.get_stats self)).

End LoadBalancer.

(* ===================================================================== *)
(** ** [api_utils/context_init.py] *)
(* ===================================================================== *)

Module ContextInit.

Import Py InstanceManager.
Local Open Scope op_scope.

(** The fields of [api_utils.server_state.state] that the builder reads. *)
Record ServerState : Type := mkServerState {
  logger : Handle;
  page_instance : option Handle;
  is_page_ready : bool;
  parsed_model_list : Handle;
  current_ai_studio_model_id : option string;
  model_switching_lock : Handle;
  page_params_cache : Handle;
  params_cache_lock : Handle
}.

(** The fields of [models.ChatCompletionRequest] that the builder reads. *)
Record ChatCompletionRequest : Type := mkRequest {
  model : option string;
  stream : option bool
}.

(** The [RequestContext] dictionary, one field per key. *)
Record RequestContext : Type := mkContext {
  ctx_logger : Handle;
  ctx_page : option Handle;
  ctx_is_page_ready : bool;
  ctx_parsed_model_list : Handle;
  ctx_current_ai_studio_model_id : option string;
  ctx_model_switching_lock : Handle;
  ctx_page_params_cache : Handle;
  ctx_params_cache_lock : Handle;
  ctx_is_streaming : option bool;
  ctx_model_actually_switched : bool;
  ctx_requested_model : option string;
  ctx_model_id_to_use : option string;
  ctx_needs_model_switching : bool
}.

(** [instance and instance.page]: an instance object and a page object are
    truthy, [None] is not. *)
Definition usable_page (instance : option BrowserInstance) : option Handle :=
  match instance with
  | Some inst => page inst
  | None => None
  end.

(** [initialize_request_context]; the log lines are left out.  The chosen
    page and readiness flag are the pair bound by the [if]. *)
Definition initialize_request_context (state : ServerState)
  (now : Z) (draw : nat) (request : ChatCompletionRequest)
  : Op RequestContext :=
  instance <- LoadBalancer.get_instance draw ;;
  chosen <-
    match instance, usable_page instance with
    | Some inst, Some _ =>
        LoadBalancer.mark_request_start now inst ;;
        ret (page inst, is_ready inst)
    | _, _ =>
        ret (page_instance state, is_page_ready state)
    end ;;
  ret (mkContext (logger state) (fst chosen) (snd chosen)
         (parsed_model_list state) (current_ai_studio_model_id state)
         (model_switching_lock state) (page_params_cache state)
         (params_cache_lock state) (stream request) false (model request)
         None false).

End ContextInit.

(* ===================================================================== *)
(** ** Interleaved calls of [get_next_instance] *)
(* ===================================================================== *)

(** Several tasks call [get_next_instance] on one manager.  A task runs the
    method one statement at a time, and between two statements any other
    task may run: this is more interleaving than the event loop allows
    (it switches tasks at an [await] only), so what holds here holds there.
    [async with self.lock] is the one place where a task can wait. *)

Module Concurrent.

Import Py InstanceManager.

Abbreviation Outcome := (Result (option BrowserInstance)).

(** Where a task stands, with the local variables bound so far. *)
Inductive Pc : Type :=
| Waiting                       (* before [async with self.lock] *)
| AtFilter                      (* lock taken; next: [enabled = ...] *)
| AtEmptyTest (enabled : list BrowserInstance)   (* next: [if not enabled] *)
| AtStrategy (enabled : list BrowserInstance)
                                (* next: the tests of [self.strategy] *)
| AtPick (enabled : list BrowserInstance)        (* next: [instance = enabled[...]] *)
| AtAdvance (enabled : list BrowserInstance) (instance : BrowserInstance)
                                (* next: [self.current_index = ...] *)
| AtExit (r : Outcome)          (* leaving the [with] block *)
| Done (r : Outcome).           (* returned [r] *)

(** Inside the [with] block, holding the lock. *)
Definition in_section (pc : Pc) : bool :=
  match pc with
  | Waiting | Done _ => false
  | _ => true
  end.

Definition returned (r : Result BrowserInstance) : Outcome :=
  match r with
  | Ok instance => Ok (Some instance)
  | Raise e => Raise e
  end.

(** [enabled[self.current_index % len(enabled)]]: the candidate under the
    cursor as the manager has it now. *)
Definition pick (enabled : list BrowserInstance) (self : MultiInstanceManager)
  : Result BrowserInstance :=
  match mod_ (current_index self) (Z.of_nat (List.length enabled)) with
  | Raise e => Raise e
  | Ok idx => getitem enabled idx
  end.

(** One statement of the body of the [with] block. *)
Definition body_step (draw : nat) (pc : Pc) (self : MultiInstanceManager)
  : Pc * MultiInstanceManager :=
  match pc with
  | AtFilter => (AtEmptyTest (get_enabled_instances self), self)
  | AtEmptyTest enabled =>
      if is_empty enabled then (AtExit (Ok None), self)
      else (AtStrategy enabled, self)
  | AtStrategy enabled =>
      match strategy self with
      | ROUND_ROBIN => (AtPick enabled, self)
      | RANDOM => (AtExit (returned (choice draw enabled)), self)
      | LEAST_CONNECTIONS =>
          (AtExit (returned (min_by request_count enabled)), self)
      end
  | AtPick enabled =>
      match pick enabled self with
      | Raise e => (AtExit (Raise e), self)
      | Ok instance => (AtAdvance enabled instance, self)
      end
  | AtAdvance enabled instance =>
      match mod_ (current_index self + 1) (Z.of_nat (List.length enabled)) with
      | Raise e => (AtExit (Raise e), self)
      | Ok next => (AtExit (Ok (Some instance)), set_current_index next self)
      end
  | Waiting | AtExit _ | Done _ => (pc, self)
  end.

Record Task : Type := mkTask {
  draw : nat;
  pc : Pc
}.

(** The shared manager, the state of its lock, the tasks, and (kept for the
    statements below, read by no step) the tasks in the order in which they
    took the lock. *)
Record System : Type := mkSystem {
  manager : MultiInstanceManager;
  locked : bool;
  tasks : list Task;
  order : list nat
}.

Fixpoint set_nth {A} (i : nat) (x : A) (l : list A) : list A :=
  match l, i with
  | [], _ => []
  | _ :: rest, O => x :: rest
  | a :: rest, S j => a :: set_nth j x rest
  end.

(** Task [i] runs its next statement; [None] when it cannot move: it has
    returned, or it waits for a lock that is taken. *)
Definition step (i : nat) (s : System) : option System :=
  match nth_error (tasks s) i with
  | None => None
  | Some t =>
      match pc t with
      | Done _ => None
      | Waiting =>
          if locked s then None
          else Some (mkSystem (manager s) true
                       (set_nth i (mkTask (draw t) AtFilter) (tasks s))
                       (order s ++ [i]))
      | AtExit r =>
          Some (mkSystem (manager s) false
                  (set_nth i (mkTask (draw t) (Done r)) (tasks s))
                  (order s))
      | here =>
          let (next, self') := body_step (draw t) here (manager s) in
          Some (mkSystem self' (locked s)
                  (set_nth i (mkTask (draw t) next) (tasks s))
                  (order s))
      end
  end.

(** A schedule names the task to run at each turn; a task that cannot move
    loses its turn. *)
Fixpoint run (schedule : list nat) (s : System) : System :=
  match schedule with
  | [] => s
  | i :: rest =>
      match step i s with
      | Some s' => run rest s'
      | None => run rest s
      end
  end.

(** One waiting task per draw, the lock free. *)
Definition start (self : MultiInstanceManager) (draws : list nat) : System :=
  mkSystem self false (map (fun d => mkTask d Waiting) draws) [].

Definition has_returned (t : Task) : bool :=
  match pc t with Done _ => true | _ => false end.

Definition finished (s : System) : bool := forallb has_returned (tasks s).

Definition outcome_of (s : System) (i : nat) : option Outcome :=
  match nth_error (tasks s) i with
  | Some t => match pc t with Done r => Some r | _ => None end
  | None => None
  end.

(** *** The linearization of a state *)

(** The rest of the body, run without interruption: at most five
    statements remain. *)
Definition finish (draw : nat) (pc : Pc) (self : MultiInstanceManager)
  : Pc * MultiInstanceManager :=
  Nat.iter 5 (fun st => body_step draw (fst st) (snd st)) (pc, self).

(** The task that holds the lock, if any: the last one that took it. *)
Definition holder (s : System) : option nat :=
  if locked s then
    match rev (order s) with
    | i :: _ => Some i
    | [] => None
    end
  else None.

(** The manager once the holder of the lock is through. *)
Definition lin_manager (s : System) : MultiInstanceManager :=
  match holder s with
  | Some i =>
      match nth_error (tasks s) i with
      | Some t => snd (finish (draw t) (pc t) (manager s))
      | None => manager s
      end
  | None => manager s
  end.

(** What a task returns, or will return once it is through, if it has the
    lock or had it. *)
Definition lin_outcome (self : MultiInstanceManager) (t : Task)
  : option Outcome :=
  match pc t with
  | Waiting => None
  | Done r => Some r
  | here =>
      match fst (finish (draw t) here self) with
      | AtExit r => Some r
      | _ => None
      end
  end.

(** The calls in the order of the lock, run one after the other. *)
Definition serial (self : MultiInstanceManager) (draws : list nat)
  (s : System) : list Outcome * MultiInstanceManager :=
  select_many (map (fun i => nth i draws O) (order s)) self.

(** What every reachable state satisfies. *)
Record Linearized (self : MultiInstanceManager) (draws : list nat)
  (s : System) : Prop := mkLinearized {
  lin_draws : map draw (tasks s) = draws;
  lin_lock :
    locked s = true ->
    exists i t, holder s = Some i /\ nth_error (tasks s) i = Some t
                /\ in_section (pc t) = true;
  lin_section :
    forall i t, nth_error (tasks s) i = Some t ->
      in_section (pc t) = true -> holder s = Some i;
  lin_order : NoDup (order s);
  lin_waiting :
    forall i t, nth_error (tasks s) i = Some t ->
      (pc t = Waiting <-> ~ In i (order s));
  lin_cursor :
    forall i t enabled instance, nth_error (tasks s) i = Some t ->
      pc t = AtAdvance enabled instance ->
      pick enabled (manager s) = Ok instance;
  lin_state : lin_manager s = snd (serial self draws s);
  lin_results :
    forall k i t, nth_error (order s) k = Some i ->
      nth_error (tasks s) i = Some t ->
      lin_outcome (manager s) t = nth_error (fst (serial self draws s)) k;
  lin_known :
    forall i, In i (order s) -> exists t, nth_error (tasks s) i = Some t
}.

Arguments lin_draws {self draws s} _.
Arguments lin_lock {self draws s} _ _.
Arguments lin_section {self draws s} _ _ _ _ _.
Arguments lin_order {self draws s} _.
Arguments lin_waiting {self draws s} _ _ _ _.
Arguments lin_cursor {self draws s} _ _ _ _ _ _ _.
Arguments lin_state {self draws s} _.
Arguments lin_results {self draws s} _ _ _ _ _ _.
Arguments lin_known {self draws s} _ _ _.

End Concurrent.

(* ===================================================================== *)
(** ** The pools of [tests/test_load_balancer.py] *)
(* ===================================================================== *)

Module Examples.

Import Py InstanceManager.

Definition mock_browser : Handle := ObjRef 1.
Definition mock_page : Handle := ObjRef 2.

(** [BrowserInstance(id=..., auth_file=..., browser=mock_browser,
    page=mock_page, is_ready=True, ...)] *)
Definition test_instance (name auth : string) (count : Z) (on : bool)
  : BrowserInstance :=
  mkBrowserInstance name auth mock_browser (Some mock_page) "" 0 true
    count 0 on 0.

Definition instance_0 : BrowserInstance :=
  test_instance "instance_0" "auth_0.json" 0 true.
Definition instance_1 : BrowserInstance :=
  test_instance "instance_1" "auth_1.json" 0 true.
Definition instance_2 : BrowserInstance :=
  test_instance "instance_2" "auth_2.json" 0 true.

Definition three : list BrowserInstance := [instance_0; instance_1; instance_2].

(** [test_round_robin_strategy] *)
Definition round_robin_pool : MultiInstanceManager :=
  register_all three (init ROUND_ROBIN).

(** [test_least_connections_strategy]: [request_count=i] *)
Definition counted : list BrowserInstance :=
  [ test_instance "instance_0" "auth_0.json" 0 true;
    test_instance "instance_1" "auth_1.json" 1 true;
    test_instance "instance_2" "auth_2.json" 2 true ].

Definition least_connections_pool : MultiInstanceManager :=
  register_all counted (init LEAST_CONNECTIONS).

(** [test_enabled_instances_only]: [enabled=(i != 1)] *)
Definition one_disabled : list BrowserInstance :=
  [ test_instance "instance_0" "auth_0.json" 0 true;
    test_instance "instance_1" "auth_1.json" 0 false;
    test_instance "instance_2" "auth_2.json" 0 true ].

(** A pool as [multi_instance_init.py] fills it: the authentication file
    is a path into the profile directory. *)
Definition profile_instance : BrowserInstance :=
  mkBrowserInstance "instance_0" "auth_profiles/active/account.json"
    mock_browser (Some mock_page) "ws://127.0.0.1:9222/abc" 9222 true 4 1
    true 17.

Definition profile_pool : MultiInstanceManager :=
  register_all [profile_instance] (init ROUND_ROBIN).

(** An instance whose page was never set. *)
Definition pageless_instance : BrowserInstance :=
  mkBrowserInstance "instance_0" "auth_0.json" mock_browser None "" 0 true
    0 0 true 0.

Definition server_state : ContextInit.ServerState :=
  ContextInit.mkServerState (ObjRef 10) (Some (ObjRef 11)) true (ObjRef 12)
    None (ObjRef 13) (ObjRef 14) (ObjRef 15).

Definition chat_request : ContextInit.ChatCompletionRequest :=
  ContextInit.mkRequest (Some "gemini-pro"%string) (Some true).

(** Three tasks select at once; the turns go to tasks 0, 1 and 2 as
    listed.  Task 0 takes the lock first, task 2 next, task 1 last. *)
Definition interleaving : list nat :=
  [0; 1; 0; 1; 0; 0; 1; 2; 0; 0; 0; 2; 2; 1; 2; 2; 2; 2; 2; 2;
   1; 1; 1; 1; 1; 1; 1].

End Examples.

(* ===================================================================== *)
(** ** Sequences of calls on one manager *)
(* ===================================================================== *)

Module Admin.

Import Py InstanceManager.
Local Open Scope op_scope.

(** The methods of [MultiInstanceManager] that change it, as the callers
    use them: the initialisation code and the routers. *)
Inductive Call : Type :=
| AddInstance (instance : BrowserInstance)
| RemoveInstance (instance_id : string)
| GetNextInstance (draw : nat)
| MarkRequestStart (now : Z) (instance_id : string)
| MarkRequestError (instance_id : string)
| SetStrategy (s : LoadBalanceStrategy)
| EnableInstance (instance_id : string) (b : bool).

Definition call (c : Call) : Op unit :=
  match c with
  | AddInstance instance => add_instance instance
  | RemoveInstance instance_id => remove_instance instance_id
  | GetNextInstance draw => get_next_instance draw ;; ret tt
  | MarkRequestStart now instance_id => mark_request_start now instance_id
  | MarkRequestError instance_id => mark_request_error instance_id
  | SetStrategy s => set_strategy s
  | EnableInstance instance_id b => enable_instance instance_id b
  end.

(** The calls one after the other. *)
Definition calls (l : list Call) (self : MultiInstanceManager)
  : MultiInstanceManager :=
  fold_left (fun m c => exec (call c) m) l self.

(** The call registers or removes the instance with this id. *)
Definition replaces (instance_id : string) (c : Call) : bool :=
  match c with
  | AddInstance instance => String.eqb (id instance) instance_id
  | RemoveInstance k => String.eqb k instance_id
  | _ => false
  end.

(** [for now in nows: manager.mark_request_start(instance_id)], the clock
    reading [now] at each call. *)
Fixpoint mark_request_starts (nows : list Z) (instance_id : string) : Op unit :=
  match nows with
  | [] => ret tt
  | now :: rest =>
      mark_request_start now instance_id ;;
      mark_request_starts rest instance_id
  end.

(** The largest difference of [request_count] between two instances of a
    list is at most [n]. *)
Definition spread_within (n : Z) (l : list BrowserInstance) : Prop :=
  forall x y, In x l -> In y l -> (request_count x - request_count y <= n)%Z.

(** Requests served one after the other by [initialize_request_context],
    each with its clock reading and its draw; the manager they leave. *)
Fixpoint serve (state : ContextInit.ServerState)
  (request : ContextInit.ChatCompletionRequest)
  (arrivals : list (Z * nat)) (self : MultiInstanceManager)
  : MultiInstanceManager :=
  match arrivals with
  | [] => self
  | (now, draw) :: rest =>
      serve state request rest
        (exec (ContextInit.initialize_request_context state now draw request)
           self)
  end.

End Admin.

(* ===================================================================== *)
(** ** More of Python: string tests, paths, JSON values *)
(* ===================================================================== *)

Module PyStr.

(** [s.startswith(p)] *)
Fixpoint startswith (p s : string) : bool :=
  match p, s with
  | EmptyString, _ => true
  | String _ _, EmptyString => false
  | String a p', String b s' => Ascii.eqb a b && startswith p' s'
  end.

(** [s.endswith("/")] *)
Fixpoint endswith_sep (s : string) : bool :=
  match s with
  | EmptyString => false
  | String a EmptyString => Ascii.eqb a "/"%char
  | String _ rest => endswith_sep rest
  end.

(** Truth value of a [str]: false for the empty string only. *)
Definition truthy (s : string) : bool :=
  match s with EmptyString => false | String _ _ => true end.

(** Truth value of an [Optional[str]]. *)
Definition truthy_opt (o : option string) : bool :=
  match o with Some s => truthy s | None => false end.

(** [os.path.join(a, b)] of [posixpath], two components. *)
Definition path_join (a b : string) : string :=
  if startswith "/" b then b
  else if negb (truthy a) || endswith_sep a then (a ++ b)%string
  else (a ++ "/" ++ b)%string.

(** The directory part of a path: empty, or ending in ['/']. *)
Definition directory_part (d : string) : Prop :=
  d = EmptyString \/ exists d', d = (d' ++ "/")%string.

(** [x in seen] for a set of strings. *)
Definition mem (x : string) (seen : list string) : bool :=
  existsb (String.eqb x) seen.

(** [str(n)] for a non-negative [int], as an f-string prints it. *)
Definition decimal (n : nat) : string :=
  DecimalString.NilEmpty.string_of_uint (Nat.to_uint n).

(** A decoded JSON value.  Of a [float] only its being zero is kept, which
    is all the handlers ask of one. *)
#[warnings="-register-all"] Inductive Json : Type :=
| JNull
| JBool (b : bool)
| JInt (z : Z)
| JFloat (is_zero : bool)
| JStr (s : string)
| JList (l : list Json)
| JDict (d : list (string * Json)).

(** Truth value of a decoded JSON value. *)
Definition json_truthy (v : Json) : bool :=
  match v with
  | JNull => false
  | JBool b => b
  | JInt z => negb (z =? 0)%Z
  | JFloat is_zero => negb is_zero
  | JStr s => truthy s
  | JList l => match l with [] => false | _ :: _ => true end
  | JDict d => match d with [] => false | _ :: _ => true end
  end.

End PyStr.

(* ===================================================================== *)
(** ** [api_utils/routers/config.py] (and the access checks of
       [api_keys.py] and [config_page.py]) *)
(* ===================================================================== *)

Module ConfigRouter.

Import Py PyStr InstanceManager.
Local Open Scope op_scope.

(** What a handler gives back: its return value, or the status code of the
    [HTTPException] it raises (the [detail] text is left out). *)
Inductive Response (A : Type) : Type :=
| Returned (body : A)
| HTTPException (status_code : nat).

Arguments Returned {A} body.
Arguments HTTPException {A} status_code.

Section Access.

(** [auth_utils] is not part of these files: [API_KEYS] is the key set
    after [initialize_keys()], of which the checks only ask whether it is
    empty, and [verify_api_key] is its test of one key.  [headers] is
    [request.headers.get]. *)
Variable API_KEYS : list string.
Variable verify_api_key : string -> bool.
Variable headers : string -> option string.

(** [config.py]: [verify_config_access] *)
Definition verify_config_access : Response bool :=
  if is_empty API_KEYS then Returned true
  else
    let auth_header := headers "Authorization"%string in
    let api_key :=
      match auth_header with
      | Some h =>
          if truthy h && startswith "Bearer " h
          then Some (slice_from 7 h) else None
      | None => None
      end in
    let api_key :=
      if negb (truthy_opt api_key) then headers "X-API-Key"%string
      else api_key in
    match api_key with
    | Some key =>
        if negb (truthy key) || negb (verify_api_key key)
        then HTTPException 401 else Returned true
    | None => HTTPException 401
    end.

(** [api_keys.py]: [verify_api_key_access] *)
Definition verify_api_key_access : Response bool :=
  if is_empty API_KEYS then Returned true
  else
    let auth_header := headers "Authorization"%string in
    let api_key :=
      match auth_header with
      | Some h =>
          if truthy h && startswith "Bearer " h
          then Some (slice_from 7 h) else None
      | None => None
      end in
    let api_key :=
      if negb (truthy_opt api_key) then headers "X-API-Key"%string
      else api_key in
    match api_key with
    | Some key =>
        if negb (truthy key) || negb (verify_api_key key)
        then HTTPException 401 else Returned true
    | None => HTTPException 401
    end.

(** [config_page.py]: [verify_config_page_access] *)
Definition verify_config_page_access : Response bool :=
  if is_empty API_KEYS then Returned true
  else
    let auth_header := headers "Authorization"%string in
    let api_key :=
      match auth_header with
      | Some h =>
          if truthy h && startswith "Bearer " h
          then Some (slice_from 7 h) else None
      | None => None
      end in
    let api_key :=
      if negb (truthy_opt api_key) then headers "X-API-Key"%string
      else api_key in
    match api_key with
    | Some key =>
        if negb (truthy key) || negb (verify_api_key key)
        then HTTPException 401 else Returned true
    | None => HTTPException 401
    end.

End Access.

(** The files that a [glob.glob] found, none when the directory is not
    there. *)
Definition glob_result (files : option (list string)) : list string :=
  match files with Some l => l | None => [] end.

(** [class AuthFileInfo(BaseModel)] *)
Record AuthFileInfo : Type := mkAuthFileInfo {
  filename : string;
  path : string;
  size : Z;
  file_enabled : bool
}.

Section Files.

(** The file system as the handlers see it.  [saved] and [active] are the
    results of [glob.glob] on [SAVED_AUTH_DIR/*.json] and
    [ACTIVE_AUTH_DIR/*.json], [None] when the directory does not exist;
    [stat_size] is [os.stat(path).st_size], [None] when [os.stat] raises. *)
Variable saved active : option (list string).
Variable stat_size : string -> option Z.

(** One [for file_path in glob.glob(pattern)] loop of [list_auth_files]. *)
Fixpoint scan_auth_files (files : list string)
  (auth_files : list AuthFileInfo) (seen_basenames : list string)
  : list AuthFileInfo * list string :=
  match files with
  | [] => (auth_files, seen_basenames)
  | file_path :: rest =>
      let name := basename file_path in
      if negb (mem name seen_basenames) then
        match stat_size file_path with
        | Some sz =>
            scan_auth_files rest
              (auth_files ++ [mkAuthFileInfo name file_path sz true])
              (name :: seen_basenames)
        | None => scan_auth_files rest auth_files seen_basenames
        end
      else scan_auth_files rest auth_files seen_basenames
  end.

Definition list_auth_files : list AuthFileInfo :=
  let after_saved :=
    match saved with
    | Some files => scan_auth_files files [] []
    | None => ([], [])
    end in
  match active with
  | Some files =>
      fst (scan_auth_files files (fst after_saved) (snd after_saved))
  | None => fst after_saved
  end.

(** [SAVED_AUTH_DIR] (from [launcher.config]), [os.path.abspath] of it,
    [os.path.exists], and whether [os.remove] goes through. *)
Variable SAVED_AUTH_DIR : string.
Variable saved_abspath : string.
Variable path_exists : string -> bool.
Variable remove_succeeds : string -> bool.

Definition delete_auth_file (name : string) : Response unit :=
  let file_path := path_join SAVED_AUTH_DIR name in
  if negb (startswith saved_abspath file_path) then HTTPException 403
  else if negb (path_exists file_path) then HTTPException 404
  else if remove_succeeds file_path then Returned tt
  else HTTPException 500.

End Files.

(** [class LoadBalanceConfig(BaseModel)] *)
Record LoadBalanceConfig : Type := mkLoadBalanceConfig {
  config_strategy : string;
  config_enabled_instances : nat;
  config_total_instances : nat
}.

Definition get_load_balance_config : Op LoadBalanceConfig :=
  enabled <- read get_enabled_instances ;;
  s <- read strategy ;;
  d <- read instances ;;
  ret (mkLoadBalanceConfig (strategy_value s) (List.length enabled)
         (Dict.len d)).

(** [LoadBalanceStrategy(value)]: the member with this value, or
    [ValueError]. *)
Definition strategy_of_value (v : Json) : Result LoadBalanceStrategy :=
  match v with
  | JStr s =>
      if String.eqb s "round_robin" then Ok ROUND_ROBIN
      else if String.eqb s "random" then Ok RANDOM
      else if String.eqb s "least_connections" then Ok LEAST_CONNECTIONS
      else Raise ValueError
  | _ => Raise ValueError
  end.

(** [set_load_balance_strategy(request: dict)]; [request.get("strategy")]
    is [None] for a missing key. *)
Definition set_load_balance_strategy (request : Dict.t Json)
  : Op (Response unit) :=
  match Dict.get "strategy" request with
  | None => ret (HTTPException 400)
  | Some v =>
      if negb (json_truthy v) then ret (HTTPException 400)
      else
        match strategy_of_value v with
        | Ok strategy_enum =>
            set_strategy strategy_enum ;;
            ret (Returned tt)
        | Raise ValueError => ret (HTTPException 400)
        | Raise e => lift (Raise e)
        end
  end.

(** [list_instances]: [list(stats.values())] *)
Definition list_instances : Op (list (Dict.t Value)) :=
  stats <- read get_stats ;;
  ret (Dict.values stats).

(** The handler [enable_instance(instance_id, enabled)] of the router. *)
Definition enable_instance_endpoint (instance_id : string) (b : bool)
  : Op (Response unit) :=
  enable_instance instance_id b ;;
  ret (Returned tt).

End ConfigRouter.

(* ===================================================================== *)
(** ** [api_utils/multi_instance_init.py] *)
(* ===================================================================== *)

Module MultiInstanceInit.

Import Py PyStr InstanceManager.
Local Open Scope op_scope.

Section Environment.

(** What the initialisation reads from outside.  [saved] and [active] are
    the [glob.glob] results of the two directories ([None]: no such
    directory); [file_exists] is [os.path.exists]; [use_multi_instance] is
    the local of that name, read from [ENABLE_MULTI_INSTANCE];
    [ws_endpoint_env] is [os.environ.get("CAMOUFOX_WS_ENDPOINT")].
    [bring_up idx auth_file] stands for the browser work of one pass of
    the loop: the browser and the page when the connection, the page
    initialisation and the two set-up steps went through with
    [is_ready], [None] when the page was not ready or something raised.
    [clock idx] is the event-loop time when the instance is built. *)
Variable saved active : option (list string).
Variable file_exists : string -> bool.
Variable use_multi_instance : bool.
Variable ws_endpoint_env : option string.
Variable bring_up : nat -> string -> option (Handle * option Handle).
Variable clock : nat -> Z.

(** The loop over the files of [active], skipping base names seen. *)
Fixpoint add_unseen (files : list string) (auth_files : list string)
  (seen_basenames : list string) : list string :=
  match files with
  | [] => auth_files
  | f :: rest =>
      if negb (mem (basename f) seen_basenames)
      then add_unseen rest (auth_files ++ [f])
             (basename f :: seen_basenames)
      else add_unseen rest auth_files seen_basenames
  end.

(** The search for authentication files when none are given. *)
Definition discover_auth_files : list string :=
  let auth_files := match saved with Some files => files | None => [] end in
  let seen_basenames := map basename auth_files in
  match active with
  | Some files => add_unseen files auth_files seen_basenames
  | None => auth_files
  end.

(** [f"instance_{idx}"] *)
Definition instance_name (idx : nat) : string :=
  ("instance_" ++ decimal idx)%string.

(** The instance built in pass [idx] of the loop. *)
Definition new_instance (base_port : Z) (idx : nat) (auth_file ws : string)
  (browser : Handle) (page : option Handle) : BrowserInstance :=
  mkBrowserInstance (instance_name idx) auth_file browser page ws
    (base_port + Z.of_nat idx) true 0 0 true (clock idx).

(** [for idx, auth_file in enumerate(auth_files)], from pass [idx] on;
    the result is [success_count]. *)
Fixpoint bring_up_all (base_port : Z) (idx : nat) (auth_files : list string)
  (success_count : nat) : Op nat :=
  match auth_files with
  | [] => ret success_count
  | auth_file :: rest =>
      if negb (file_exists auth_file)
      then bring_up_all base_port (S idx) rest success_count
      else if negb (truthy_opt ws_endpoint_env)
      then bring_up_all base_port (S idx) rest success_count
      else
        match ws_endpoint_env, bring_up idx auth_file with
        | Some ws, Some (browser, page) =>
            add_instance
              (new_instance base_port idx auth_file ws browser page) ;;
            bring_up_all base_port (S idx) rest (S success_count)
        | _, _ => bring_up_all base_port (S idx) rest success_count
        end
  end.

Definition initialize_multiple_browsers (auth_files : option (list string))
  (base_port : Z) : Op bool :=
  let found :=
    match auth_files with
    | Some l => Some l
    | None =>
        if is_empty discover_auth_files then None
        else Some discover_auth_files
    end in
  match found with
  | None => ret false
  | Some l =>
      let l := if negb use_multi_instance && (1 <? List.length l)%nat
               then firstn 1 l else l in
      success_count <- bring_up_all base_port 0 l 0 ;;
      ret (0 <? success_count)%nat
  end.

(** The files the loop of [initialize_multiple_browsers] runs over: the
    ones given or found, cut to the first when multi-instance mode is
    off. *)
Definition files_to_try (auth_files : option (list string)) : list string :=
  let l := match auth_files with
           | Some l => l
           | None => discover_auth_files
           end in
  if negb use_multi_instance && (1 <? List.length l)%nat
  then firstn 1 l else l.

(** The passes of the loop that register an instance, with the instance
    each one registers. *)
Fixpoint brought_up (base_port : Z) (idx : nat) (auth_files : list string)
  : list BrowserInstance :=
  match auth_files with
  | [] => []
  | auth_file :: rest =>
      match file_exists auth_file, ws_endpoint_env, bring_up idx auth_file with
      | true, Some ws, Some (browser, page) =>
          if truthy ws
          then new_instance base_port idx auth_file ws browser page
               :: brought_up base_port (S idx) rest
          else brought_up base_port (S idx) rest
      | _, _, _ => brought_up base_port (S idx) rest
      end
  end.

(** [initialize_single_browser_fallback].  [bring_up_default] is the
    browser and page when the connection and [_initialize_page_logic] went
    through with [is_ready]; [default_port] is
    [int(os.environ.get("DEFAULT_CAMOUFOX_PORT", "9222"))], [None] when
    [int] raises. *)
Variable bring_up_default : option (Handle * option Handle).
Variable default_port : option Z.

Definition initialize_single_browser_fallback (auth_file : option string)
  : Op bool :=
  if negb (truthy_opt ws_endpoint_env) then ret false
  else
    match ws_endpoint_env, bring_up_default, default_port with
    | Some ws, Some (browser, page), Some p =>
        add_instance
          (mkBrowserInstance "default"
             (match auth_file with
              | Some f => if truthy f then f else EmptyString
              | None => EmptyString
              end)
             browser page ws p true 0 0 true (clock 0)) ;;
        ret true
    | _, _, _ => ret false
    end.

End Environment.

End MultiInstanceInit.

(* ===================================================================== *)
(** ** Sample inputs *)
(* ===================================================================== *)

Module Samples.

Import Py PyStr InstanceManager.

(** [instance_1] registered again, from another file and with requests
    already counted. *)
Definition replacement : BrowserInstance :=
  Examples.test_instance "instance_1" "auth_9.json" 7 true.

(** An instance under an id of its own. *)
Definition newcomer : BrowserInstance :=
  Examples.test_instance "instance_7" "auth_7.json" 0 true.

(** Calls as the routers and the request path make them. *)
Definition traffic : list Admin.Call :=
  [ Admin.GetNextInstance 0;
    Admin.MarkRequestStart 3 "instance_0";
    Admin.MarkRequestError "instance_0";
    Admin.EnableInstance "instance_0" false;
    Admin.SetStrategy RANDOM;
    Admin.RemoveInstance "instance_2";
    Admin.AddInstance newcomer;
    Admin.MarkRequestError "instance_0" ].

(** Request headers: a bearer token and another key in [X-API-Key]. *)
Definition bearer_headers (name : string) : option string :=
  if String.eqb name "Authorization" then Some "Bearer secret-key-1"%string
  else if String.eqb name "X-API-Key" then Some "other-key"%string
  else None.

(** Request headers: basic authentication and a key in [X-API-Key]. *)
Definition basic_headers (name : string) : option string :=
  if String.eqb name "Authorization" then Some "Basic dXNlcjpwYXNz"%string
  else if String.eqb name "X-API-Key" then Some "secret-key-1"%string
  else None.

Definition known_keys : list string := ["secret-key-1"%string].

Definition is_known_key (key : string) : bool := mem key known_keys.

(** Two directories with a file of the same name in each. *)
Definition saved_files : option (list string) :=
  Some ["/srv/auth/saved/a.json"; "/srv/auth/saved/b.json"]%string.

Definition active_files : option (list string) :=
  Some ["/srv/auth/active/b.json"; "/srv/auth/active/c.json"]%string.

Definition sizes (file_path : string) : option Z :=
  if String.eqb file_path "/srv/auth/saved/a.json" then Some 120%Z
  else if String.eqb file_path "/srv/auth/saved/b.json" then Some 340%Z
  else if String.eqb file_path "/srv/auth/active/b.json" then Some 99%Z
  else if String.eqb file_path "/srv/auth/active/c.json" then Some 7%Z
  else None.

(** Every file is there; the browser of the second file does not come
    up. *)
Definition all_exist (file_path : string) : bool := true.

Definition second_fails (idx : nat) (auth_file : string)
  : option (Handle * option Handle) :=
  if Nat.eqb idx 1 then None
  else Some (ObjRef (100 + idx), Some (ObjRef (200 + idx))).

Definition ticks (idx : nat) : Z := Z.of_nat (10 * idx).

(** Five requests, with their clock readings and draws. *)
Definition arrivals : list (Z * nat) :=
  [(1%Z, 0); (2%Z, 0); (3%Z, 0); (4%Z, 0); (5%Z, 0)].

End Samples.

(* ===================================================================== *)
(** * Properties *)
(* ===================================================================== *)

(** ** Facts about dictionaries *)

Section DictFacts.

Context {V : Type}.
Implicit Types (d : Dict.t V) (k : string) (v : V).

Lemma dict_get_none_iff k d : Dict.get k d = None <-> ~ In k (Dict.keys d).
Proof.
  induction d as [|[k' v'] rest IH]; simpl.
  - tauto.
  - destruct (String.eqb_spec k k') as [->|Hne].
    + split; [discriminate | intros H; elim H; now left].
    + rewrite IH. split.
      * intros H [E|E]; [congruence | tauto].
      * tauto.
Qed.

Lemma dict_contains_false_iff k d :
  Dict.contains k d = false <-> ~ In k (Dict.keys d).
Proof.
  unfold Dict.contains. rewrite <- dict_get_none_iff.
  destruct (Dict.get k d); split; congruence.
Qed.

Lemma dict_contains_get k d v : Dict.get k d = Some v -> Dict.contains k d = true.
Proof. unfold Dict.contains. now intros ->. Qed.

Lemma dict_setitem_fresh k v d :
  ~ In k (Dict.keys d) -> Dict.setitem k v d = d ++ [(k, v)].
Proof.
  induction d as [|[k' v'] rest IH]; simpl; intros Hk.
  - reflexivity.
  - destruct (String.eqb_spec k k') as [->|Hne].
    + elim Hk. now left.
    + rewrite IH; tauto.
Qed.

Lemma dict_keys_setitem_present k v d :
  In k (Dict.keys d) -> Dict.keys (Dict.setitem k v d) = Dict.keys d.
Proof.
  induction d as [|[k' v'] rest IH]; simpl; intros Hk.
  - contradiction.
  - destruct (String.eqb_spec k k') as [->|Hne]; simpl.
    + reflexivity.
    + rewrite IH; [reflexivity | destruct Hk; congruence].
Qed.

Lemma dict_get_setitem_same k v d : Dict.get k (Dict.setitem k v d) = Some v.
Proof.
  induction d as [|[k' v'] rest IH]; simpl.
  - now rewrite String.eqb_refl.
  - destruct (String.eqb_spec k k') as [->|Hne]; simpl.
    + now rewrite String.eqb_refl.
    + destruct (String.eqb_spec k k'); congruence.
Qed.

Lemma dict_get_setitem_other k k0 v d :
  k0 <> k -> Dict.get k0 (Dict.setitem k v d) = Dict.get k0 d.
Proof.
  intros Hne. induction d as [|[k' v'] rest IH]; simpl.
  - destruct (String.eqb_spec k0 k); congruence.
  - destruct (String.eqb_spec k k') as [->|Hne']; simpl.
    + destruct (String.eqb_spec k0 k'); congruence.
    + now rewrite IH.
Qed.

Lemma dict_get_in_keys k d v : Dict.get k d = Some v -> In k (Dict.keys d).
Proof.
  intros H. destruct (in_dec string_dec k (Dict.keys d)) as [Hin|Hout].
  - exact Hin.
  - apply dict_get_none_iff in Hout. congruence.
Qed.

End DictFacts.

Lemma dict_setitem_twice {V : Type} (k : string) (v1 v2 : V) (d : Dict.t V) :
  Dict.setitem k v2 (Dict.setitem k v1 d) = Dict.setitem k v2 d.
Proof.
  induction d as [|[k' v'] rest IH]; simpl.
  - now rewrite String.eqb_refl.
  - destruct (String.eqb_spec k k') as [->|Hne]; simpl.
    + now rewrite String.eqb_refl.
    + destruct (String.eqb_spec k k'); [congruence | now rewrite IH].
Qed.

Import Py InstanceManager.

(** ** The registry *)

Ltac run_op :=
  unfold bind, read, write, lift, ret, exec, result; simpl.

Lemma update_instance_registered m instance_id inst f :
  Dict.get instance_id (instances m) = Some inst ->
  update_instance instance_id f m
  = (Ok tt, set_instances (Dict.setitem instance_id (f inst) (instances m)) m).
Proof.
  intros H. unfold update_instance, Dict.getitem. run_op. now rewrite H.
Qed.

Lemma register_all_instances insts : forall m,
  NoDup (map id insts) ->
  (forall i, In i insts -> ~ In (id i) (Dict.keys (instances m))) ->
  instances (register_all insts m)
  = instances m ++ map (fun i => (id i, i)) insts
  /\ strategy (register_all insts m) = strategy m
  /\ current_index (register_all insts m) = current_index m.
Proof.
  induction insts as [|a rest IH]; intros m Hnd Hfresh; simpl.
  - now rewrite app_nil_r.
  - inversion Hnd as [|? ? Ha Hrest]; subst.
    destruct (IH (exec (add_instance a) m) Hrest) as (E1 & E2 & E3).
    + intros i Hi. run_op.
      rewrite dict_setitem_fresh by (apply Hfresh; now left).
      unfold Dict.keys. rewrite map_app, in_app_iff. simpl.
      intros [Hin|[Heq|[]]].
      * apply (Hfresh i); [now right | exact Hin].
      * apply Ha. rewrite Heq. now apply in_map.
    + rewrite E1, E2, E3. run_op.
      rewrite dict_setitem_fresh by (apply Hfresh; now left).
      now rewrite <- app_assoc.
Qed.

Lemma register_all_init_values insts s :
  NoDup (map id insts) ->
  Dict.values (instances (register_all insts (init s))) = insts.
Proof.
  intros Hnd.
  destruct (register_all_instances insts (init s) Hnd) as (E & _).
  - intros i _ [].
  - rewrite E. simpl. unfold Dict.values. rewrite map_map. simpl.
    now rewrite map_id.
Qed.

Lemma enabled_and_ready_filter l :
  enabled_and_ready l = filter (fun i => enabled i && is_ready i) l.
Proof.
  induction l as [|a rest IH]; simpl; [reflexivity|].
  now destruct (enabled a && is_ready a); rewrite IH.
Qed.

Lemma enabled_and_ready_all l :
  (forall i, In i l -> enabled i = true /\ is_ready i = true) ->
  enabled_and_ready l = l.
Proof.
  induction l as [|a rest IH]; simpl; intros H; [reflexivity|].
  destruct (H a (or_introl eq_refl)) as [-> ->]. simpl.
  rewrite IH; [reflexivity | intros i Hi; apply H; now right].
Qed.

(** C3.  [get_enabled_instances] returns the registered instances whose
    [enabled] and [is_ready] flags are both set, in the order of the
    registry, which is the order of registration; an instance with either
    flag cleared is never in the result; the active strategy plays no role. *)
Theorem candidates_are_enabled_and_ready :
  forall m : MultiInstanceManager,
    get_enabled_instances m
    = filter (fun i => enabled i && is_ready i) (Dict.values (instances m))
    /\ (forall inst,
          In inst (get_enabled_instances m) <->
          In inst (Dict.values (instances m))
          /\ enabled inst = true /\ is_ready inst = true)
    /\ (forall inst,
          enabled inst = false \/ is_ready inst = false ->
          ~ In inst (get_enabled_instances m))
    /\ (forall s,
          get_enabled_instances (exec (set_strategy s) m)
          = get_enabled_instances m)
    /\ (forall insts s,
          NoDup (map id insts) ->
          get_enabled_instances (register_all insts (init s))
          = filter (fun i => enabled i && is_ready i) insts).
Proof.
  intros m. unfold get_enabled_instances.
  assert (Hmem : forall inst,
    In inst (enabled_and_ready (Dict.values (instances m))) <->
    In inst (Dict.values (instances m))
    /\ enabled inst = true /\ is_ready inst = true).
  { intros inst. rewrite enabled_and_ready_filter, filter_In, andb_true_iff.
    tauto. }
  split; [apply enabled_and_ready_filter|].
  split; [exact Hmem|].
  split.
  - intros inst Hoff Hin. apply Hmem in Hin.
    destruct Hin as (_ & He & Hr), Hoff; congruence.
  - split.
    + intros s. reflexivity.
    + intros insts s Hnd. rewrite register_all_init_values by exact Hnd.
      apply enabled_and_ready_filter.
Qed.

Lemma mark_request_start_unknown m instance_id now :
  Dict.contains instance_id (instances m) = false ->
  mark_request_start now instance_id m = (Ok tt, m).
Proof. intros H. unfold mark_request_start. run_op. now rewrite H. Qed.

Lemma mark_request_error_unknown m instance_id :
  Dict.contains instance_id (instances m) = false ->
  mark_request_error instance_id m = (Ok tt, m).
Proof. intros H. unfold mark_request_error. run_op. now rewrite H. Qed.

Lemma enable_instance_unknown m instance_id b :
  Dict.contains instance_id (instances m) = false ->
  enable_instance instance_id b m = (Ok tt, m).
Proof. intros H. unfold enable_instance. run_op. now rewrite H. Qed.

(** C5.  [mark_request_start], [mark_request_error] and [enable_instance]
    on an id that is not registered return normally and leave the manager
    as it was: registry, counters, flags, strategy and cursor. *)
Theorem unknown_id_is_ignored :
  forall (m : MultiInstanceManager) (instance_id : string) (now : Z) (b : bool),
    ~ In instance_id (Dict.keys (instances m)) ->
    mark_request_start now instance_id m = (Ok tt, m)
    /\ mark_request_error instance_id m = (Ok tt, m)
    /\ enable_instance instance_id b m = (Ok tt, m).
Proof.
  intros m instance_id now b Hout.
  apply dict_contains_false_iff in Hout.
  split; [|split].
  - now apply mark_request_start_unknown.
  - now apply mark_request_error_unknown.
  - now apply enable_instance_unknown.
Qed.

Lemma mark_request_error_registered m instance_id inst :
  Dict.get instance_id (instances m) = Some inst ->
  mark_request_error instance_id m
  = (Ok tt,
     set_instances
       (Dict.setitem instance_id
          (set_error_count (error_count inst + 1) inst) (instances m)) m).
Proof.
  intros H. unfold mark_request_error.
  unfold bind at 1. unfold read at 1.
  rewrite (dict_contains_get _ _ _ H).
  exact (update_instance_registered m instance_id inst _ H).
Qed.

(** C7.  [n] calls of [mark_request_error] on a registered id add [n] to
    that instance's [error_count] and change nothing else: the instance
    stays registered at its place with every other field as before
    ([enabled], [is_ready], [request_count], [last_used] and the rest), and
    the other instances, the strategy and the cursor are untouched. *)
Theorem mark_request_error_only_counts :
  forall (n : nat) (m : MultiInstanceManager) (instance_id : string)
         (inst : BrowserInstance),
    Dict.get instance_id (instances m) = Some inst ->
    exists m' inst',
      times n (mark_request_error instance_id) m = (Ok tt, m')
      /\ Dict.get instance_id (instances m') = Some inst'
      /\ inst' = set_error_count (error_count inst + Z.of_nat n) inst
      /\ error_count inst' = (error_count inst + Z.of_nat n)%Z
      /\ enabled inst' = enabled inst
      /\ is_ready inst' = is_ready inst
      /\ request_count inst' = request_count inst
      /\ last_used inst' = last_used inst
      /\ Dict.keys (instances m') = Dict.keys (instances m)
      /\ (forall k, k <> instance_id ->
            Dict.get k (instances m') = Dict.get k (instances m))
      /\ strategy m' = strategy m
      /\ current_index m' = current_index m.
Proof.
  induction n as [|n IH]; intros m instance_id inst Hget.
  - exists m, inst. simpl. rewrite Z.add_0_r.
    destruct inst; unfold ret; simpl; rewrite ?Hget; repeat split; auto.
  - pose (bumped := set_error_count (error_count inst + 1) inst).
    pose (m1 := set_instances
                  (Dict.setitem instance_id bumped (instances m)) m).
    assert (Hget1 : Dict.get instance_id (instances m1) = Some bumped)
      by apply dict_get_setitem_same.
    destruct (IH m1 instance_id bumped Hget1)
      as (m' & inst' & Hrun & Hg & Hi & _ & _ & _ & _ & _ & Hk & Ho & Hs & Hc).
    exists m', inst'.
    assert (Hval : inst'
                   = set_error_count (error_count inst + Z.of_nat (S n)) inst).
    { rewrite Hi. unfold bumped, set_error_count. simpl. f_equal. lia. }
    split.
    { simpl. unfold bind at 1.
      rewrite (mark_request_error_registered _ _ _ Hget). exact Hrun. }
    split; [exact Hg|]. split; [exact Hval|].
    rewrite Hval. simpl.
    repeat split; auto.
    + rewrite Hk. simpl.
      apply dict_keys_setitem_present. eapply dict_get_in_keys; eauto.
    + intros k Hne. rewrite (Ho k Hne). simpl.
      now apply dict_get_setitem_other.
Qed.

(** ** Selection *)

Lemma py_mod_nonzero a b : b <> 0%Z -> mod_ a b = Ok (a mod b)%Z.
Proof.
  intros H. unfold mod_. destruct (Z.eqb_spec b 0); [contradiction | reflexivity].
Qed.

Lemma py_getitem_in_range {A} (l : list A) (i : Z) :
  (0 <= i < Z.of_nat (List.length l))%Z ->
  exists x, getitem l i = Ok x /\ nth_error l (Z.to_nat i) = Some x.
Proof.
  intros Hi. unfold getitem.
  destruct (Z.ltb_spec i 0); [lia|].
  destruct (Z.ltb_spec i 0); [lia|].
  destruct (Z.leb_spec (Z.of_nat (List.length l)) i); [lia|]. simpl.
  destruct (nth_error l (Z.to_nat i)) as [x|] eqn:E.
  - now exists x.
  - apply nth_error_None in E. lia.
Qed.

Lemma nonempty_length_pos {A} (l : list A) :
  l <> [] -> (0 < Z.of_nat (List.length l))%Z.
Proof. destruct l; [congruence | simpl; lia]. Qed.

Ltac open_select :=
  unfold get_next_instance, bind, read, write, lift, ret; cbv beta iota.

Lemma get_next_instance_empty draw m :
  get_enabled_instances m = [] -> get_next_instance draw m = (Ok None, m).
Proof. intros H. open_select. now rewrite H. Qed.

Lemma get_next_instance_round_robin draw m :
  get_enabled_instances m <> [] ->
  strategy m = ROUND_ROBIN ->
  let n := Z.of_nat (List.length (get_enabled_instances m)) in
  exists inst,
    get_next_instance draw m
    = (Ok (Some inst), set_current_index ((current_index m + 1) mod n) m)
    /\ nth_error (get_enabled_instances m)
         (Z.to_nat (current_index m mod n)) = Some inst.
Proof.
  intros Hne Hs n.
  assert (Hn : (0 < n)%Z) by now apply nonempty_length_pos.
  destruct (py_getitem_in_range (get_enabled_instances m)
              (current_index m mod n)) as (inst & Hget & Hnth).
  { apply Z.mod_pos_bound. exact Hn. }
  exists inst. split; [|exact Hnth].
  open_select.
  destruct (get_enabled_instances m) as [|c cs] eqn:E; [congruence|].
  cbv beta iota delta [is_empty]. rewrite Hs. fold n.
  rewrite !py_mod_nonzero by lia. cbv beta iota.
  rewrite Hget. reflexivity.
Qed.

Lemma get_next_instance_random draw m :
  get_enabled_instances m <> [] ->
  strategy m = RANDOM ->
  exists inst,
    get_next_instance draw m = (Ok (Some inst), m)
    /\ nth_error (get_enabled_instances m)
         (draw mod List.length (get_enabled_instances m)) = Some inst.
Proof.
  intros Hne Hs.
  destruct (py_getitem_in_range (get_enabled_instances m)
              (Z.of_nat (draw mod List.length (get_enabled_instances m))))
    as (inst & Hget & Hnth).
  { split; [lia|]. apply Nat2Z.inj_lt, Nat.mod_upper_bound.
    destruct (get_enabled_instances m); [congruence | discriminate]. }
  rewrite Nat2Z.id in Hnth.
  exists inst. split; [|exact Hnth].
  open_select.
  destruct (get_enabled_instances m) as [|c cs] eqn:E; [congruence|].
  cbv beta iota delta [is_empty choice]. rewrite Hs.
  rewrite Hget. reflexivity.
Qed.

Lemma get_next_instance_least_connections draw m c cs :
  get_enabled_instances m = c :: cs ->
  strategy m = LEAST_CONNECTIONS ->
  get_next_instance draw m = (Ok (Some (min_loop request_count c cs)), m).
Proof.
  intros E Hs. open_select. rewrite E.
  cbv beta iota delta [is_empty min_by]. now rewrite Hs.
Qed.

(** The first minimum: after the loop has run over [rest], the running
    minimum stands at a place of the whole list where everything before it
    is strictly larger and everything after it is at least as large. *)
Lemma min_loop_first_minimum {A} (key : A -> Z) :
  forall (rest pre mid : list A) (best : A),
    (forall y, In y pre -> (key best < key y)%Z) ->
    (forall y, In y mid -> (key best <= key y)%Z) ->
    exists pre' post,
      pre ++ best :: mid ++ rest = pre' ++ min_loop key best rest :: post
      /\ (forall y, In y pre' -> (key (min_loop key best rest) < key y)%Z)
      /\ (forall y, In y post -> (key (min_loop key best rest) <= key y)%Z).
Proof.
  induction rest as [|x rest IH]; intros pre mid best Hpre Hmid; simpl.
  - exists pre, mid. rewrite app_nil_r. auto.
  - destruct (Z.ltb_spec (key x) (key best)) as [Hlt|Hge].
    + destruct (IH (pre ++ best :: mid) [] x) as (pre' & post & E & H1 & H2).
      * intros y Hy. apply in_app_iff in Hy.
        destruct Hy as [Hy|[<-|Hy]];
          [specialize (Hpre y Hy) | | specialize (Hmid y Hy)]; lia.
      * intros y [].
      * exists pre', post. split; [|auto].
        rewrite <- E. simpl. rewrite <- app_assoc. reflexivity.
    + destruct (IH pre (mid ++ [x]) best) as (pre' & post & E & H1 & H2).
      * exact Hpre.
      * intros y Hy. apply in_app_iff in Hy.
        destruct Hy as [Hy|[<-|[]]]; [now apply Hmid | lia].
      * exists pre', post. split; [|auto].
        rewrite <- E, <- app_assoc. reflexivity.
Qed.

Lemma min_loop_in {A} (key : A -> Z) (c : A) (cs : list A) :
  In (min_loop key c cs) (c :: cs).
Proof.
  destruct (min_loop_first_minimum key cs [] [] c) as (pre & post & E & _);
    try (intros ? []).
  simpl in E. rewrite E. apply in_elt.
Qed.

(** Every call of [get_next_instance] ends in one of two ways. *)
Lemma get_next_instance_cases draw m :
  (get_enabled_instances m = [] /\ get_next_instance draw m = (Ok None, m))
  \/ (get_enabled_instances m <> [] /\
      exists inst m',
        get_next_instance draw m = (Ok (Some inst), m')
        /\ In inst (get_enabled_instances m)
        /\ instances m' = instances m
        /\ strategy m' = strategy m).
Proof.
  destruct (get_enabled_instances m) as [|c cs] eqn:E.
  - left. split; [reflexivity | now apply get_next_instance_empty].
  - right. split; [discriminate|].
    assert (Hne : get_enabled_instances m <> []) by (rewrite E; discriminate).
    destruct (strategy m) eqn:Hs.
    + destruct (get_next_instance_round_robin draw m Hne Hs)
        as (inst & Hrun & Hnth).
      rewrite E in Hnth. apply nth_error_In in Hnth. eauto 7.
    + destruct (get_next_instance_random draw m Hne Hs)
        as (inst & Hrun & Hnth).
      rewrite E in Hnth. apply nth_error_In in Hnth. eauto 7.
    + exists (min_loop request_count c cs), m. split.
      * now apply get_next_instance_least_connections.
      * split; [apply min_loop_in | auto].
Qed.

(** C4.  Under every strategy [get_next_instance] returns [None] exactly
    when there is no candidate; with a candidate it returns one of them; in
    neither case does it raise. *)
Theorem no_candidate_iff_none :
  forall (draw : nat) (m : MultiInstanceManager),
    (result (get_next_instance draw) m = Ok None
     <-> get_enabled_instances m = [])
    /\ (get_enabled_instances m <> [] ->
        exists inst,
          result (get_next_instance draw) m = Ok (Some inst)
          /\ In inst (get_enabled_instances m))
    /\ raises (result (get_next_instance draw) m) = false.
Proof.
  intros draw m. unfold result.
  destruct (get_next_instance_cases draw m)
    as [[He Hrun]|[Hne (inst & m' & Hrun & Hin & _)]]; rewrite Hrun; simpl.
  - repeat split; auto. intros H. contradiction.
  - repeat split; auto.
    + discriminate.
    + intros H. contradiction.
    + intros _. eauto.
Qed.

(** C10.  Round robin, any cursor (negative, or past the end of the list
    after candidates went away) and any non-empty candidate list: the call
    returns the candidate at index [cursor mod length] without raising, and
    the cursor it stores lies in [0, length). *)
Theorem round_robin_index_in_bounds :
  forall (draw : nat) (m : MultiInstanceManager),
    strategy m = ROUND_ROBIN ->
    get_enabled_instances m <> [] ->
    let n := Z.of_nat (List.length (get_enabled_instances m)) in
    exists inst m',
      get_next_instance draw m = (Ok (Some inst), m')
      /\ nth_error (get_enabled_instances m)
           (Z.to_nat (current_index m mod n)) = Some inst
      /\ In inst (get_enabled_instances m)
      /\ current_index m' = ((current_index m + 1) mod n)%Z
      /\ (0 <= current_index m' < n)%Z
      /\ instances m' = instances m
      /\ strategy m' = strategy m.
Proof.
  intros draw m Hs Hne n.
  destruct (get_next_instance_round_robin draw m Hne Hs) as (inst & Hrun & Hnth).
  fold n in Hrun, Hnth.
  exists inst, (set_current_index ((current_index m + 1) mod n) m).
  repeat split; auto.
  - eapply nth_error_In; eauto.
  - simpl. apply Z.mod_pos_bound. now apply nonempty_length_pos.
  - simpl. apply Z.mod_pos_bound. now apply nonempty_length_pos.
Qed.

Lemma select_many_constant inst m :
  (forall draw, get_next_instance draw m = (Ok (Some inst), m)) ->
  forall draws,
    select_many draws m = (map (fun _ => Ok (Some inst)) draws, m).
Proof.
  intros H. induction draws as [|d rest IH]; simpl; [reflexivity|].
  now rewrite H, IH.
Qed.

(** C2.  Least connections on a non-empty candidate list returns the
    candidate at the first place [k] of the list where [request_count] is
    minimal: no candidate has a smaller count and every candidate before
    place [k] has a strictly larger one.  The call changes nothing, so any
    run of calls with no [mark_request_start] in between returns that
    instance every time. *)
Theorem least_connections_first_minimum :
  forall m : MultiInstanceManager,
    strategy m = LEAST_CONNECTIONS ->
    get_enabled_instances m <> [] ->
    exists inst k,
      (forall draw, get_next_instance draw m = (Ok (Some inst), m))
      /\ nth_error (get_enabled_instances m) k = Some inst
      /\ (forall x, In x (get_enabled_instances m) ->
            (request_count inst <= request_count x)%Z)
      /\ (forall j y, j < k ->
            nth_error (get_enabled_instances m) j = Some y ->
            (request_count inst < request_count y)%Z)
      /\ (forall draws,
            select_many draws m
            = (map (fun _ => Ok (Some inst)) draws, m)).
Proof.
  intros m Hs Hne.
  destruct (get_enabled_instances m) as [|c cs] eqn:E; [congruence|].
  destruct (min_loop_first_minimum request_count cs [] [] c)
    as (pre & post & Hsplit & Hpre & Hpost); try (intros ? []).
  simpl in Hsplit.
  set (inst := min_loop request_count c cs) in *.
  assert (Hrun : forall draw, get_next_instance draw m = (Ok (Some inst), m))
    by (intros draw; now apply get_next_instance_least_connections).
  exists inst, (List.length pre). rewrite Hsplit.
  split; [exact Hrun|]. split.
  { rewrite nth_error_app2, Nat.sub_diag by lia. reflexivity. }
  split.
  { intros x Hx. apply in_app_iff in Hx.
    destruct Hx as [Hx|[<-|Hx]];
      [specialize (Hpre x Hx) | | specialize (Hpost x Hx)]; lia. }
  split.
  { intros j y Hj Hy. rewrite nth_error_app1 in Hy by exact Hj.
    apply Hpre. eapply nth_error_In; eauto. }
  now apply select_many_constant.
Qed.

(** *** Round robin over a constant candidate list *)

Lemma skipn_nth_error_cons {A} (l : list A) : forall (c : nat) (x : A),
  nth_error l c = Some x -> skipn c l = x :: skipn (S c) l.
Proof.
  induction l as [|a l IH]; intros [|c] x H; simpl in *;
    try discriminate.
  - now inversion H.
  - now apply IH.
Qed.

Lemma select_many_app draws1 : forall draws2 m,
  select_many (draws1 ++ draws2) m
  = (fst (select_many draws1 m)
       ++ fst (select_many draws2 (snd (select_many draws1 m))),
     snd (select_many draws2 (snd (select_many draws1 m)))).
Proof.
  induction draws1 as [|d rest IH]; intros draws2 m; simpl.
  - now destruct (select_many draws2 m).
  - destruct (get_next_instance d m) as [r m1].
    rewrite IH.
    destruct (select_many rest m1) as [rs m2]. simpl.
    reflexivity.
Qed.

(** Part of a lap: from cursor [c], as many calls as fit before the end of
    the list return the candidates from place [c] on, and the cursor ends
    at [c] plus the number of calls, wrapped. *)
Lemma round_robin_partial_lap draws : forall (c : nat) (m : MultiInstanceManager),
  strategy m = ROUND_ROBIN ->
  current_index m = Z.of_nat c ->
  c < List.length (get_enabled_instances m) ->
  c + List.length draws <= List.length (get_enabled_instances m) ->
  select_many draws m
  = (map (fun i => Ok (Some i))
       (firstn (List.length draws) (skipn c (get_enabled_instances m))),
     set_current_index
       (Z.of_nat ((c + List.length draws)
                  mod List.length (get_enabled_instances m))) m).
Proof.
  induction draws as [|d rest IH]; intros c m Hs Hc Hlt Hfit; simpl.
  - rewrite Nat.add_0_r, Nat.mod_small by exact Hlt.
    rewrite <- Hc. now destruct m.
  - simpl in Hfit.
    assert (Hne : get_enabled_instances m <> [])
      by (destruct (get_enabled_instances m); simpl in *; [lia|discriminate]).
    destruct (get_next_instance_round_robin d m Hne Hs) as (inst & Hrun & Hnth).
    set (n := List.length (get_enabled_instances m)) in *.
    rewrite Hc in Hrun, Hnth.
    rewrite <- Nat2Z.inj_mod, Nat2Z.id, Nat.mod_small in Hnth by exact Hlt.
    replace (Z.of_nat c + 1)%Z with (Z.of_nat (S c)) in Hrun by lia.
    rewrite <- Nat2Z.inj_mod in Hrun.
    rewrite Hrun, (skipn_nth_error_cons _ _ _ Hnth). simpl.
    destruct (Nat.eq_dec (S c) n) as [Hend|Hmore].
    + assert (Hrest : rest = []) by (destruct rest; simpl in *; [auto|lia]).
      subst rest. simpl.
      replace (c + 1) with (S c) by lia. reflexivity.
    + set (m1 := set_current_index (Z.of_nat (S c mod n)) m).
      assert (Hcands : get_enabled_instances m1 = get_enabled_instances m)
        by reflexivity.
      rewrite (IH (S c) m1); rewrite ?Hcands; fold n.
      * replace (S c + List.length rest) with (c + S (List.length rest)) by lia.
        reflexivity.
      * exact Hs.
      * unfold m1. simpl. rewrite Nat.mod_small by lia. reflexivity.
      * lia.
      * lia.
Qed.

(** A whole lap from cursor 0 returns the candidate list and puts the
    manager back where it was. *)
Lemma round_robin_lap draws m :
  strategy m = ROUND_ROBIN ->
  current_index m = 0%Z ->
  get_enabled_instances m <> [] ->
  List.length draws = List.length (get_enabled_instances m) ->
  select_many draws m
  = (map (fun i => Ok (Some i)) (get_enabled_instances m), m).
Proof.
  intros Hs Hc Hne Hlen.
  assert (Hpos : 0 < List.length (get_enabled_instances m))
    by (destruct (get_enabled_instances m); simpl; [congruence|lia]).
  rewrite (round_robin_partial_lap draws 0 m Hs Hc Hpos) by (simpl; lia).
  simpl. rewrite Hlen, firstn_all, Nat.Div0.mod_same.
  change (Z.of_nat 0) with 0%Z. rewrite <- Hc. now destruct m.
Qed.

Lemma round_robin_laps (k : nat) : forall draws m,
  strategy m = ROUND_ROBIN ->
  current_index m = 0%Z ->
  get_enabled_instances m <> [] ->
  List.length draws = k * List.length (get_enabled_instances m) ->
  select_many draws m
  = (map (fun i => Ok (Some i))
       (List.concat (repeat (get_enabled_instances m) k)), m).
Proof.
  induction k as [|k IH]; intros draws m Hs Hc Hne Hlen; simpl in *.
  - apply length_zero_iff_nil in Hlen. now subst.
  - set (n := List.length (get_enabled_instances m)) in *.
    rewrite <- (firstn_skipn n draws).
    rewrite select_many_app.
    rewrite (round_robin_lap (firstn n draws) m Hs Hc Hne)
      by (rewrite length_firstn; fold n; lia).
    simpl.
    rewrite (IH (skipn n draws) m Hs Hc Hne)
      by (rewrite length_skipn; fold n; lia).
    simpl. now rewrite map_app.
Qed.

(** C1.  Round robin over [N >= 1] enabled and ready instances registered
    in the order [inst0 .. inst(N-1)] into a fresh manager (cursor 0), with
    nothing but selections afterwards: [k * N] consecutive calls return
    [inst0 .. inst(N-1)] repeated [k] times. *)
Theorem round_robin_cycles :
  forall (insts : list BrowserInstance) (k : nat) (draws : list nat),
    insts <> [] ->
    NoDup (map id insts) ->
    (forall i, In i insts -> enabled i = true /\ is_ready i = true) ->
    List.length draws = k * List.length insts ->
    fst (select_many draws (register_all insts (init ROUND_ROBIN)))
    = map (fun i => Ok (Some i)) (List.concat (repeat insts k)).
Proof.
  intros insts k draws Hne Hnd Hall Hlen.
  set (m := register_all insts (init ROUND_ROBIN)).
  destruct (register_all_instances insts (init ROUND_ROBIN) Hnd)
    as (_ & Hs & Hc); [intros i _ []|].
  assert (Hcands : get_enabled_instances m = insts).
  { unfold get_enabled_instances, m.
    rewrite register_all_init_values by exact Hnd.
    now apply enabled_and_ready_all. }
  rewrite (round_robin_laps k draws m); rewrite ?Hcands; auto.
Qed.

(** ** Statistics *)

Lemma rfind_loop_last (c : ascii) : forall (s : string) (pos last : Z),
  (~ In c (chars s) /\ rfind_loop c s pos last = last)
  \/ (exists pre post,
        s = (pre ++ String c post)%string
        /\ ~ In c (chars post)
        /\ rfind_loop c s pos last = (pos + Z.of_nat (String.length pre))%Z).
Proof.
  induction s as [|a rest IH]; intros pos last; simpl.
  - left. tauto.
  - set (last' := if Ascii.eqb a c then pos else last).
    destruct (IH (pos + 1)%Z last')
      as [[Hno Hr]|(pre & post & E & Hno & Hr)]; rewrite Hr.
    + unfold last'. destruct (Ascii.eqb_spec a c) as [->|Hac].
      * right. exists EmptyString, rest. simpl.
        rewrite Z.add_0_r. auto.
      * left. split; [|reflexivity]. intros [H|H]; [congruence | tauto].
    + right. exists (String a pre), post. simpl.
      rewrite E. repeat split; auto. lia.
Qed.

Lemma slice_from_after (pre : string) : forall (c : ascii) (post : string),
  slice_from (S (String.length pre)) (pre ++ String c post) = post.
Proof.
  induction pre as [|a pre IH]; intros c post; simpl.
  - reflexivity.
  - apply IH.
Qed.

(** [basename p] is what follows the last ['/'] of [p]: [p] is a directory
    part, empty or ending in ['/'], followed by [basename p], and
    [basename p] has no ['/'] in it. *)
Lemma basename_strips_directory (p : string) :
  exists dir,
    p = (dir ++ basename p)%string
    /\ (dir = EmptyString \/ exists d, dir = (d ++ "/")%string)
    /\ ~ In "/"%char (chars (basename p)).
Proof.
  unfold basename, rfind.
  destruct (rfind_loop_last "/"%char p 0 (-1))
    as [[Hno Hr]|(pre & post & E & Hno & Hr)]; rewrite Hr.
  - exists EmptyString. simpl. auto.
  - exists (pre ++ "/")%string.
    replace (Z.to_nat (0 + Z.of_nat (String.length pre) + 1))
      with (S (String.length pre)) by lia.
    subst p. rewrite slice_from_after.
    split; [|split; [right; now exists pre | exact Hno]].
    clear. induction pre as [|a pre IH]; simpl; [reflexivity|].
    now rewrite <- IH.
Qed.

Lemma stats_fold (d : Dict.t BrowserInstance) : forall acc : Dict.t (Dict.t Value),
  NoDup (Dict.keys d) ->
  (forall k, In k (Dict.keys d) -> ~ In k (Dict.keys acc)) ->
  fold_left (fun acc kv => Dict.setitem (fst kv) (stats_entry (snd kv)) acc) d acc
  = acc ++ map (fun kv => (fst kv, stats_entry (snd kv))) d.
Proof.
  induction d as [|[k inst] rest IH]; intros acc Hnd Hfresh; simpl.
  - now rewrite app_nil_r.
  - simpl in Hnd. inversion Hnd as [|? ? Hk Hrest]; subst.
    rewrite dict_setitem_fresh by (apply Hfresh; now left).
    rewrite IH.
    + now rewrite <- app_assoc.
    + exact Hrest.
    + intros k' Hk'. unfold Dict.keys. rewrite map_app, in_app_iff. simpl.
      intros [Hin|[Heq|[]]].
      * apply (Hfresh k'); [now right | exact Hin].
      * apply Hk. now rewrite Heq.
Qed.

Lemma get_stats_entries m :
  Dict.wf (instances m) ->
  get_stats m = map (fun kv => (fst kv, stats_entry (snd kv))) (instances m).
Proof.
  intros Hwf. unfold get_stats, Dict.items, Dict.empty.
  rewrite stats_fold; auto.
Qed.

Lemma dict_get_map_values {V W} (f : V -> W) (k : string) (d : Dict.t V) :
  Dict.get k (map (fun kv => (fst kv, f (snd kv))) d)
  = option_map f (Dict.get k d).
Proof.
  induction d as [|[k' v'] rest IH]; simpl; [reflexivity|].
  now destruct (String.eqb k k').
Qed.

(** C6.  [get_stats] has one entry per registered instance, under the
    instance's key and in registry order, whatever its flags.  The entry
    holds exactly the keys [id], [auth_file], [is_ready], [enabled],
    [request_count], [error_count] and [port] with the instance's values,
    except that [auth_file] is cut down to its base name: the part of the
    path after its last ['/'], with no ['/'] left in it, hence never a path
    with a directory in it.  No value of the
    entry is an object reference, so neither the browser nor the page
    handle is in it. *)
Theorem stats_one_masked_entry_per_instance :
  forall m : MultiInstanceManager,
    Dict.wf (instances m) ->
    Dict.keys (get_stats m) = Dict.keys (instances m)
    /\ Dict.len (get_stats m) = Dict.len (instances m)
    /\ (forall k inst,
          Dict.get k (instances m) = Some inst ->
          exists entry,
            Dict.get k (get_stats m) = Some entry
            /\ Dict.keys entry
               = ["id"; "auth_file"; "is_ready"; "enabled";
                  "request_count"; "error_count"; "port"]%string
            /\ Dict.get "id" entry = Some (VStr (id inst))
            /\ Dict.get "auth_file" entry
               = Some (VStr (basename (auth_file inst)))
            /\ (exists dir,
                  auth_file inst = (dir ++ basename (auth_file inst))%string
                  /\ (dir = EmptyString \/ exists d, dir = (d ++ "/")%string))
            /\ ~ In "/"%char (chars (basename (auth_file inst)))
            /\ (In "/"%char (chars (auth_file inst)) ->
                basename (auth_file inst) <> auth_file inst)
            /\ Dict.get "is_ready" entry = Some (VBool (is_ready inst))
            /\ Dict.get "enabled" entry = Some (VBool (enabled inst))
            /\ Dict.get "request_count" entry
               = Some (VInt (request_count inst))
            /\ Dict.get "error_count" entry = Some (VInt (error_count inst))
            /\ Dict.get "port" entry = Some (VInt (port inst))
            /\ forallb (fun kv => negb (is_object (snd kv))) entry = true).
Proof.
  intros m Hwf. rewrite (get_stats_entries m Hwf).
  split; [|split].
  - unfold Dict.keys. rewrite map_map. reflexivity.
  - unfold Dict.len. apply length_map.
  - intros k inst Hget. exists (stats_entry inst).
    rewrite dict_get_map_values, Hget.
    destruct (basename_strips_directory (auth_file inst)) as (dir & E & Hd & Hno).
    repeat split; auto.
    + exists dir. auto.
    + intros Hin Heq. rewrite Heq in Hno. contradiction.
Qed.

(** ** The request context builder *)

Lemma dict_get_of_item {V} (k : string) (v : V) (d : Dict.t V) :
  Dict.wf d -> In (k, v) d -> Dict.get k d = Some v.
Proof.
  unfold Dict.wf. induction d as [|[k' v'] rest IH]; simpl; intros Hnd Hin.
  - contradiction.
  - inversion Hnd as [|? ? Hk Hrest]; subst.
    destruct Hin as [Heq|Hin].
    + inversion Heq; subst. now rewrite String.eqb_refl.
    + destruct (String.eqb_spec k k') as [->|Hne].
      * elim Hk. change k' with (fst (k', v)). now apply in_map.
      * now apply IH.
Qed.

Lemma candidate_is_registered m inst :
  well_formed m ->
  In inst (get_enabled_instances m) ->
  Dict.get (id inst) (instances m) = Some inst.
Proof.
  intros [Hwf Hkeys] Hin.
  unfold get_enabled_instances in Hin.
  rewrite enabled_and_ready_filter in Hin. apply filter_In in Hin.
  destruct Hin as [Hin _]. unfold Dict.values in Hin.
  apply in_map_iff in Hin. destruct Hin as ([k v] & Hv & Hin).
  simpl in Hv. subst v.
  rewrite Forall_forall in Hkeys. specialize (Hkeys _ Hin). simpl in Hkeys.
  subst k. now apply dict_get_of_item.
Qed.

Lemma mark_request_start_registered m instance_id inst now :
  Dict.get instance_id (instances m) = Some inst ->
  mark_request_start now instance_id m
  = (Ok tt,
     set_instances
       (Dict.setitem instance_id
          (set_last_used now
             (set_request_count (request_count inst + 1) inst))
          (instances m)) m).
Proof.
  intros H. unfold mark_request_start.
  unfold bind at 1. unfold read at 1.
  rewrite (dict_contains_get _ _ _ H).
  unfold bind.
  rewrite (update_instance_registered m instance_id inst _ H).
  erewrite update_instance_registered by (simpl; apply dict_get_setitem_same).
  simpl. now rewrite dict_setitem_twice.
Qed.

Lemma mark_request_start_returns now instance_id m :
  exists m', mark_request_start now instance_id m = (Ok tt, m').
Proof.
  destruct (Dict.get instance_id (instances m)) as [inst|] eqn:E.
  - eexists. exact (mark_request_start_registered m instance_id inst now E).
  - exists m. apply mark_request_start_unknown.
    unfold Dict.contains. now rewrite E.
Qed.

Import ContextInit.

(** C8.  [initialize_request_context] always returns a context.  When the
    facade hands back an instance whose [page] is set, the context carries
    that page and that instance's [is_ready], and the manager is the one
    left by [mark_request_start] on the instance (in a registry filled
    through [add_instance]: the instance's [request_count] is one higher
    and its [last_used] is the current clock reading).  When the facade
    hands back nothing, or an instance without a page, the context carries
    the page and readiness flag of the server state and the manager is the
    one the selection left, with no [mark_request_start]. *)
Theorem request_context_instance_or_default :
  forall (state : ServerState) (now : Z) (draw : nat)
         (request : ChatCompletionRequest) (m : MultiInstanceManager),
    exists instance m1 ctx m',
      LoadBalancer.get_instance draw m = (Ok instance, m1)
      /\ initialize_request_context state now draw request m = (Ok ctx, m')
      /\ match instance with
         | Some inst =>
             match page inst with
             | Some p =>
                 ctx_page ctx = Some p
                 /\ ctx_is_page_ready ctx = is_ready inst
                 /\ LoadBalancer.mark_request_start now inst m1 = (Ok tt, m')
                 /\ (well_formed m ->
                     Dict.get (id inst) (instances m')
                     = Some (set_last_used now
                               (set_request_count (request_count inst + 1)
                                  inst)))
             | None =>
                 ctx_page ctx = page_instance state
                 /\ ctx_is_page_ready ctx = is_page_ready state
                 /\ m' = m1
             end
         | None =>
             ctx_page ctx = page_instance state
             /\ ctx_is_page_ready ctx = is_page_ready state
             /\ m' = m1
         end.
Proof.
  intros state now draw request m.
  destruct (get_next_instance_cases draw m)
    as [[He Hrun]|[Hne (inst & m1 & Hrun & Hin & Hreg & _)]].
  - assert (Hgi : LoadBalancer.get_instance draw m = (Ok None, m))
      by (unfold LoadBalancer.get_instance, bind, ret; now rewrite Hrun).
    exists None, m. eexists. exists m.
    split; [exact Hgi|].
    unfold initialize_request_context. unfold bind at 1. rewrite Hgi.
    split; [reflexivity|]. simpl. auto.
  - assert (Hgi : LoadBalancer.get_instance draw m = (Ok (Some inst), m1))
      by (unfold LoadBalancer.get_instance, bind, ret; now rewrite Hrun).
    exists (Some inst), m1.
    unfold initialize_request_context. unfold bind at 1. rewrite Hgi.
    unfold usable_page.
    destruct (page inst) as [p|] eqn:Hp.
    + destruct (mark_request_start_returns now (id inst) m1) as (m' & Hmark).
      eexists. exists m'.
      split; [reflexivity|].
      unfold LoadBalancer.mark_request_start, bind, ret. rewrite Hmark.
      split; [reflexivity|]. simpl.
      repeat split; auto.
      intros Hwf.
      pose proof (candidate_is_registered m inst Hwf Hin) as Hget.
      rewrite <- Hreg in Hget.
      rewrite (mark_request_start_registered m1 (id inst) inst now Hget)
        in Hmark.
      inversion Hmark; subst m'. simpl. apply dict_get_setitem_same.
    + eexists. exists m1.
      split; [reflexivity|].
      unfold bind, ret.
      split; [reflexivity|]. simpl. auto.
Qed.

(** ** The properties on the pools of the test suite *)

Ltac distinct_keys :=
  repeat constructor; simpl; intuition discriminate.

Lemma round_robin_cycles_witness :
  fst (select_many [0; 0; 0; 0; 0; 0] Examples.round_robin_pool)
  = map (fun i => Ok (Some i)) (List.concat (repeat Examples.three 2)).
Proof.
  apply (round_robin_cycles Examples.three 2 [0; 0; 0; 0; 0; 0]).
  - discriminate.
  - distinct_keys.
  - intros i [<-|[<-|[<-|[]]]]; split; reflexivity.
  - reflexivity.
Defined.

Lemma least_connections_first_minimum_witness :
  exists inst k,
    (forall draw,
       get_next_instance draw Examples.least_connections_pool
       = (Ok (Some inst), Examples.least_connections_pool))
    /\ nth_error (get_enabled_instances Examples.least_connections_pool) k
       = Some inst
    /\ (forall x, In x (get_enabled_instances Examples.least_connections_pool) ->
          (request_count inst <= request_count x)%Z)
    /\ (forall j y, j < k ->
          nth_error (get_enabled_instances Examples.least_connections_pool) j
          = Some y ->
          (request_count inst < request_count y)%Z)
    /\ (forall draws,
          select_many draws Examples.least_connections_pool
          = (map (fun _ => Ok (Some inst)) draws,
             Examples.least_connections_pool)).
Proof.
  apply (least_connections_first_minimum Examples.least_connections_pool).
  - reflexivity.
  - vm_compute. discriminate.
Defined.

Lemma candidates_are_enabled_and_ready_witness :
  get_enabled_instances
    (register_all Examples.one_disabled (init ROUND_ROBIN))
  = filter (fun i => enabled i && is_ready i) Examples.one_disabled.
Proof.
  destruct (candidates_are_enabled_and_ready (init ROUND_ROBIN))
    as (_ & _ & _ & _ & Hreg).
  apply Hreg. distinct_keys.
Defined.

Lemma no_candidate_iff_none_witness :
  result (get_next_instance 0) (init RANDOM) = Ok None
  /\ exists inst,
       result (get_next_instance 4) Examples.least_connections_pool
       = Ok (Some inst)
       /\ In inst (get_enabled_instances Examples.least_connections_pool).
Proof.
  split.
  - destruct (no_candidate_iff_none 0 (init RANDOM)) as ([_ Hnone] & _).
    apply Hnone. reflexivity.
  - destruct (no_candidate_iff_none 4 Examples.least_connections_pool)
      as (_ & Hsome & _).
    apply Hsome. vm_compute. discriminate.
Defined.

Lemma unknown_id_is_ignored_witness :
  mark_request_start 5 "instance_9" Examples.round_robin_pool
  = (Ok tt, Examples.round_robin_pool)
  /\ mark_request_error "instance_9" Examples.round_robin_pool
     = (Ok tt, Examples.round_robin_pool)
  /\ enable_instance "instance_9" false Examples.round_robin_pool
     = (Ok tt, Examples.round_robin_pool).
Proof.
  apply (unknown_id_is_ignored Examples.round_robin_pool "instance_9" 5 false).
  simpl. intuition discriminate.
Defined.

Lemma stats_one_masked_entry_per_instance_witness :
  Dict.wf (instances Examples.profile_pool)
  /\ Dict.get "instance_0" (get_stats Examples.profile_pool)
     = Some (stats_entry Examples.profile_instance)
  /\ Dict.get "auth_file" (stats_entry Examples.profile_instance)
     = Some (VStr "account.json").
Proof.
  assert (Hwf : Dict.wf (instances Examples.profile_pool)) by distinct_keys.
  split; [exact Hwf|].
  destruct (stats_one_masked_entry_per_instance Examples.profile_pool Hwf)
    as (_ & _ & Hentry).
  destruct (Hentry "instance_0"%string Examples.profile_instance eq_refl)
    as (entry & Hget & _).
  split; [|reflexivity].
  rewrite Hget. f_equal.
  vm_compute in Hget. now inversion Hget.
Defined.

Lemma mark_request_error_only_counts_witness :
  exists m' inst',
    times 3 (mark_request_error "instance_1") Examples.round_robin_pool
    = (Ok tt, m')
    /\ Dict.get "instance_1" (instances m') = Some inst'
    /\ error_count inst' = 3%Z
    /\ enabled inst' = true
    /\ Dict.keys (instances m')
       = ["instance_0"; "instance_1"; "instance_2"]%string.
Proof.
  destruct (mark_request_error_only_counts 3 Examples.round_robin_pool
              "instance_1" Examples.instance_1 eq_refl)
    as (m' & inst' & Hrun & Hget & _ & Herr & Hen & _ & _ & _ & Hkeys & _).
  exists m', inst'. repeat split; assumption.
Defined.

Lemma request_context_instance_or_default_witness :
  well_formed Examples.round_robin_pool
  /\ exists ctx m',
       initialize_request_context Examples.server_state 42 0
         Examples.chat_request Examples.round_robin_pool = (Ok ctx, m')
       /\ ctx_page ctx = Some Examples.mock_page
       /\ ctx_is_page_ready ctx = true
       /\ Dict.get "instance_0" (instances m')
          = Some (set_last_used 42 (set_request_count 1 Examples.instance_0)).
Proof.
  assert (Hwf : well_formed Examples.round_robin_pool).
  { split; [distinct_keys | repeat constructor]. }
  split; [exact Hwf|].
  destruct (request_context_instance_or_default Examples.server_state 42 0
              Examples.chat_request Examples.round_robin_pool)
    as (instance & m1 & ctx & m' & Hgi & Hrun & Hcase).
  vm_compute in Hgi. inversion Hgi; subst instance m1; clear Hgi.
  simpl in Hcase. destruct Hcase as (Hpage & Hready & _ & Hget).
  exists ctx, m'. repeat split; auto.
Defined.

Lemma round_robin_index_in_bounds_witness :
  exists inst m',
    get_next_instance 0 (set_current_index 7 Examples.round_robin_pool)
    = (Ok (Some inst), m')
    /\ inst = Examples.instance_1
    /\ current_index m' = 2%Z.
Proof.
  destruct (round_robin_index_in_bounds 0
              (set_current_index 7 Examples.round_robin_pool) eq_refl)
    as (inst & m' & Hrun & Hnth & _ & Hcur & _).
  - vm_compute. discriminate.
  - exists inst, m'. split; [exact Hrun|].
    vm_compute in Hnth. inversion Hnth. split; [reflexivity|].
    rewrite Hcur. reflexivity.
Defined.

(** ** Interleaved selection *)

Import Concurrent.

Lemma set_nth_same {A} (x : A) (l : list A) : forall i y,
  nth_error l i = Some y -> nth_error (set_nth i x l) i = Some x.
Proof.
  induction l as [|a l IH]; intros [|i] y H; simpl in *; try discriminate.
  - reflexivity.
  - eapply IH; eauto.
Qed.

Lemma set_nth_other {A} (x : A) (l : list A) : forall i j,
  i <> j -> nth_error (set_nth i x l) j = nth_error l j.
Proof.
  induction l as [|a l IH]; intros [|i] [|j] H; simpl; try reflexivity.
  - congruence.
  - apply IH. congruence.
Qed.

Lemma set_nth_known {A} (x : A) (l : list A) (i j : nat) :
  (exists y, nth_error l j = Some y) ->
  exists y, nth_error (set_nth i x l) j = Some y.
Proof.
  intros [y H]. destruct (Nat.eq_dec i j) as [->|Hne].
  - exists x. eapply set_nth_same; eauto.
  - exists y. now rewrite set_nth_other.
Qed.

Lemma set_nth_map {A B} (f : A -> B) (x : A) (l : list A) : forall i y,
  nth_error l i = Some y -> f x = f y ->
  map f (set_nth i x l) = map f l.
Proof.
  induction l as [|a l IH]; intros [|i] y H E; simpl in *; try discriminate.
  - inversion H; subst. now rewrite E.
  - f_equal. eapply IH; eauto.
Qed.

Lemma select_many_length draws : forall m,
  List.length (fst (select_many draws m)) = List.length draws.
Proof.
  induction draws as [|d rest IH]; intros m; simpl; [reflexivity|].
  destruct (get_next_instance d m) as [r m1].
  specialize (IH m1). destruct (select_many rest m1) as [rs m2].
  simpl in *. now rewrite IH.
Qed.

Lemma finish_at_exit d r m : finish d (AtExit r) m = (AtExit r, m).
Proof. reflexivity. Qed.

Ltac split_body :=
  repeat match goal with
         | |- context [match ?x with _ => _ end] => destruct x eqn:?; simpl
         end.

(** The statements of the body, run in a row from the top, are the
    method. *)
Lemma finish_is_get_next_instance d m :
  finish d AtFilter m
  = (AtExit (fst (get_next_instance d m)), snd (get_next_instance d m)).
Proof.
  unfold finish, get_next_instance, bind, read, write, lift, ret, pick. simpl.
  destruct (get_enabled_instances m) as [|c cs]; simpl; [reflexivity|].
  destruct (strategy m); simpl; unfold pick; simpl; split_body; reflexivity.
Qed.

Lemma body_step_stays d pc m :
  in_section pc = true -> in_section (fst (body_step d pc m)) = true.
Proof.
  destruct pc; simpl; try discriminate; intros _; split_body; reflexivity.
Qed.

(** Running one statement does not change where the body ends. *)
Lemma finish_after_step d pc m :
  finish d (fst (body_step d pc m)) (snd (body_step d pc m)) = finish d pc m.
Proof.
  unfold finish, pick.
  destruct pc; simpl; try reflexivity; split_body; reflexivity.
Qed.

Lemma nodup_snoc {A} (x : A) (l : list A) :
  NoDup l -> ~ In x l -> NoDup (l ++ [x]).
Proof.
  induction l as [|a l IH]; simpl; intros Hnd Hx.
  - constructor; [tauto | constructor].
  - inversion Hnd as [|? ? Ha Hl]; subst. constructor.
    + rewrite in_app_iff. simpl. intros [H|[H|[]]]; [tauto | subst; tauto].
    + apply IH; tauto.
Qed.

Lemma holder_free s : locked s = false -> holder s = None.
Proof. unfold holder. now intros ->. Qed.

Lemma holder_locked s i : holder s = Some i -> locked s = true.
Proof. unfold holder. destruct (locked s); [reflexivity | discriminate]. Qed.

Lemma lin_outcome_outside m1 m2 t :
  in_section (pc t) = false -> lin_outcome m1 t = lin_outcome m2 t.
Proof. unfold lin_outcome. destruct (pc t); simpl; congruence. Qed.

Lemma lin_outcome_inside m t :
  in_section (pc t) = true ->
  lin_outcome m t
  = match fst (finish (draw t) (pc t) m) with
    | AtExit r => Some r
    | _ => None
    end.
Proof. unfold lin_outcome. destruct (pc t); simpl; congruence. Qed.

Lemma task_draw m draws s i t :
  Linearized m draws s -> nth_error (tasks s) i = Some t ->
  nth i draws O = draw t.
Proof.
  intros L H. rewrite <- (lin_draws L).
  apply nth_error_nth. now apply map_nth_error.
Qed.

Lemma outside_when_free m draws s i t :
  Linearized m draws s -> locked s = false ->
  nth_error (tasks s) i = Some t -> in_section (pc t) = false.
Proof.
  intros L Hfree H. destruct (in_section (pc t)) eqn:E; [|reflexivity].
  pose proof (lin_section L i t H E) as Hh.
  rewrite (holder_free s Hfree) in Hh. discriminate.
Qed.

Lemma acquired_when_moved m draws s i t :
  Linearized m draws s -> nth_error (tasks s) i = Some t ->
  pc t <> Waiting -> In i (order s).
Proof.
  intros L H Hpc.
  destruct (in_dec Nat.eq_dec i (order s)) as [Hin|Hout]; [exact Hin|].
  elim Hpc. now apply (lin_waiting L i t H).
Qed.

Lemma linearized_start m draws : Linearized m draws (start m draws).
Proof.
  assert (Hall : forall i t,
    nth_error (tasks (start m draws)) i = Some t -> pc t = Waiting).
  { simpl. intros i t H. rewrite nth_error_map in H.
    destruct (nth_error draws i); simpl in H; [|discriminate].
    now inversion H. }
  constructor; simpl.
  - rewrite map_map. simpl. apply map_id.
  - discriminate.
  - intros i t H Hin. rewrite (Hall i t H) in Hin. discriminate.
  - constructor.
  - intros i t H. rewrite (Hall i t H). tauto.
  - intros i t en inst H Hpc. rewrite (Hall i t H) in Hpc. discriminate.
  - reflexivity.
  - intros [|k] i t H; discriminate.
  - intros i [].
Qed.

(** A waiting task takes the free lock: in the linearization it makes its
    whole call at this point. *)
Lemma linearized_acquire m draws s i t :
  Linearized m draws s ->
  nth_error (tasks s) i = Some t ->
  pc t = Waiting ->
  locked s = false ->
  Linearized m draws
    (mkSystem (manager s) true
       (set_nth i (mkTask (draw t) AtFilter) (tasks s)) (order s ++ [i])).
Proof.
  intros L Hi Hpc Hfree.
  set (t' := mkTask (draw t) AtFilter).
  assert (Hnew : ~ In i (order s)) by now apply (lin_waiting L i t Hi).
  assert (Hholder : forall ts,
    holder (mkSystem (manager s) true ts (order s ++ [i])) = Some i).
  { intros ts. unfold holder. simpl. now rewrite rev_app_distr. }
  assert (Hold : forall j tj, j <> i ->
    nth_error (set_nth i t' (tasks s)) j = Some tj ->
    nth_error (tasks s) j = Some tj /\ in_section (pc tj) = false).
  { intros j tj Hne H. rewrite set_nth_other in H by congruence.
    split; [exact H|]. eapply outside_when_free; eauto. }
  assert (Hserial :
    serial m draws
      (mkSystem (manager s) true (set_nth i t' (tasks s)) (order s ++ [i]))
    = (fst (serial m draws s) ++ [fst (get_next_instance (draw t) (manager s))],
       snd (get_next_instance (draw t) (manager s)))).
  { unfold serial. simpl. rewrite map_app, select_many_app. simpl.
    rewrite (task_draw m draws s i t L Hi).
    change (select_many (map (fun i0 => nth i0 draws O) (order s)) m)
      with (serial m draws s).
    rewrite <- (lin_state L).
    unfold lin_manager. rewrite (holder_free s Hfree).
    destruct (get_next_instance (draw t) (manager s)). reflexivity. }
  constructor; simpl.
  - rewrite (set_nth_map draw t' (tasks s) i t Hi eq_refl). apply (lin_draws L).
  - intros _. exists i, t'. rewrite Hholder.
    split; [reflexivity|]. split; [|reflexivity].
    eapply set_nth_same; eauto.
  - intros j tj H Hin. rewrite Hholder.
    destruct (Nat.eq_dec j i) as [->|Hne]; [reflexivity|].
    destruct (Hold j tj Hne H) as [_ Hout]. congruence.
  - apply nodup_snoc; [apply (lin_order L) | exact Hnew].
  - intros j tj H. rewrite in_app_iff. simpl.
    destruct (Nat.eq_dec j i) as [->|Hne].
    + rewrite (set_nth_same t' (tasks s) i t Hi) in H. inversion H; subst tj.
      simpl. split; [discriminate | intros Hn; elim Hn; auto].
    + destruct (Hold j tj Hne H) as [H0 _].
      rewrite (lin_waiting L j tj H0). intuition congruence.
  - intros j tj en inst H Hadv.
    destruct (Nat.eq_dec j i) as [->|Hne].
    + rewrite (set_nth_same t' (tasks s) i t Hi) in H. inversion H; subst tj.
      discriminate.
    + destruct (Hold j tj Hne H) as [_ Hout]. rewrite Hadv in Hout.
      discriminate.
  - rewrite Hserial. unfold lin_manager. rewrite Hholder. simpl.
    rewrite (set_nth_same t' (tasks s) i t Hi). simpl.
    now rewrite finish_is_get_next_instance.
  - intros k j tj Hk H. rewrite Hserial. simpl.
    assert (Hlen : List.length (fst (serial m draws s)) = List.length (order s)).
    { unfold serial. now rewrite select_many_length, length_map. }
    destruct (Nat.lt_ge_cases k (List.length (order s))) as [Hlt|Hge].
    + rewrite nth_error_app1 in Hk by exact Hlt.
      rewrite nth_error_app1 by (rewrite Hlen; exact Hlt).
      assert (Hne : j <> i).
      { intros ->. apply Hnew. eapply nth_error_In; eauto. }
      destruct (Hold j tj Hne H) as [H0 _].
      apply (lin_results L k j tj Hk H0).
    + rewrite nth_error_app2 in Hk by exact Hge.
      rewrite nth_error_app2 by (rewrite Hlen; exact Hge). rewrite Hlen.
      destruct (k - List.length (order s)) as [|[|?]]; simpl in *;
        try discriminate.
      inversion Hk; subst j.
      rewrite (set_nth_same t' (tasks s) i t Hi) in H. inversion H; subst tj.
      unfold lin_outcome. simpl pc. simpl draw.
      now rewrite finish_is_get_next_instance.
  - intros j Hj. apply (set_nth_known t' (tasks s) i j).
    apply in_app_iff in Hj. destruct Hj as [Hj|[<-|[]]].
    + apply (lin_known L j Hj).
    + now exists t.
Qed.

Lemma others_outside m draws s i t :
  Linearized m draws s ->
  nth_error (tasks s) i = Some t ->
  in_section (pc t) = true ->
  forall t' j tj, j <> i ->
    nth_error (set_nth i t' (tasks s)) j = Some tj ->
    nth_error (tasks s) j = Some tj /\ in_section (pc tj) = false.
Proof.
  intros L Hi Hin t' j tj Hne H.
  rewrite set_nth_other in H by congruence.
  split; [exact H|].
  destruct (in_section (pc tj)) eqn:E; [|reflexivity].
  pose proof (lin_section L i t Hi Hin) as H1.
  pose proof (lin_section L j tj H E) as H2. congruence.
Qed.

(** The holder of the lock runs a statement of the body: the linearization
    does not move. *)
Lemma linearized_body m draws s i t :
  Linearized m draws s ->
  nth_error (tasks s) i = Some t ->
  in_section (pc t) = true ->
  Linearized m draws
    (mkSystem (snd (body_step (draw t) (pc t) (manager s))) (locked s)
       (set_nth i
          (mkTask (draw t) (fst (body_step (draw t) (pc t) (manager s))))
          (tasks s))
       (order s)).
Proof.
  intros L Hi Hin.
  set (next := fst (body_step (draw t) (pc t) (manager s))).
  set (self' := snd (body_step (draw t) (pc t) (manager s))).
  set (t' := mkTask (draw t) next).
  pose proof (lin_section L i t Hi Hin) as Hh.
  pose proof (others_outside m draws s i t L Hi Hin t') as Hold.
  assert (Hnext : in_section next = true) by now apply body_step_stays.
  assert (Hfin : finish (draw t) next self' = finish (draw t) (pc t) (manager s))
    by apply finish_after_step.
  assert (Hmine : nth_error (set_nth i t' (tasks s)) i = Some t')
    by (eapply set_nth_same; eauto).
  constructor; simpl.
  - rewrite (set_nth_map draw t' (tasks s) i t Hi eq_refl). apply (lin_draws L).
  - intros _. exists i, t'. auto.
  - intros j tj H Hj. change (holder s = Some j).
    destruct (Nat.eq_dec j i) as [->|Hne]; [exact Hh|].
    destruct (Hold j tj Hne H) as [_ Hout]. congruence.
  - apply (lin_order L).
  - intros j tj H.
    destruct (Nat.eq_dec j i) as [->|Hne].
    + rewrite Hmine in H. inversion H; subst tj. simpl.
      assert (In i (order s)).
      { eapply acquired_when_moved; eauto.
        intros E. rewrite E in Hin. discriminate. }
      split; [|tauto]. intros E. rewrite E in Hnext. discriminate.
    + destruct (Hold j tj Hne H) as [H0 _]. apply (lin_waiting L j tj H0).
  - intros j tj en inst H Hadv.
    destruct (Nat.eq_dec j i) as [->|Hne].
    + rewrite Hmine in H. inversion H; subst tj. simpl in Hadv.
      unfold next, self' in *. clear - Hadv.
      destruct (pc t); simpl in *; try discriminate;
        repeat match type of Hadv with
               | context [match ?x with _ => _ end] =>
                   destruct x eqn:?; simpl in Hadv
               end;
        try discriminate.
      now inversion Hadv; subst.
    + destruct (Hold j tj Hne H) as [_ Hout]. rewrite Hadv in Hout.
      discriminate.
  - change (serial m draws _) with (serial m draws s).
    rewrite <- (lin_state L). unfold lin_manager.
    change (holder _) with (holder s) at 1. rewrite Hh. simpl.
    now rewrite Hmine, Hi, <- Hfin.
  - intros k j tj Hk H. change (serial m draws _) with (serial m draws s).
    destruct (Nat.eq_dec j i) as [->|Hne].
    + rewrite Hmine in H. inversion H; subst tj.
      rewrite <- (lin_results L k i t Hk Hi).
      rewrite !lin_outcome_inside by assumption.
      simpl. now rewrite Hfin.
    + destruct (Hold j tj Hne H) as [H0 Hout].
      rewrite <- (lin_results L k j tj Hk H0).
      now apply lin_outcome_outside.
  - intros j Hj. apply (set_nth_known t' (tasks s) i j).
    apply (lin_known L j Hj).
Qed.

(** The holder leaves the [with] block and gives the lock back. *)
Lemma linearized_release m draws s i t r :
  Linearized m draws s ->
  nth_error (tasks s) i = Some t ->
  pc t = AtExit r ->
  Linearized m draws
    (mkSystem (manager s) false
       (set_nth i (mkTask (draw t) (Done r)) (tasks s)) (order s)).
Proof.
  intros L Hi Hpc.
  set (t' := mkTask (draw t) (Done r)).
  assert (Hin : in_section (pc t) = true) by now rewrite Hpc.
  pose proof (lin_section L i t Hi Hin) as Hh.
  pose proof (others_outside m draws s i t L Hi Hin t') as Hold.
  assert (Hmine : nth_error (set_nth i t' (tasks s)) i = Some t')
    by (eapply set_nth_same; eauto).
  constructor; simpl.
  - rewrite (set_nth_map draw t' (tasks s) i t Hi eq_refl). apply (lin_draws L).
  - discriminate.
  - intros j tj H Hj. exfalso.
    destruct (Nat.eq_dec j i) as [->|Hne].
    + rewrite Hmine in H. inversion H; subst tj. discriminate.
    + destruct (Hold j tj Hne H) as [_ Hout]. congruence.
  - apply (lin_order L).
  - intros j tj H.
    destruct (Nat.eq_dec j i) as [->|Hne].
    + rewrite Hmine in H. inversion H; subst tj. simpl.
      assert (In i (order s)).
      { eapply acquired_when_moved; eauto. rewrite Hpc. discriminate. }
      split; [discriminate | tauto].
    + destruct (Hold j tj Hne H) as [H0 _]. apply (lin_waiting L j tj H0).
  - intros j tj en inst H Hadv.
    destruct (Nat.eq_dec j i) as [->|Hne].
    + rewrite Hmine in H. inversion H; subst tj. discriminate.
    + destruct (Hold j tj Hne H) as [_ Hout]. rewrite Hadv in Hout.
      discriminate.
  - change (serial m draws _) with (serial m draws s).
    rewrite <- (lin_state L). unfold lin_manager. simpl.
    rewrite Hh, Hi, Hpc. reflexivity.
  - intros k j tj Hk H. change (serial m draws _) with (serial m draws s).
    destruct (Nat.eq_dec j i) as [->|Hne].
    + rewrite Hmine in H. inversion H; subst tj.
      rewrite <- (lin_results L k i t Hk Hi).
      unfold lin_outcome. rewrite Hpc. reflexivity.
    + destruct (Hold j tj Hne H) as [H0 Hout].
      apply (lin_results L k j tj Hk H0).
  - intros j Hj. apply (set_nth_known t' (tasks s) i j).
    apply (lin_known L j Hj).
Qed.

Lemma linearized_step m draws s i s' :
  Linearized m draws s -> step i s = Some s' -> Linearized m draws s'.
Proof.
  intros L H. unfold step in H.
  destruct (nth_error (tasks s) i) as [t|] eqn:Hi; [|discriminate].
  destruct (pc t) eqn:Hpc;
    try (destruct (body_step (draw t) _ (manager s)) as [next self'] eqn:Hb;
         inversion H; subst s';
         pose proof (linearized_body m draws s i t L Hi) as L';
         rewrite Hpc, Hb in L'; exact (L' eq_refl)).
  - destruct (locked s) eqn:Hfree; [discriminate|].
    inversion H; subst s'. now apply linearized_acquire.
  - inversion H; subst s'. now apply linearized_release.
  - discriminate.
Qed.

Lemma linearized_run m draws schedule : forall s,
  Linearized m draws s -> Linearized m draws (run schedule s).
Proof.
  induction schedule as [|i rest IH]; intros s L; simpl; [exact L|].
  destruct (step i s) as [s'|] eqn:E.
  - apply IH. eapply linearized_step; eauto.
  - now apply IH.
Qed.

Lemma finished_all_returned s i t :
  finished s = true -> nth_error (tasks s) i = Some t ->
  exists r, pc t = Done r.
Proof.
  intros Hf H. unfold finished in Hf. rewrite forallb_forall in Hf.
  specialize (Hf t (nth_error_In _ _ H)). unfold has_returned in Hf.
  destruct (pc t); try discriminate. eauto.
Qed.

Lemma forallb_false_nth {A} (f : A -> bool) (l : list A) :
  forallb f l = false -> exists i x, nth_error l i = Some x /\ f x = false.
Proof.
  induction l as [|a l IH]; simpl; [discriminate|].
  destruct (f a) eqn:E; simpl.
  - intros H. destruct (IH H) as (i & x & Hi & Hx). now exists (S i), x.
  - intros _. now exists 0, a.
Qed.

(** X23.  No deadlock: in every state that interleaved calls of
    [get_next_instance] can reach, as long as a call has not returned some
    task can run its next statement; the lock is never left taken by a
    task that is through, also when the body raises. *)
Lemma interleaved_selection_never_stuck m draws schedule :
  let s := run schedule (start m draws) in
  finished s = false -> exists i s', step i s = Some s'.
Proof.
  intros s Hnot.
  assert (L : Linearized m draws s)
    by (apply linearized_run, linearized_start).
  destruct (locked s) eqn:Hlock.
  - destruct (lin_lock L Hlock) as (i & t & _ & Hi & Hin).
    exists i. unfold step. rewrite Hi.
    destruct (pc t); try discriminate;
      try (destruct (body_step (draw t) _ (manager s)); eauto).
    eauto.
  - destruct (forallb_false_nth _ _ Hnot) as (i & t & Hi & Ht).
    pose proof (outside_when_free m draws s i t L Hlock Hi) as Hout.
    exists i. unfold step. rewrite Hi, Hlock.
    unfold has_returned in Ht.
    destruct (pc t); try discriminate. eauto.
Qed.

(** C9.  Tasks that call [get_next_instance] on one manager, interleaved
    statement by statement in any way.  In every state that can be reached:
    at most one task is inside the [with] block, and only while the lock is
    taken; a task about to advance the cursor holds the candidate that is
    under the cursor now, so no other task has read or moved the cursor
    since it read it; every call that has returned has the result that the
    calls give when they run one after the other in the order in which they
    took the lock; when the lock is free the manager is the one that serial
    run leaves; and once all tasks have returned, every call is in that
    order exactly once. *)
Theorem interleaved_selection_is_linearizable :
  forall (m : MultiInstanceManager) (draws schedule : list nat),
    let s := run schedule (start m draws) in
    let calls := map (fun i => nth i draws O) (order s) in
    (forall i j ti tj,
       nth_error (tasks s) i = Some ti -> nth_error (tasks s) j = Some tj ->
       in_section (pc ti) = true -> in_section (pc tj) = true -> i = j)
    /\ (forall i t,
          nth_error (tasks s) i = Some t -> in_section (pc t) = true ->
          locked s = true)
    /\ (forall i t enabled instance,
          nth_error (tasks s) i = Some t ->
          pc t = AtAdvance enabled instance ->
          pick enabled (manager s) = Ok instance)
    /\ NoDup (order s)
    /\ (forall i r,
          outcome_of s i = Some r ->
          exists k,
            nth_error (order s) k = Some i
            /\ nth_error (fst (select_many calls m)) k = Some r)
    /\ (locked s = false -> manager s = snd (select_many calls m))
    /\ (finished s = true ->
        locked s = false
        /\ Permutation (order s) (seq 0 (List.length draws))).
Proof.
  intros m draws schedule s calls.
  assert (L : Linearized m draws s)
    by (apply linearized_run, linearized_start).
  assert (Hserial : select_many calls m = serial m draws s) by reflexivity.
  rewrite Hserial.
  split; [|split; [|split; [|split; [|split; [|split]]]]].
  - intros i j ti tj Hi Hj Hin Hjn.
    pose proof (lin_section L i ti Hi Hin).
    pose proof (lin_section L j tj Hj Hjn). congruence.
  - intros i t Hi Hin. eapply holder_locked. apply (lin_section L i t Hi Hin).
  - apply (lin_cursor L).
  - apply (lin_order L).
  - intros i r Hout. unfold outcome_of in Hout.
    destruct (nth_error (tasks s) i) as [t|] eqn:Hi; [|discriminate].
    destruct (pc t) eqn:Hpc; try discriminate. inversion Hout; subst r0.
    assert (Hacq : In i (order s)).
    { eapply acquired_when_moved; eauto. rewrite Hpc. discriminate. }
    destruct (In_nth_error _ _ Hacq) as [k Hk]. exists k.
    split; [exact Hk|].
    rewrite <- (lin_results L k i t Hk Hi). unfold lin_outcome.
    now rewrite Hpc.
  - intros Hfree. rewrite <- (lin_state L). unfold lin_manager.
    now rewrite (holder_free s Hfree).
  - intros Hfin.
    assert (Hfree : locked s = false).
    { destruct (locked s) eqn:E; [|reflexivity].
      destruct (lin_lock L E) as (i & t & _ & Hi & Hin).
      destruct (finished_all_returned s i t Hfin Hi) as [r Hr].
      rewrite Hr in Hin. discriminate. }
    split; [exact Hfree|].
    assert (Hlen : List.length (tasks s) = List.length draws).
    { rewrite <- (lin_draws L). now rewrite length_map. }
    apply NoDup_Permutation; [apply (lin_order L) | apply seq_NoDup |].
    intros i. rewrite in_seq. split.
    + intros Hi. destruct (lin_known L i Hi) as [t Ht].
      assert (nth_error (tasks s) i <> None) as Hsome by congruence.
      apply nth_error_Some in Hsome. lia.
    + intros Hi.
      destruct (nth_error (tasks s) i) as [t|] eqn:Ht.
      * destruct (finished_all_returned s i t Hfin Ht) as [r Hr].
        eapply acquired_when_moved; eauto. rewrite Hr. discriminate.
      * apply nth_error_None in Ht. lia.
Qed.

Lemma interleaved_selection_is_linearizable_witness :
  let s := run Examples.interleaving
             (start Examples.round_robin_pool [0; 0; 0]) in
  finished s = true
  /\ locked s = false
  /\ order s = [0; 2; 1]
  /\ Permutation (order s) [0; 1; 2]
  /\ manager s = snd (select_many [0; 0; 0] Examples.round_robin_pool)
  /\ outcome_of s 0 = Some (Ok (Some Examples.instance_0))
  /\ outcome_of s 2 = Some (Ok (Some Examples.instance_1))
  /\ outcome_of s 1 = Some (Ok (Some Examples.instance_2)).
Proof.
  intros s.
  destruct (interleaved_selection_is_linearizable
              Examples.round_robin_pool [0; 0; 0] Examples.interleaving)
    as (_ & _ & _ & _ & _ & Hstate & Hfin).
  fold s in Hstate, Hfin.
  assert (Hdone : finished s = true) by reflexivity.
  destruct (Hfin Hdone) as [Hfree Hperm].
  split; [exact Hdone|]. split; [exact Hfree|].
  split; [reflexivity|]. split; [exact Hperm|].
  split; [exact (Hstate Hfree)|].
  repeat split; reflexivity.
Defined.

(** ** The registry stays well formed *)

Lemma dict_wf_setitem {V} (k : string) (v : V) (d : Dict.t V) :
  Dict.wf d -> Dict.wf (Dict.setitem k v d).
Proof.
  unfold Dict.wf. intros Hnd.
  destruct (in_dec string_dec k (Dict.keys d)) as [Hin|Hout].
  - now rewrite dict_keys_setitem_present.
  - rewrite dict_setitem_fresh by exact Hout.
    unfold Dict.keys. rewrite map_app. simpl. now apply nodup_snoc.
Qed.

Lemma dict_forall_setitem {V} (P : string * V -> Prop) (k : string) (v : V) :
  forall d : Dict.t V,
    Forall P d -> P (k, v) -> Forall P (Dict.setitem k v d).
Proof.
  induction d as [|[k' v'] rest IH]; simpl; intros Hall Hkv.
  - now constructor.
  - inversion Hall as [|? ? Hhead Hrest]; subst.
    destruct (String.eqb_spec k k') as [->|Hne]; constructor; auto.
Qed.

Lemma dict_wf_delitem {V} (k : string) : forall d : Dict.t V,
  Dict.wf d -> Dict.wf (Dict.delitem k d).
Proof.
  unfold Dict.wf.
  assert (Hsub : forall (d : Dict.t V) x,
            In x (Dict.keys (Dict.delitem k d)) -> In x (Dict.keys d)).
  { induction d as [|[k' v'] rest IH]; simpl; intros x Hx; [exact Hx|].
    destruct (String.eqb k k'); simpl in *; [now right|].
    destruct Hx; [now left | right; now apply IH]. }
  induction d as [|[k' v'] rest IH]; simpl; intros Hnd; [exact Hnd|].
  inversion Hnd as [|? ? Hk Hrest]; subst.
  destruct (String.eqb k k'); [exact Hrest|]. simpl.
  constructor; [|now apply IH]. intros Hx. apply Hk. now apply Hsub.
Qed.

Lemma dict_forall_delitem {V} (P : string * V -> Prop) (k : string) :
  forall d : Dict.t V, Forall P d -> Forall P (Dict.delitem k d).
Proof.
  induction d as [|[k' v'] rest IH]; simpl; intros Hall; [exact Hall|].
  inversion Hall; subst. destruct (String.eqb k k'); [assumption|].
  constructor; auto.
Qed.

Lemma dict_get_forall {V} (P : string * V -> Prop) (k : string) (v : V) :
  forall d : Dict.t V, Forall P d -> Dict.get k d = Some v -> P (k, v).
Proof.
  induction d as [|[k' v'] rest IH]; simpl; intros Hall Hget; [discriminate|].
  inversion Hall; subst.
  destruct (String.eqb_spec k k') as [->|Hne]; [|now apply IH].
  now inversion Hget; subst.
Qed.

Lemma well_formed_init s : well_formed (init s).
Proof. split; constructor. Qed.

Lemma well_formed_add_instance inst m :
  well_formed m -> well_formed (exec (add_instance inst) m).
Proof.
  intros [Hwf Hkeys]. split; simpl.
  - now apply dict_wf_setitem.
  - now apply dict_forall_setitem.
Qed.

Lemma well_formed_remove_instance instance_id m :
  well_formed m -> well_formed (exec (remove_instance instance_id) m).
Proof.
  intros [Hwf Hkeys]. unfold remove_instance. run_op.
  destruct (Dict.contains instance_id (instances m)); simpl.
  - split; simpl; [now apply dict_wf_delitem | now apply dict_forall_delitem].
  - now split.
Qed.

Lemma well_formed_update_instance instance_id f m :
  (forall i, id (f i) = id i) ->
  well_formed m -> well_formed (exec (update_instance instance_id f) m).
Proof.
  intros Hid [Hwf Hkeys]. unfold update_instance, Dict.getitem. run_op.
  destruct (Dict.get instance_id (instances m)) as [inst|] eqn:E; simpl.
  - split; simpl; [now apply dict_wf_setitem|].
    apply dict_forall_setitem; [exact Hkeys|]. simpl. rewrite Hid.
    apply (dict_get_forall _ instance_id inst (instances m) Hkeys E).
  - now split.
Qed.

Lemma well_formed_mark_request_error instance_id m :
  well_formed m -> well_formed (exec (mark_request_error instance_id) m).
Proof.
  intros Hwf. unfold mark_request_error. unfold exec, bind at 1, read at 1.
  destruct (Dict.contains instance_id (instances m)); [|exact Hwf].
  now apply (well_formed_update_instance instance_id _ m).
Qed.

Lemma well_formed_enable_instance instance_id b m :
  well_formed m -> well_formed (exec (enable_instance instance_id b) m).
Proof.
  intros Hwf. unfold enable_instance. unfold exec, bind at 1, read at 1.
  destruct (Dict.contains instance_id (instances m)); [|exact Hwf].
  now apply (well_formed_update_instance instance_id _ m).
Qed.

Lemma well_formed_mark_request_start now instance_id m :
  well_formed m -> well_formed (exec (mark_request_start now instance_id) m).
Proof.
  intros Hwf.
  destruct (Dict.get instance_id (instances m)) as [inst|] eqn:E.
  - unfold exec.
    rewrite (mark_request_start_registered m instance_id inst now E). simpl.
    destruct Hwf as [Hd Hkeys]. split; simpl.
    + now apply dict_wf_setitem.
    + apply dict_forall_setitem; [exact Hkeys|]. simpl.
      apply (dict_get_forall _ instance_id inst (instances m) Hkeys E).
  - unfold exec. rewrite mark_request_start_unknown; [exact Hwf|].
    unfold Dict.contains. now rewrite E.
Qed.

Lemma well_formed_get_next_instance draw m :
  well_formed m -> well_formed (exec (get_next_instance draw) m).
Proof.
  intros Hwf. unfold exec.
  destruct (get_next_instance_cases draw m)
    as [[_ Hrun]|[_ (inst & m' & Hrun & _ & Hreg & _)]]; rewrite Hrun; simpl.
  - exact Hwf.
  - unfold well_formed. now rewrite Hreg.
Qed.

(* ===================================================================== *)
(** * Further properties of the registry *)
(* ===================================================================== *)

Import Admin.

(** ** Registering and removing *)

Lemma dict_get_delitem_other {V} (k k0 : string) : forall d : Dict.t V,
  k0 <> k -> Dict.get k0 (Dict.delitem k d) = Dict.get k0 d.
Proof.
  induction d as [|[k' v'] rest IH]; simpl; intros Hne; [reflexivity|].
  destruct (String.eqb_spec k k') as [->|Hk]; simpl.
  - destruct (String.eqb_spec k0 k'); [congruence | reflexivity].
  - now rewrite IH.
Qed.

Lemma dict_keys_delitem {V} (k : string) : forall d : Dict.t V,
  Dict.wf d ->
  Dict.keys (Dict.delitem k d)
  = filter (fun k' => negb (String.eqb k k')) (Dict.keys d).
Proof.
  unfold Dict.wf.
  induction d as [|[k' v'] rest IH]; simpl; intros Hnd; [reflexivity|].
  inversion Hnd as [|? ? Hk Hrest]; subst.
  destruct (String.eqb_spec k k') as [->|Hne]; simpl.
  - symmetry. apply forallb_filter_id. apply forallb_forall.
    intros x Hx. destruct (String.eqb_spec k' x); [subst; tauto | reflexivity].
  - now rewrite IH.
Qed.

Lemma dict_get_delitem_same {V} (k : string) (d : Dict.t V) :
  Dict.wf d -> Dict.get k (Dict.delitem k d) = None.
Proof.
  intros Hwf. apply dict_get_none_iff.
  rewrite dict_keys_delitem by exact Hwf. rewrite filter_In.
  intros [_ H]. now rewrite String.eqb_refl in H.
Qed.

Lemma dict_delitem_absent {V} (k : string) : forall d : Dict.t V,
  ~ In k (Dict.keys d) -> Dict.delitem k d = d.
Proof.
  induction d as [|[k' v'] rest IH]; simpl; intros Hk; [reflexivity|].
  destruct (String.eqb_spec k k') as [->|Hne]; [tauto|].
  rewrite IH; tauto.
Qed.

Lemma dict_delitem_appended {V} (k : string) (v : V) : forall d : Dict.t V,
  ~ In k (Dict.keys d) -> Dict.delitem k (d ++ [(k, v)]) = d.
Proof.
  induction d as [|[k' v'] rest IH]; simpl; intros Hk.
  - now rewrite String.eqb_refl.
  - destruct (String.eqb_spec k k') as [->|Hne]; [tauto|].
    rewrite IH; tauto.
Qed.

(** X1.  [add_instance] is an insert-or-replace by id: afterwards the id
    looks up the instance just given and every other id looks up what it
    did before; a new id goes to the end of the registry, an id already
    there keeps its place, so the number of instances does not change and
    the fields of the old entry are gone.  Strategy and cursor stay. *)
Theorem add_instance_upserts :
  forall (inst : BrowserInstance) (m : MultiInstanceManager),
    add_instance inst m = (Ok tt, exec (add_instance inst) m)
    /\ Dict.get (id inst) (instances (exec (add_instance inst) m)) = Some inst
    /\ (forall k, k <> id inst ->
          Dict.get k (instances (exec (add_instance inst) m))
          = Dict.get k (instances m))
    /\ (~ In (id inst) (Dict.keys (instances m)) ->
        instances (exec (add_instance inst) m)
        = instances m ++ [(id inst, inst)])
    /\ (In (id inst) (Dict.keys (instances m)) ->
        Dict.keys (instances (exec (add_instance inst) m))
        = Dict.keys (instances m))
    /\ strategy (exec (add_instance inst) m) = strategy m
    /\ current_index (exec (add_instance inst) m) = current_index m.
Proof.
  intros inst m. unfold add_instance. run_op.
  split; [reflexivity|].
  split; [apply dict_get_setitem_same|].
  split; [intros k Hk; now apply dict_get_setitem_other|].
  split; [apply dict_setitem_fresh|].
  split; [apply dict_keys_setitem_present | auto].
Qed.

(** X2.  [remove_instance] on a registry with unique keys: the id is no
    longer registered, the other ids keep their entries and their order,
    strategy and cursor stay (the cursor is not moved back); on an id that
    is not registered nothing changes, and no [KeyError] is raised. *)
Theorem remove_instance_unregisters :
  forall (instance_id : string) (m : MultiInstanceManager),
    Dict.wf (instances m) ->
    remove_instance instance_id m
    = (Ok tt, exec (remove_instance instance_id) m)
    /\ Dict.get instance_id (instances (exec (remove_instance instance_id) m))
       = None
    /\ (forall k, k <> instance_id ->
          Dict.get k (instances (exec (remove_instance instance_id) m))
          = Dict.get k (instances m))
    /\ Dict.keys (instances (exec (remove_instance instance_id) m))
       = filter (fun k => negb (String.eqb instance_id k))
           (Dict.keys (instances m))
    /\ strategy (exec (remove_instance instance_id) m) = strategy m
    /\ current_index (exec (remove_instance instance_id) m) = current_index m
    /\ (~ In instance_id (Dict.keys (instances m)) ->
        exec (remove_instance instance_id) m = m).
Proof.
  intros instance_id m Hwf. unfold remove_instance. run_op.
  destruct (Dict.contains instance_id (instances m)) eqn:Hc; simpl.
  - split; [reflexivity|].
    split; [now apply dict_get_delitem_same|].
    split; [intros k Hk; now apply dict_get_delitem_other|].
    split; [now apply dict_keys_delitem|].
    split; [reflexivity|]. split; [reflexivity|].
    intros Hout. apply dict_contains_false_iff in Hout. congruence.
  - apply dict_contains_false_iff in Hc.
    split; [reflexivity|].
    split; [now apply dict_get_none_iff|].
    split; [reflexivity|].
    split.
    + rewrite <- (dict_delitem_absent instance_id (instances m) Hc) at 1.
      now apply dict_keys_delitem.
    + auto.
Qed.

(** X3.  Registering an instance under a new id and removing that id again
    gives back the manager as it was. *)
Theorem add_then_remove_restores :
  forall (inst : BrowserInstance) (m : MultiInstanceManager),
    ~ In (id inst) (Dict.keys (instances m)) ->
    exec (remove_instance (id inst)) (exec (add_instance inst) m) = m.
Proof.
  intros inst m Hnew. unfold remove_instance, add_instance. run_op.
  rewrite (dict_contains_get _ _ inst (dict_get_setitem_same _ _ _)). simpl.
  rewrite dict_setitem_fresh by exact Hnew.
  rewrite dict_delitem_appended by exact Hnew. now destruct m.
Qed.

(** ** Counting requests *)

Lemma last_default_irrelevant {A} (l : list A) : forall x d d',
  last (x :: l) d = last (x :: l) d'.
Proof.
  induction l as [|y l IH]; intros x d d'; [reflexivity|].
  change (last (y :: l) d = last (y :: l) d'). apply IH.
Qed.

(** X4.  One [mark_request_start] per clock reading on a registered id:
    [request_count] grows by the number of calls, [last_used] is the last
    reading, and nothing else changes: the other fields of the instance,
    the keys and their order, the other instances, strategy and cursor. *)
Theorem mark_request_starts_counts :
  forall (nows : list Z) (m : MultiInstanceManager) (instance_id : string)
         (inst : BrowserInstance),
    Dict.get instance_id (instances m) = Some inst ->
    exists m',
      mark_request_starts nows instance_id m = (Ok tt, m')
      /\ Dict.get instance_id (instances m')
         = Some (set_last_used (last nows (last_used inst))
                   (set_request_count
                      (request_count inst + Z.of_nat (List.length nows)) inst))
      /\ Dict.keys (instances m') = Dict.keys (instances m)
      /\ (forall k, k <> instance_id ->
            Dict.get k (instances m') = Dict.get k (instances m))
      /\ strategy m' = strategy m
      /\ current_index m' = current_index m.
Proof.
  induction nows as [|now rest IH]; intros m instance_id inst Hget.
  - exists m. simpl. rewrite Z.add_0_r, Hget.
    destruct inst; unfold ret; simpl; auto 7.
  - pose (inst1 := set_last_used now
                     (set_request_count (request_count inst + 1) inst)).
    pose (m1 := set_instances
                  (Dict.setitem instance_id inst1 (instances m)) m).
    assert (Hget1 : Dict.get instance_id (instances m1) = Some inst1)
      by apply dict_get_setitem_same.
    destruct (IH m1 instance_id inst1 Hget1)
      as (m' & Hrun & Hg & Hk & Ho & Hs & Hc).
    exists m'. split.
    { simpl. unfold bind at 1.
      rewrite (mark_request_start_registered m instance_id inst now Hget).
      exact Hrun. }
    split.
    { rewrite Hg. f_equal. unfold inst1, set_last_used, set_request_count.
      cbn [id auth_file browser page ws_endpoint port is_ready
           request_count error_count enabled last_used].
      replace (last rest now) with (last (now :: rest) (last_used inst))
        by (destruct rest as [|z r];
            [reflexivity | exact (last_default_irrelevant r z _ _)]).
      f_equal. change (List.length (now :: rest)) with (S (List.length rest)).
      lia. }
    split.
    { rewrite Hk. simpl. apply dict_keys_setitem_present.
      eapply dict_get_in_keys; eauto. }
    split; [|auto].
    intros k Hne. rewrite (Ho k Hne). simpl.
    now apply dict_get_setitem_other.
Qed.

(** ** Enabling and disabling *)

Lemma dict_setitem_same_value {V} (k : string) (v : V) : forall d : Dict.t V,
  Dict.get k d = Some v -> Dict.setitem k v d = d.
Proof.
  induction d as [|[k' v'] rest IH]; simpl; intros H; [discriminate|].
  destruct (String.eqb_spec k k') as [->|Hne].
  - now inversion H.
  - now rewrite IH.
Qed.

Lemma enable_instance_registered m instance_id inst b :
  Dict.get instance_id (instances m) = Some inst ->
  enable_instance instance_id b m
  = (Ok tt,
     set_instances
       (Dict.setitem instance_id (set_enabled b inst) (instances m)) m).
Proof.
  intros H. unfold enable_instance.
  unfold bind at 1. unfold read at 1.
  rewrite (dict_contains_get _ _ _ H).
  exact (update_instance_registered m instance_id inst _ H).
Qed.

(** The values of the registry after the entry of one key was changed in
    place. *)
Lemma values_after_update (f : BrowserInstance -> BrowserInstance) (k : string) :
  forall (d : Dict.t BrowserInstance) (inst : BrowserInstance),
    Dict.wf d ->
    Forall (fun kv => fst kv = id (snd kv)) d ->
    Dict.get k d = Some inst ->
    Dict.values (Dict.setitem k (f inst) d)
    = map (fun i => if String.eqb (id i) k then f i else i) (Dict.values d).
Proof.
  unfold Dict.wf.
  induction d as [|[k' v'] rest IH]; intros inst Hnd Hkeys Hget;
    simpl in *; [discriminate|].
  inversion Hnd as [|? ? Hk Hrest]; subst.
  inversion Hkeys as [|? ? Hhead Htail]; subst. simpl in Hhead. subst k'.
  destruct (String.eqb_spec k (id v')) as [->|Hne].
  - inversion Hget; subst v'. simpl. rewrite String.eqb_refl. f_equal.
    clear - Hk Htail. induction rest as [|[k1 v1] rest IH]; [reflexivity|].
    inversion Htail as [|? ? H1 H2]; subst. simpl in *. subst k1.
    destruct (String.eqb_spec (id v1) (id inst)) as [E|E].
    + elim Hk. now left.
    + f_equal. apply IH; tauto.
  - simpl. destruct (String.eqb_spec (id v') k); [congruence|].
    f_equal. now apply IH.
Qed.

Lemma candidates_after_disable (k : string) : forall l : list BrowserInstance,
  enabled_and_ready
    (map (fun i => if String.eqb (id i) k then set_enabled false i else i) l)
  = filter (fun i => negb (String.eqb (id i) k)) (enabled_and_ready l).
Proof.
  induction l as [|a l IH]; simpl; [reflexivity|].
  destruct (String.eqb (id a) k) eqn:E; simpl.
  - destruct (enabled a && is_ready a); simpl; rewrite ?E; simpl; exact IH.
  - destruct (enabled a && is_ready a); simpl; rewrite ?E; simpl;
      now rewrite IH.
Qed.

(** X5.  [enable_instance] on a registered id of a registry filled through
    [add_instance] sets the [enabled] flag and nothing else: counters,
    [is_ready], [last_used], the keys and the other instances stay.
    Disabling takes exactly that instance out of the candidates and keeps
    the others in order; enabling again an instance that was enabled gives
    back the manager as it was. *)
Theorem enable_instance_toggles_candidacy :
  forall (m : MultiInstanceManager) (instance_id : string)
         (inst : BrowserInstance) (b : bool),
    well_formed m ->
    Dict.get instance_id (instances m) = Some inst ->
    enable_instance instance_id b m
    = (Ok tt, exec (enable_instance instance_id b) m)
    /\ Dict.get instance_id (instances (exec (enable_instance instance_id b) m))
       = Some (set_enabled b inst)
    /\ Dict.keys (instances (exec (enable_instance instance_id b) m))
       = Dict.keys (instances m)
    /\ (forall k, k <> instance_id ->
          Dict.get k (instances (exec (enable_instance instance_id b) m))
          = Dict.get k (instances m))
    /\ get_enabled_instances (exec (enable_instance instance_id false) m)
       = filter (fun i => negb (String.eqb (id i) instance_id))
           (get_enabled_instances m)
    /\ (enabled inst = true ->
        exec (enable_instance instance_id true)
          (exec (enable_instance instance_id false) m) = m).
Proof.
  intros m instance_id inst b [Hwf Hkeys] Hget.
  unfold exec. rewrite !(enable_instance_registered m instance_id inst _ Hget).
  simpl.
  split; [reflexivity|].
  split; [apply dict_get_setitem_same|].
  split; [apply dict_keys_setitem_present; eapply dict_get_in_keys; eauto|].
  split; [intros k Hk; now apply dict_get_setitem_other|].
  split.
  - unfold get_enabled_instances. simpl.
    rewrite (values_after_update (set_enabled false) instance_id
               (instances m) inst Hwf Hkeys Hget).
    apply candidates_after_disable.
  - intros Hon.
    erewrite enable_instance_registered
      by (simpl; apply dict_get_setitem_same).
    simpl. rewrite dict_setitem_twice.
    replace (set_enabled true (set_enabled false inst)) with inst
      by (destruct inst; simpl in *; subst; reflexivity).
    rewrite dict_setitem_same_value by exact Hget. now destruct m.
Qed.

(** ** What a selection changes *)

Lemma get_next_instance_outside_round_robin draw m :
  strategy m <> ROUND_ROBIN \/ get_enabled_instances m = [] ->
  snd (get_next_instance draw m) = m.
Proof.
  intros H.
  destruct (get_enabled_instances m) as [|c cs] eqn:E.
  - now rewrite get_next_instance_empty.
  - assert (Hne : get_enabled_instances m <> []) by (rewrite E; discriminate).
    destruct H as [H|H]; [|congruence].
    destruct (strategy m) eqn:Hs; [congruence| |].
    + destruct (get_next_instance_random draw m Hne Hs) as (inst & Hrun & _).
      now rewrite Hrun.
    + now rewrite (get_next_instance_least_connections draw m c cs E Hs).
Qed.

Lemma select_many_outside_round_robin draws : forall m,
  strategy m <> ROUND_ROBIN \/ get_enabled_instances m = [] ->
  snd (select_many draws m) = m.
Proof.
  induction draws as [|d rest IH]; intros m H; simpl; [reflexivity|].
  pose proof (get_next_instance_outside_round_robin d m H) as Hd.
  destruct (get_next_instance d m) as [r m1]. simpl in Hd. subst m1.
  specialize (IH m H). destruct (select_many rest m) as [rs m2].
  exact IH.
Qed.

(** X6.  A selection never touches the registry or the strategy, and it
    moves the cursor only when round robin finds a candidate: under
    [RANDOM] or [LEAST_CONNECTIONS], or with no candidate at all, any run
    of calls leaves the manager exactly as it was.  [RANDOM] returns the
    candidate at place [draw mod length]. *)
Theorem selection_changes_the_cursor_only :
  forall (m : MultiInstanceManager) (draws : list nat),
    instances (snd (select_many draws m)) = instances m
    /\ strategy (snd (select_many draws m)) = strategy m
    /\ (strategy m <> ROUND_ROBIN \/ get_enabled_instances m = [] ->
        snd (select_many draws m) = m)
    /\ (strategy m = RANDOM -> get_enabled_instances m <> [] ->
        forall draw, exists inst,
          get_next_instance draw m = (Ok (Some inst), m)
          /\ nth_error (get_enabled_instances m)
               (draw mod List.length (get_enabled_instances m)) = Some inst).
Proof.
  intros m draws.
  assert (Hkeep : forall ds m0,
    instances (snd (select_many ds m0)) = instances m0
    /\ strategy (snd (select_many ds m0)) = strategy m0).
  { induction ds as [|d rest IH]; intros m0; simpl; [auto|].
    destruct (get_next_instance_cases d m0)
      as [[_ Hrun]|[_ (inst & m1 & Hrun & _ & Hreg & Hst)]]; rewrite Hrun.
    - specialize (IH m0). destruct (select_many rest m0). exact IH.
    - specialize (IH m1). destruct (select_many rest m1). simpl in *.
      destruct IH as [-> ->]. auto. }
  destruct (Hkeep draws m) as [H1 H2].
  split; [exact H1|]. split; [exact H2|].
  split; [apply select_many_outside_round_robin|].
  intros Hs Hne draw. now apply get_next_instance_random.
Qed.

(** X7.  [set_strategy] replaces the strategy and leaves registry and
    cursor alone, so a detour does not disturb the rotation: switch to
    another strategy, select any number of times, switch back, and the
    manager is as before, round robin resuming at the same cursor. *)
Theorem strategy_detour_keeps_the_rotation :
  forall (m : MultiInstanceManager) (s : LoadBalanceStrategy)
         (draws : list nat),
    instances (exec (set_strategy s) m) = instances m
    /\ current_index (exec (set_strategy s) m) = current_index m
    /\ strategy (exec (set_strategy s) m) = s
    /\ (s <> ROUND_ROBIN ->
        exec (set_strategy (strategy m))
          (snd (select_many draws (exec (set_strategy s) m))) = m).
Proof.
  intros m s draws. repeat split.
  intros Hs.
  rewrite select_many_outside_round_robin by (left; exact Hs).
  now destruct m.
Qed.

(** ** Invariants of the manager *)

Lemma well_formed_call c m : well_formed m -> well_formed (exec (call c) m).
Proof.
  intros Hwf. destruct c as [i|k|d|now k|k|s|k b]; simpl.
  - now apply well_formed_add_instance.
  - now apply well_formed_remove_instance.
  - pose proof (well_formed_get_next_instance d m Hwf) as H.
    unfold exec, bind, ret in *.
    destruct (get_next_instance d m) as [[r|e] m1]; exact H.
  - now apply well_formed_mark_request_start.
  - now apply well_formed_mark_request_error.
  - exact Hwf.
  - now apply well_formed_enable_instance.
Qed.

(** X8.  Whatever calls are made on a manager, starting from a new one,
    its registry holds every key once and every instance under its own
    id. *)
Theorem registry_is_keyed_by_id :
  forall (l : list Call) (s : LoadBalanceStrategy),
    well_formed (calls l (init s))
    /\ forall k inst,
         Dict.get k (instances (calls l (init s))) = Some inst -> id inst = k.
Proof.
  intros l s.
  assert (Hwf : well_formed (calls l (init s))).
  { unfold calls. generalize (well_formed_init s).
    generalize (init s) as m.
    induction l as [|c rest IH]; intros m Hm; simpl; [exact Hm|].
    apply IH. now apply well_formed_call. }
  split; [exact Hwf|].
  intros k inst Hget. destruct Hwf as [_ Hkeys].
  symmetry.
  apply (dict_get_forall _ k inst _ Hkeys Hget).
Qed.

(** What one call leaves of an instance it does not register or remove. *)
Lemma call_keeps_instance c m instance_id inst :
  replaces instance_id c = false ->
  Dict.get instance_id (instances m) = Some inst ->
  exists inst',
    Dict.get instance_id (instances (exec (call c) m)) = Some inst'
    /\ id inst' = id inst
    /\ auth_file inst' = auth_file inst
    /\ browser inst' = browser inst
    /\ page inst' = page inst
    /\ ws_endpoint inst' = ws_endpoint inst
    /\ port inst' = port inst
    /\ is_ready inst' = is_ready inst
    /\ (request_count inst <= request_count inst')%Z
    /\ (error_count inst <= error_count inst')%Z.
Proof.
  intros Hrep Hget.
  assert (Hsame : forall m', instances m' = instances m ->
    exists inst',
      Dict.get instance_id (instances m') = Some inst'
      /\ id inst' = id inst /\ auth_file inst' = auth_file inst
      /\ browser inst' = browser inst /\ page inst' = page inst
      /\ ws_endpoint inst' = ws_endpoint inst /\ port inst' = port inst
      /\ is_ready inst' = is_ready inst
      /\ (request_count inst <= request_count inst')%Z
      /\ (error_count inst <= error_count inst')%Z).
  { intros m' E. exists inst. rewrite E. repeat split; auto; lia. }
  assert (Hupd : forall k f,
    (forall i, id (f i) = id i /\ auth_file (f i) = auth_file i
               /\ browser (f i) = browser i /\ page (f i) = page i
               /\ ws_endpoint (f i) = ws_endpoint i /\ port (f i) = port i
               /\ is_ready (f i) = is_ready i
               /\ (request_count i <= request_count (f i))%Z
               /\ (error_count i <= error_count (f i))%Z) ->
    forall v, Dict.get k (instances m) = Some v ->
    exists inst',
      Dict.get instance_id (Dict.setitem k (f v) (instances m)) = Some inst'
      /\ id inst' = id inst /\ auth_file inst' = auth_file inst
      /\ browser inst' = browser inst /\ page inst' = page inst
      /\ ws_endpoint inst' = ws_endpoint inst /\ port inst' = port inst
      /\ is_ready inst' = is_ready inst
      /\ (request_count inst <= request_count inst')%Z
      /\ (error_count inst <= error_count inst')%Z).
  { intros k f Hf v Hv.
    destruct (string_dec instance_id k) as [->|Hne].
    - rewrite dict_get_setitem_same. exists (f v).
      assert (v = inst) by congruence. subst v.
      split; [reflexivity | apply Hf].
    - rewrite dict_get_setitem_other by exact Hne.
      exists inst. repeat split; auto; lia. }
  destruct c as [i0|instance_id0|d|now instance_id0|instance_id0|s
                 |instance_id0 b]; simpl in Hrep; simpl call.
  - unfold exec, add_instance, write. simpl.
    rewrite dict_get_setitem_other
      by (intros E; rewrite E, String.eqb_refl in Hrep; discriminate).
    exists inst. repeat split; auto; lia.
  - unfold exec, remove_instance. run_op.
    destruct (Dict.contains instance_id0 (instances m)); simpl.
    + rewrite dict_get_delitem_other
        by (intros E; rewrite E, String.eqb_refl in Hrep; discriminate).
      exists inst. repeat split; auto; lia.
    + now apply Hsame.
  - apply Hsame. unfold exec, bind, ret.
    destruct (get_next_instance_cases d m)
      as [[_ Hrun]|[_ (i & m1 & Hrun & _ & Hreg & _)]]; rewrite Hrun; auto.
  - destruct (Dict.get instance_id0 (instances m)) as [v|] eqn:E.
    + unfold exec.
      rewrite (mark_request_start_registered m instance_id0 v now E). simpl.
      apply (Hupd instance_id0
               (fun i => set_last_used now
                           (set_request_count (request_count i + 1) i)));
        [|exact E].
      intros i. simpl. repeat split; auto; lia.
    + apply Hsame. unfold exec.
      rewrite mark_request_start_unknown; [reflexivity|].
      unfold Dict.contains. now rewrite E.
  - destruct (Dict.get instance_id0 (instances m)) as [v|] eqn:E.
    + unfold exec.
      rewrite (mark_request_error_registered m instance_id0 v E). simpl.
      apply (Hupd instance_id0
               (fun i => set_error_count (error_count i + 1) i)); [|exact E].
      intros i. simpl. repeat split; auto; lia.
    + apply Hsame. unfold exec.
      rewrite mark_request_error_unknown; [reflexivity|].
      unfold Dict.contains. now rewrite E.
  - now apply Hsame.
  - destruct (Dict.get instance_id0 (instances m)) as [v|] eqn:E.
    + unfold exec.
      rewrite (enable_instance_registered m instance_id0 v b E). simpl.
      apply (Hupd instance_id0 (set_enabled b)); [|exact E].
      intros i. simpl. repeat split; auto; lia.
    + apply Hsame. unfold exec.
      rewrite enable_instance_unknown; [reflexivity|].
      unfold Dict.contains. now rewrite E.
Qed.

(** X9.  Through any calls that neither register nor remove its id, an
    instance stays registered, its [request_count] and [error_count] never
    go down, and its [id], [auth_file], [browser], [page], [ws_endpoint],
    [port] and [is_ready] never change: no call disables readiness or
    evicts, whatever the number of errors. *)
Theorem instance_is_kept_and_counters_grow :
  forall (l : list Call) (m : MultiInstanceManager) (instance_id : string)
         (inst : BrowserInstance),
    forallb (fun c => negb (replaces instance_id c)) l = true ->
    Dict.get instance_id (instances m) = Some inst ->
    exists inst',
      Dict.get instance_id (instances (calls l m)) = Some inst'
      /\ id inst' = id inst
      /\ auth_file inst' = auth_file inst
      /\ browser inst' = browser inst
      /\ page inst' = page inst
      /\ ws_endpoint inst' = ws_endpoint inst
      /\ port inst' = port inst
      /\ is_ready inst' = is_ready inst
      /\ (request_count inst <= request_count inst')%Z
      /\ (error_count inst <= error_count inst')%Z.
Proof.
  induction l as [|c rest IH]; intros m instance_id inst Hall Hget.
  - exists inst. simpl. repeat split; auto; lia.
  - simpl in Hall. apply andb_true_iff in Hall. destruct Hall as [Hc Hrest].
    apply negb_true_iff in Hc.
    destruct (call_keeps_instance c m instance_id inst Hc Hget)
      as (i1 & Hg1 & E1 & E2 & E3 & E4 & E5 & E6 & E7 & L1 & L2).
    destruct (IH (exec (call c) m) instance_id i1 Hrest Hg1)
      as (i2 & Hg2 & F1 & F2 & F3 & F4 & F5 & F6 & F7 & M1 & M2).
    exists i2. simpl. split; [exact Hg2|].
    repeat split; try congruence; lia.
Qed.

(** ** Least connections under load *)

Lemma candidates_after_counting (f : BrowserInstance -> BrowserInstance)
  (k : string) :
  (forall i, enabled (f i) = enabled i /\ is_ready (f i) = is_ready i) ->
  forall l : list BrowserInstance,
    enabled_and_ready
      (map (fun i => if String.eqb (id i) k then f i else i) l)
    = map (fun i => if String.eqb (id i) k then f i else i)
        (enabled_and_ready l).
Proof.
  intros Hf. induction l as [|a l IH]; simpl; [reflexivity|].
  destruct (String.eqb (id a) k) eqn:E.
  - destruct (Hf a) as [-> ->].
    destruct (enabled a && is_ready a); simpl; rewrite ?E, IH; reflexivity.
  - destruct (enabled a && is_ready a); simpl; rewrite ?E, IH; reflexivity.
Qed.

(** One request under least connections, every candidate with a page: the
    first candidate with the fewest requests is counted once more. *)
Lemma serve_one_least_connections state request now d m c cs :
  well_formed m ->
  strategy m = LEAST_CONNECTIONS ->
  get_enabled_instances m = c :: cs ->
  (forall i, In i (c :: cs) -> page i <> None) ->
  let chosen := min_loop request_count c cs in
  let counted := fun i =>
    if String.eqb (id i) (id chosen)
    then set_last_used now (set_request_count (request_count i + 1) i)
    else i in
  exec (initialize_request_context state now d request) m
  = set_instances
      (Dict.setitem (id chosen) (counted chosen) (instances m)) m
  /\ get_enabled_instances
       (exec (initialize_request_context state now d request) m)
     = map counted (c :: cs).
Proof.
  intros Hwf Hs E Hpages chosen counted.
  assert (Hin : In chosen (get_enabled_instances m))
    by (rewrite E; apply min_loop_in).
  pose proof (candidate_is_registered m chosen Hwf Hin) as Hget.
  assert (Hrun : exec (initialize_request_context state now d request) m
                 = set_instances
                     (Dict.setitem (id chosen) (counted chosen) (instances m))
                     m).
  { unfold exec, initialize_request_context, LoadBalancer.get_instance.
    unfold bind at 1. unfold bind at 1.
    rewrite (get_next_instance_least_connections d m c cs E Hs).
    fold chosen. unfold ret at 1. cbv beta iota. unfold usable_page.
    destruct (page chosen) as [p|] eqn:Hp.
    - unfold LoadBalancer.mark_request_start, bind, ret.
      rewrite (mark_request_start_registered m (id chosen) chosen now Hget).
      simpl. unfold counted. now rewrite String.eqb_refl.
    - elim (Hpages chosen); [rewrite <- E; exact Hin | exact Hp]. }
  split; [exact Hrun|].
  rewrite Hrun. unfold get_enabled_instances. simpl.
  destruct Hwf as [Hd Hkeys]. unfold counted at 1. rewrite String.eqb_refl.
  rewrite (values_after_update
             (fun i => set_last_used now
                         (set_request_count (request_count i + 1) i))
             (id chosen) (instances m) chosen Hd Hkeys Hget).
  rewrite candidates_after_counting by (intros i; split; reflexivity).
  fold (get_enabled_instances m). rewrite E. reflexivity.
Qed.

(** X10.  Least connections evens the load out.  On a manager filled
    through [add_instance] whose candidates all have a page, requests
    served by [initialize_request_context] never widen the gap between the
    most and the least used candidate beyond what it was, or beyond one:
    candidates that start level stay within one request of each other.
    The candidates themselves stay the same, in the same order. *)
Theorem least_connections_keeps_the_load_level :
  forall (state : ServerState) (request : ChatCompletionRequest)
         (arrivals : list (Z * nat)) (m : MultiInstanceManager) (n : Z),
    well_formed m ->
    strategy m = LEAST_CONNECTIONS ->
    (forall i, In i (get_enabled_instances m) -> page i <> None) ->
    (1 <= n)%Z ->
    spread_within n (get_enabled_instances m) ->
    spread_within n (get_enabled_instances (serve state request arrivals m))
    /\ map id (get_enabled_instances (serve state request arrivals m))
       = map id (get_enabled_instances m).
Proof.
  intros state request arrivals.
  induction arrivals as [|[now d] rest IH];
    intros m n Hwf Hs Hpages Hn Hspread; simpl; [auto|].
  set (m1 := exec (initialize_request_context state now d request) m).
  assert (Hwf1 : well_formed m1 /\ strategy m1 = LEAST_CONNECTIONS
                 /\ (forall i, In i (get_enabled_instances m1) -> page i <> None)
                 /\ spread_within n (get_enabled_instances m1)
                 /\ map id (get_enabled_instances m1)
                    = map id (get_enabled_instances m)).
  { destruct (get_enabled_instances m) as [|c cs] eqn:E.
    - assert (Hm1 : m1 = m).
      { unfold m1, exec, initialize_request_context, LoadBalancer.get_instance.
        unfold bind at 1. unfold bind at 1.
        now rewrite (get_next_instance_empty d m E). }
      rewrite Hm1, E.
      split; [exact Hwf|]. split; [exact Hs|].
      split; [intros i []|]. split; [intros x y [] | reflexivity].
    - destruct (serve_one_least_connections state request now d m c cs
                  Hwf Hs E Hpages) as [Hrun Hcands].
      fold m1 in Hrun, Hcands.
      set (chosen := min_loop request_count c cs) in *.
      assert (Hin : In chosen (get_enabled_instances m))
        by (rewrite E; apply min_loop_in).
      pose proof (candidate_is_registered m chosen Hwf Hin) as Hget.
      assert (Hmin : forall y, In y (c :: cs) ->
                (request_count chosen <= request_count y)%Z).
      { destruct (min_loop_first_minimum request_count cs [] [] c
                    (fun y (H : In y []) => match H with end)
                    (fun y (H : In y []) => match H with end))
          as (pre & post & Hsplit & Hpre & Hpost).
        simpl in Hsplit. fold chosen in Hsplit, Hpre, Hpost.
        intros y0 Hy. rewrite Hsplit in Hy. apply in_app_iff in Hy.
        destruct Hy as [Hy|[<-|Hy]];
          [specialize (Hpre y0 Hy) | | specialize (Hpost y0 Hy)]; lia. }
      assert (Hsame : forall x, In x (c :: cs) -> id x = id chosen ->
                x = chosen).
      { intros x Hx Hid. rewrite <- E in Hx.
        pose proof (candidate_is_registered m x Hwf Hx) as Hgx.
        rewrite Hid in Hgx. congruence. }
      split.
      { rewrite Hrun. destruct Hwf as [Hd Hkeys]. split; simpl.
        - now apply dict_wf_setitem.
        - apply dict_forall_setitem; [exact Hkeys|]. simpl.
          now rewrite String.eqb_refl. }
      split; [now rewrite Hrun|].
      rewrite Hcands.
      split.
      { intros i Hi. apply in_map_iff in Hi. destruct Hi as (x & <- & Hx).
        destruct (String.eqb (id x) (id chosen)); simpl; now apply Hpages. }
      split.
      { intros x' y' Hx' Hy'.
        apply in_map_iff in Hx'. destruct Hx' as (x & <- & Hx).
        apply in_map_iff in Hy'. destruct Hy' as (y & <- & Hy).
        pose proof (Hspread x y Hx Hy) as Hxy.
        pose proof (Hmin y Hy) as Hmy.
        destruct (String.eqb_spec (id x) (id chosen)) as [Ex|Ex];
          destruct (String.eqb_spec (id y) (id chosen)) as [Ey|Ey]; simpl;
          try (pose proof (Hsame x Hx Ex); subst x);
          try (pose proof (Hsame y Hy Ey); subst y); lia. }
      rewrite map_map. apply map_ext. intros x.
      now destruct (String.eqb (id x) (id chosen)). }
  destruct Hwf1 as (Hw & Hs1 & Hp1 & Hsp1 & Hids).
  destruct (IH m1 n Hw Hs1 Hp1 Hn Hsp1) as [H1 H2].
  split; [exact H1 | congruence].
Qed.

(* ===================================================================== *)
(** * Properties of the configuration router *)
(* ===================================================================== *)

Import PyStr ConfigRouter.

(** ** The access checks *)

(** X11.  The three access checks ([config.py], [api_keys.py],
    [config_page.py]) decide alike, and only ever return [True] or raise
    401.  With no key configured every request passes.  With keys
    configured, a non-empty token after ["Bearer "] in [Authorization] is
    the key that is verified, whatever [X-API-Key] says; when
    [Authorization] is missing, has another scheme or carries an empty
    token, the key is [X-API-Key], and a missing or empty one is
    refused. *)
Theorem access_checks_verify_bearer_then_x_api_key :
  forall (API_KEYS : list string) (verify_api_key : string -> bool)
         (headers : string -> option string),
    verify_api_key_access API_KEYS verify_api_key headers
    = verify_config_access API_KEYS verify_api_key headers
    /\ verify_config_page_access API_KEYS verify_api_key headers
       = verify_config_access API_KEYS verify_api_key headers
    /\ (verify_config_access API_KEYS verify_api_key headers = Returned true
        \/ verify_config_access API_KEYS verify_api_key headers
           = HTTPException 401)
    /\ (API_KEYS = [] ->
        verify_config_access API_KEYS verify_api_key headers = Returned true)
    /\ (API_KEYS <> [] ->
        (forall token,
           token <> EmptyString ->
           headers "Authorization"%string = Some ("Bearer " ++ token)%string ->
           verify_config_access API_KEYS verify_api_key headers
           = if verify_api_key token then Returned true
             else HTTPException 401)
        /\ (headers "Authorization"%string = None
            \/ headers "Authorization"%string = Some "Bearer "%string
            \/ (exists h, headers "Authorization"%string = Some h
                          /\ startswith "Bearer " h = false) ->
            verify_config_access API_KEYS verify_api_key headers
            = match headers "X-API-Key"%string with
              | Some key =>
                  if truthy key && verify_api_key key then Returned true
                  else HTTPException 401
              | None => HTTPException 401
              end)).
Proof.
  intros API_KEYS verify_api_key headers.
  split; [reflexivity|]. split; [reflexivity|].
  unfold verify_config_access.
  destruct API_KEYS as [|k ks]; simpl.
  { split; [now left|]. split; [reflexivity|]. intros H. now elim H. }
  assert (Hx : forall o : option string,
    match o with
    | Some key =>
        if negb (truthy key) || negb (verify_api_key key)
        then @HTTPException bool 401 else Returned true
    | None => HTTPException 401
    end
    = match o with
      | Some key =>
          if truthy key && verify_api_key key then Returned true
          else HTTPException 401
      | None => HTTPException 401
      end).
  { intros [key|]; [|reflexivity].
    destruct (truthy key), (verify_api_key key); reflexivity. }
  split.
  { rewrite Hx.
    match goal with
    | |- context [match ?o with Some _ => _ | None => _ end = Returned true] =>
        destruct o as [key|]
    end; [|now right].
    destruct (truthy key && verify_api_key key); [now left | now right]. }
  split; [discriminate|]. intros _. split.
  - intros token Htok Hauth. rewrite Hauth. simpl.
    destruct token as [|a t]; [congruence|]. simpl.
    destruct (verify_api_key (String a t)); reflexivity.
  - intros [Hnone|[Hempty|(h & Hh & Hpre)]].
    + rewrite Hnone. simpl. apply Hx.
    + rewrite Hempty. simpl. apply Hx.
    + rewrite Hh, Hpre, andb_false_r. simpl. apply Hx.
Qed.

(** ** The strategy endpoint *)

Lemma strategy_of_value_round_trip s :
  strategy_of_value (JStr (strategy_value s)) = Ok s.
Proof. destruct s; reflexivity. Qed.

Lemma strategy_of_value_accepts v s :
  strategy_of_value v = Ok s -> v = JStr (strategy_value s).
Proof.
  destruct v as [|b|z|fz|str|l|d]; simpl; try discriminate.
  destruct (String.eqb_spec str "round_robin") as [->|_];
    [intros H; now inversion H|].
  destruct (String.eqb_spec str "random") as [->|_];
    [intros H; now inversion H|].
  destruct (String.eqb_spec str "least_connections") as [->|_];
    [intros H; now inversion H | discriminate].
Qed.

(** X12.  [set_load_balance_strategy] accepts exactly the three strategy
    names: given one of them it sets that strategy and changes nothing
    else; a request with no [strategy], an empty or false one, another
    string or a value that is no string is answered 400 and the manager
    is untouched.  Sending back the name that [get_load_balance_config]
    reports leaves the manager as it is. *)
Theorem strategy_endpoint_accepts_the_three_names :
  forall (request : Dict.t Json) (m : MultiInstanceManager),
    (forall s,
       Dict.get "strategy" request = Some (JStr (strategy_value s)) ->
       set_load_balance_strategy request m
       = (Ok (Returned tt), mkManager (instances m) s (current_index m)))
    /\ ((forall s,
           Dict.get "strategy" request <> Some (JStr (strategy_value s))) ->
        set_load_balance_strategy request m = (Ok (HTTPException 400), m))
    /\ (forall cfg,
          result get_load_balance_config m = Ok cfg ->
          set_load_balance_strategy
            [("strategy"%string, JStr (config_strategy cfg))] m
          = (Ok (Returned tt), m)).
Proof.
  intros request m. split; [|split].
  - intros s Hget. unfold set_load_balance_strategy. rewrite Hget.
    rewrite strategy_of_value_round_trip.
    destruct s; reflexivity.
  - intros Hnot. unfold set_load_balance_strategy.
    destruct (Dict.get "strategy" request) as [v|] eqn:Hget; [|reflexivity].
    destruct (json_truthy v); [|reflexivity]. simpl.
    destruct (strategy_of_value v) as [s|e] eqn:Hs.
    + apply strategy_of_value_accepts in Hs. subst v. now elim (Hnot s).
    + destruct v as [|b|z|fz|str|l|d]; simpl in Hs;
        try (inversion Hs; subst e; reflexivity).
      destruct (String.eqb str "round_robin"); [discriminate|].
      destruct (String.eqb str "random"); [discriminate|].
      destruct (String.eqb str "least_connections"); [discriminate|].
      inversion Hs; subst e. reflexivity.
  - intros cfg Hcfg. unfold result, get_load_balance_config in Hcfg.
    run_op. simpl in Hcfg. inversion Hcfg; subst cfg. simpl.
    unfold set_load_balance_strategy. simpl.
    destruct m as [d s c]. destruct s; reflexivity.
Qed.

(** ** Enabling through the router *)

(** X13.  The router's [enable_instance] always answers with success, also
    for an id that is not registered, in which case the manager is
    untouched.  For a registered id the entry that [get_stats] reports
    afterwards carries the new [enabled] flag and the counters as they
    were. *)
Theorem enable_endpoint_never_reports_a_missing_instance :
  forall (instance_id : string) (b : bool) (m : MultiInstanceManager),
    exists m',
      enable_instance_endpoint instance_id b m = (Ok (Returned tt), m')
      /\ (~ In instance_id (Dict.keys (instances m)) -> m' = m)
      /\ (forall inst,
            Dict.wf (instances m) ->
            Dict.get instance_id (instances m) = Some inst ->
            exists entry,
              Dict.get instance_id (get_stats m') = Some entry
              /\ Dict.get "enabled" entry = Some (VBool b)
              /\ Dict.get "is_ready" entry = Some (VBool (is_ready inst))
              /\ Dict.get "request_count" entry
                 = Some (VInt (request_count inst))
              /\ Dict.get "error_count" entry
                 = Some (VInt (error_count inst))).
Proof.
  intros instance_id b m. unfold enable_instance_endpoint.
  destruct (Dict.get instance_id (instances m)) as [inst|] eqn:E.
  - eexists. unfold bind.
    rewrite (enable_instance_registered m instance_id inst b E).
    split; [reflexivity|]. split.
    + intros Hout. apply dict_get_none_iff in Hout. congruence.
    + intros inst0 Hwf Hget. inversion Hget; subst inst0.
      exists (stats_entry (set_enabled b inst)).
      rewrite get_stats_entries by (simpl; now apply dict_wf_setitem).
      rewrite dict_get_map_values. simpl.
      rewrite dict_get_setitem_same. simpl. auto.
  - exists m. unfold bind.
    rewrite enable_instance_unknown
      by (unfold Dict.contains; now rewrite E).
    split; [reflexivity|]. split; [reflexivity|].
    intros inst _ Hget. discriminate.
Qed.

(** ** The authentication files *)

Lemma mem_iff x seen : mem x seen = true <-> In x seen.
Proof.
  unfold mem. rewrite existsb_exists. split.
  - intros (y & Hy & E). apply String.eqb_eq in E. now subst.
  - intros H. exists x. split; [exact H | apply String.eqb_refl].
Qed.

(** What one scan adds to the listing. *)
Lemma scan_auth_files_adds stat_size : forall files acc seen,
  (forall x, In x seen <-> In x (map filename acc)) ->
  NoDup (map filename acc) ->
  (forall x, In x (snd (scan_auth_files stat_size files acc seen))
             <-> In x (map filename
                         (fst (scan_auth_files stat_size files acc seen))))
  /\ NoDup (map filename (fst (scan_auth_files stat_size files acc seen)))
  /\ (exists more,
        fst (scan_auth_files stat_size files acc seen) = acc ++ more
        /\ forall e, In e more ->
             filename e = basename (path e)
             /\ stat_size (path e) = Some (size e)
             /\ file_enabled e = true
             /\ In (path e) files)
  /\ (forall f, In f files -> stat_size f <> None ->
        In (basename f)
          (map filename (fst (scan_auth_files stat_size files acc seen)))).
Proof.
  induction files as [|f rest IH]; intros acc seen Hseen Hnd; simpl.
  - repeat split; try apply Hseen; auto.
    + exists []. rewrite app_nil_r. split; [reflexivity | intros e []].
    + intros f [].
  - destruct (mem (basename f) seen) eqn:Hmem; simpl.
    + destruct (IH acc seen Hseen Hnd) as (H1 & H2 & (more & Hm & Hs) & H4).
      split; [exact H1|]. split; [exact H2|]. split.
      * exists more. split; [exact Hm|]. intros e He.
        destruct (Hs e He) as (A & B & C & D). auto.
      * intros g [<-|Hg] Hstat; [|now apply H4].
        rewrite Hm, map_app, in_app_iff. left.
        apply Hseen. now apply mem_iff.
    + assert (Hnew : ~ In (basename f) (map filename acc)).
      { intros Hin. apply Hseen, mem_iff in Hin. congruence. }
      destruct (stat_size f) as [sz|] eqn:Hstat.
      * set (e := mkAuthFileInfo (basename f) f sz true).
        destruct (IH (acc ++ [e]) (basename f :: seen))
          as (H1 & H2 & (more & Hm & Hs) & H4).
        { intros x. rewrite map_app, in_app_iff. simpl.
          rewrite (Hseen x). tauto. }
        { rewrite map_app. simpl. now apply nodup_snoc. }
        split; [exact H1|]. split; [exact H2|]. split.
        -- exists (e :: more). rewrite Hm, <- app_assoc.
           split; [reflexivity|].
           intros e' [<-|He'].
           ++ simpl. auto.
           ++ destruct (Hs e' He') as (A & B & C & D). auto.
        -- intros g [<-|Hg] Hok; [|now apply H4].
           rewrite Hm, !map_app, !in_app_iff. left. right. now left.
      * destruct (IH acc seen Hseen Hnd) as (H1 & H2 & (more & Hm & Hs) & H4).
        split; [exact H1|]. split; [exact H2|]. split.
        -- exists more. split; [exact Hm|]. intros e He.
           destruct (Hs e He) as (A & B & C & D). auto.
        -- intros g [<-|Hg] Hok; [congruence | now apply H4].
Qed.

(** X14.  [list_auth_files] lists every base name once.  Each entry names
    a file that [glob] found in one of the two directories, with its base
    name, the size [os.stat] gave and [enabled] set; every file whose
    [os.stat] goes through has its base name in the listing; and a name
    that is in the [saved] directory is listed with its [saved] path, a
    file of the same name in [active] being left out. *)
Theorem list_auth_files_lists_each_name_once :
  forall (saved active : option (list string))
         (stat_size : string -> option Z),
    NoDup (map filename (list_auth_files saved active stat_size))
    /\ (forall e, In e (list_auth_files saved active stat_size) ->
          filename e = basename (path e)
          /\ stat_size (path e) = Some (size e)
          /\ file_enabled e = true
          /\ In (path e) (glob_result saved ++ glob_result active))
    /\ (forall f, In f (glob_result saved ++ glob_result active) ->
          stat_size f <> None ->
          In (basename f)
            (map filename (list_auth_files saved active stat_size)))
    /\ (forall f, In f (glob_result saved) -> stat_size f <> None ->
          exists e,
            In e (list_auth_files saved active stat_size)
            /\ filename e = basename f
            /\ In (path e) (glob_result saved)).
Proof.
  intros saved active stat_size.
  assert (Hstart : (forall x : string, In x [] <-> In x (map filename []))
                   /\ NoDup (map filename [])) by (split; [tauto | constructor]).
  destruct Hstart as [Hs0 Hn0].
  pose proof (scan_auth_files_adds stat_size (glob_result saved) [] [] Hs0 Hn0)
    as (S1 & S2 & (more1 & Sm & Ss) & S4).
  simpl in Sm.
  set (after_saved :=
         match saved with
         | Some files => scan_auth_files stat_size files [] []
         | None => ([], [])
         end).
  assert (Eafter : after_saved
                   = scan_auth_files stat_size (glob_result saved) [] [])
    by (unfold after_saved; destruct saved; reflexivity).
  pose proof (scan_auth_files_adds stat_size (glob_result active)
                (fst after_saved) (snd after_saved)) as Hact.
  rewrite Eafter in Hact. specialize (Hact S1 S2).
  destruct Hact as (A1 & A2 & (more2 & Am & As) & A4).
  assert (Elist : list_auth_files saved active stat_size
                  = fst (scan_auth_files stat_size (glob_result active)
                           (fst after_saved) (snd after_saved))).
  { unfold list_auth_files. fold after_saved.
    destruct active as [files|]; reflexivity. }
  rewrite Eafter in Elist. rewrite Elist.
  split; [exact A2|]. split; [|split].
  - intros e He. rewrite Am, Sm in He. apply in_app_iff in He.
    rewrite in_app_iff.
    destruct He as [He|He].
    + destruct (Ss e He) as (B1 & B2 & B3 & B4). auto.
    + destruct (As e He) as (B1 & B2 & B3 & B4). auto.
  - intros f Hf Hok. apply in_app_iff in Hf. destruct Hf as [Hf|Hf].
    + rewrite Am, map_app, in_app_iff. left. now apply S4.
    + now apply A4.
  - intros f Hf Hok.
    pose proof (S4 f Hf Hok) as Hin. rewrite Sm in Hin.
    apply in_map_iff in Hin. destruct Hin as (e & He1 & He2).
    exists e. split; [|split].
    + rewrite Am, Sm, in_app_iff. now left.
    + exact He1.
    + now destruct (Ss e He2) as (_ & _ & _ & B4).
Qed.

(** ** The path check of [delete_auth_file] *)

Lemma startswith_app (p t : string) : startswith p (p ++ t) = true.
Proof.
  induction p as [|a p IH]; simpl; [reflexivity|].
  now rewrite Ascii.eqb_refl, IH.
Qed.

Lemma startswith_refl_join (a name : string) :
  startswith "/" name = false -> startswith a (path_join a name) = true.
Proof.
  intros Hrel. unfold path_join. rewrite Hrel.
  destruct (negb (truthy a) || endswith_sep a); apply startswith_app.
Qed.

Lemma startswith_root (a p : string) :
  startswith "/" a = true -> startswith a p = true ->
  startswith "/" p = true.
Proof.
  destruct a as [|x a]; [discriminate|]. destruct p as [|y p]; [discriminate|].
  cbn [startswith]. rewrite !andb_true_r. intros Hx H.
  apply andb_true_iff in H. destruct H as [H _].
  apply Ascii.eqb_eq in Hx. apply Ascii.eqb_eq in H. subst.
  apply Ascii.eqb_refl.
Qed.

Lemma path_join_relative (a name : string) :
  startswith "/" a = false -> startswith "/" name = false ->
  startswith "/" (path_join a name) = false.
Proof.
  intros Ha Hn. unfold path_join. rewrite Hn.
  destruct a as [|x a]; [exact Hn|].
  cbn [truthy negb orb].
  destruct (endswith_sep (String x a)); exact Ha.
Qed.

(** X15.  The check that guards [delete_auth_file] compares text only.
    When [SAVED_AUTH_DIR] is already the absolute path, every relative
    file name passes it, whatever it contains, and the answer is 404, 500
    or success as the file system says.  An absolute file name is refused
    with 403 unless it begins with the absolute directory.  When
    [SAVED_AUTH_DIR] is a relative path, every relative file name is
    refused with 403. *)
Theorem delete_auth_file_checks_the_prefix_only :
  forall (SAVED_AUTH_DIR saved_abspath : string)
         (path_exists remove_succeeds : string -> bool) (name : string),
    startswith "/" saved_abspath = true ->
    (SAVED_AUTH_DIR = saved_abspath ->
     startswith "/" name = false ->
     delete_auth_file SAVED_AUTH_DIR saved_abspath path_exists
       remove_succeeds name
     = if negb (path_exists (path_join SAVED_AUTH_DIR name))
       then HTTPException 404
       else if remove_succeeds (path_join SAVED_AUTH_DIR name)
            then Returned tt else HTTPException 500)
    /\ (startswith "/" name = true ->
        startswith saved_abspath name = false ->
        delete_auth_file SAVED_AUTH_DIR saved_abspath path_exists
          remove_succeeds name
        = HTTPException 403)
    /\ (startswith "/" SAVED_AUTH_DIR = false ->
        startswith "/" name = false ->
        delete_auth_file SAVED_AUTH_DIR saved_abspath path_exists
          remove_succeeds name
        = HTTPException 403).
Proof.
  intros dir abs path_exists remove_succeeds name Habs.
  unfold delete_auth_file. split; [|split].
  - intros -> Hrel. now rewrite startswith_refl_join.
  - intros Hname Hout. unfold path_join. rewrite Hname, Hout. reflexivity.
  - intros Hdir Hrel.
    destruct (startswith abs (path_join dir name)) eqn:E; [|reflexivity].
    pose proof (startswith_root abs _ Habs E) as Hroot.
    rewrite (path_join_relative dir name Hdir Hrel) in Hroot. discriminate.
Qed.

(* ===================================================================== *)
(** * Properties of the initialisation *)
(* ===================================================================== *)

Import MultiInstanceInit.

Lemma decimal_injective n1 n2 : decimal n1 = decimal n2 -> n1 = n2.
Proof.
  unfold decimal. intros H.
  assert (Hu : Nat.to_uint n1 = Nat.to_uint n2).
  { pose proof (DecimalString.NilEmpty.usu (Nat.to_uint n1)) as H1.
    pose proof (DecimalString.NilEmpty.usu (Nat.to_uint n2)) as H2.
    rewrite H in H1. congruence. }
  rewrite <- (DecimalNat.Unsigned.of_to n1), <- (DecimalNat.Unsigned.of_to n2).
  now rewrite Hu.
Qed.

Lemma instance_name_injective n1 n2 :
  instance_name n1 = instance_name n2 -> n1 = n2.
Proof.
  unfold instance_name. simpl. intros H. apply decimal_injective.
  now inversion H.
Qed.

Lemma bring_up_all_registers (file_exists : string -> bool) (ws_endpoint_env : option string)
  (bring_up : nat -> string -> option (Handle * option Handle))
  (clock : nat -> Z) (base_port : Z) :
  forall auth_files idx n m,
  bring_up_all file_exists ws_endpoint_env bring_up clock base_port
    idx auth_files n m
  = (Ok (n + List.length
             (brought_up file_exists ws_endpoint_env bring_up clock
                base_port idx auth_files)),
     register_all
       (brought_up file_exists ws_endpoint_env bring_up clock base_port
          idx auth_files) m).
Proof.
  induction auth_files as [|f rest IH]; intros idx n m; simpl.
  - unfold ret. now rewrite Nat.add_0_r.
  - destruct (file_exists f); simpl; [|apply IH].
    destruct ws_endpoint_env as [ws|]; simpl; [|apply IH].
    destruct (truthy ws) eqn:Hws; simpl.
    + destruct (bring_up idx f) as [[browser page]|]; [|apply IH].
      unfold bind, add_instance, write at 1. rewrite IH. simpl.
      now rewrite Nat.add_succ_r.
    + destruct (bring_up idx f) as [[browser page]|]; apply IH.
Qed.

Lemma brought_up_names (file_exists : string -> bool) (ws_endpoint_env : option string)
  (bring_up : nat -> string -> option (Handle * option Handle))
  (clock : nat -> Z) (base_port : Z) :
  forall auth_files idx i,
  In i (brought_up file_exists ws_endpoint_env bring_up clock base_port
          idx auth_files) ->
  (exists j, idx <= j /\ id i = instance_name j)
  /\ enabled i = true /\ is_ready i = true
  /\ request_count i = 0%Z /\ error_count i = 0%Z.
Proof.
  induction auth_files as [|f rest IH]; intros idx i Hi; simpl in Hi;
    [contradiction|].
  assert (Hrest : In i (brought_up file_exists ws_endpoint_env bring_up clock
                          base_port (S idx) rest) ->
          (exists j, idx <= j /\ id i = instance_name j)
          /\ enabled i = true /\ is_ready i = true
          /\ request_count i = 0%Z /\ error_count i = 0%Z).
  { intros H. destruct (IH (S idx) i H) as ((j & Hj & E) & Hflags).
    split; [exists j; split; [lia | exact E] | exact Hflags]. }
  destruct (file_exists f); [|auto].
  destruct ws_endpoint_env as [ws|]; [|auto].
  destruct (bring_up idx f) as [[browser page]|]; [|auto].
  destruct (truthy ws); [|auto].
  destruct Hi as [<-|Hi]; [|auto].
  simpl. split; [exists idx; split; [lia | reflexivity] | auto].
Qed.

Lemma brought_up_distinct (file_exists : string -> bool) (ws_endpoint_env : option string)
  (bring_up : nat -> string -> option (Handle * option Handle))
  (clock : nat -> Z) (base_port : Z) :
  forall auth_files idx,
  NoDup (map id (brought_up file_exists ws_endpoint_env bring_up clock
                   base_port idx auth_files)).
Proof.
  induction auth_files as [|f rest IH]; intros idx; simpl; [constructor|].
  destruct (file_exists f); [|apply IH].
  destruct ws_endpoint_env as [ws|]; [|apply IH].
  destruct (bring_up idx f) as [[browser page]|]; [|apply IH].
  destruct (truthy ws); [|apply IH].
  simpl. constructor; [|apply IH].
  intros Hin. apply in_map_iff in Hin. destruct Hin as (i & Hid & Hi).
  destruct (brought_up_names _ _ _ _ _ rest (S idx) i Hi) as ((j & Hj & E) & _).
  rewrite E in Hid. apply instance_name_injective in Hid. lia.
Qed.

(** X16.  [initialize_multiple_browsers] on a new manager registers one
    instance per file that exists and whose browser came up, in the order
    of the files, under ids [instance_<idx>] that never collide, so no
    instance overwrites another.  Every registered instance is a candidate
    with both counters at zero, and the function returns [True] exactly
    when it registered one.  With multi-instance mode off only the first
    file is tried: at most one instance is registered, and none when that
    file fails, whatever the other files would do. *)
Theorem initialize_multiple_browsers_registers_what_came_up :
  forall (saved active : option (list string))
         (file_exists : string -> bool) (use_multi_instance : bool)
         (ws_endpoint_env : option string)
         (bring_up : nat -> string -> option (Handle * option Handle))
         (clock : nat -> Z) (base_port : Z)
         (auth_files : option (list string)) (s : LoadBalanceStrategy),
    let tried := files_to_try saved active use_multi_instance auth_files in
    let insts := brought_up file_exists ws_endpoint_env bring_up clock
                   base_port 0 tried in
    let run := initialize_multiple_browsers saved active file_exists
                 use_multi_instance ws_endpoint_env bring_up clock
                 auth_files base_port (init s) in
    fst run = Ok (negb (is_empty insts))
    /\ instances (snd run) = map (fun i => (id i, i)) insts
    /\ get_enabled_instances (snd run) = insts
    /\ well_formed (snd run)
    /\ NoDup (map id insts)
    /\ (forall i, In i insts ->
          request_count i = 0%Z /\ error_count i = 0%Z)
    /\ (use_multi_instance = false ->
        List.length insts <= 1
        /\ insts = brought_up file_exists ws_endpoint_env bring_up clock
                     base_port 0 (firstn 1 tried)).
Proof.
  intros saved active file_exists use_multi_instance ws_endpoint_env
    bring_up clock base_port auth_files s tried insts run.
  assert (Hrun : run = (Ok (negb (is_empty insts)),
                        register_all insts (init s))).
  { unfold run, initialize_multiple_browsers.
    assert (Hloop : forall l,
      (success_count <-
         bring_up_all file_exists ws_endpoint_env bring_up clock base_port
           0 l 0 ;;
       ret (0 <? success_count)%nat)%op (init s)
      = (Ok (negb (is_empty
                     (brought_up file_exists ws_endpoint_env bring_up clock
                        base_port 0 l))),
         register_all
           (brought_up file_exists ws_endpoint_env bring_up clock base_port
              0 l) (init s))).
    { intros l. unfold bind. rewrite bring_up_all_registers.
      unfold ret. simpl.
      now destruct (brought_up file_exists ws_endpoint_env bring_up clock
                      base_port 0 l). }
    unfold insts, tried, files_to_try.
    destruct auth_files as [l|]; [apply Hloop|].
    destruct (discover_auth_files saved active) as [|f fs] eqn:E; simpl.
    - unfold ret. destruct (negb use_multi_instance); reflexivity.
    - apply Hloop. }
  pose proof (brought_up_distinct file_exists ws_endpoint_env bring_up clock
                base_port tried 0) as Hnd. fold insts in Hnd.
  destruct (register_all_instances insts (init s) Hnd) as (Ereg & Es & Ec);
    [intros i _ []|].
  rewrite Hrun. simpl fst. simpl snd.
  split; [reflexivity|]. split; [exact Ereg|]. split.
  { unfold get_enabled_instances.
    rewrite register_all_init_values by exact Hnd.
    apply enabled_and_ready_all. intros i Hi.
    now destruct (brought_up_names _ _ _ _ _ tried 0 i Hi) as (_ & He & Hr & _). }
  split.
  { unfold well_formed. rewrite Ereg. simpl. split.
    - unfold Dict.wf, Dict.keys. rewrite map_map. simpl. exact Hnd.
    - apply Forall_forall. intros kv Hkv. apply in_map_iff in Hkv.
      destruct Hkv as (i & <- & _). reflexivity. }
  split; [exact Hnd|]. split.
  { intros i Hi.
    now destruct (brought_up_names _ _ _ _ _ tried 0 i Hi) as (_ & _ & _ & H1 & H2). }
  intros Hsingle.
  assert (Hshort : firstn 1 tried = tried).
  { unfold tried, files_to_try. rewrite Hsingle. simpl.
    destruct (match auth_files with
              | Some l => l
              | None => discover_auth_files saved active
              end) as [|a [|b l]]; reflexivity. }
  split; [|unfold insts; now rewrite Hshort].
  unfold insts. rewrite <- Hshort.
  destruct tried as [|a l]; simpl; [lia|].
  destruct (file_exists a); [|simpl; lia].
  destruct ws_endpoint_env as [ws|]; [|simpl; lia].
  destruct (bring_up 0 a) as [[browser page]|]; [|simpl; lia].
  destruct (truthy ws); simpl; lia.
Qed.


(** ** Finding the authentication files *)

Lemma add_unseen_adds : forall files acc seen,
  (forall x, In x seen <-> In x (map basename acc)) ->
  exists extra,
    add_unseen files acc seen = acc ++ extra
    /\ (forall f, In f extra ->
          In f files /\ ~ In (basename f) (map basename acc))
    /\ NoDup (map basename extra)
    /\ (forall f, In f files ->
          In (basename f) (map basename (acc ++ extra))).
Proof.
  induction files as [|f rest IH]; intros acc seen Hseen; simpl.
  - exists []. rewrite app_nil_r.
    split; [reflexivity|]. split; [intros g []|].
    split; [constructor | intros g []].
  - destruct (mem (basename f) seen) eqn:Hmem; simpl.
    + destruct (IH acc seen Hseen) as (extra & E & H1 & H2 & H3).
      exists extra. split; [exact E|]. split; [|split; [exact H2|]].
      * intros g Hg. destruct (H1 g Hg). auto.
      * intros g [<-|Hg]; [|now apply H3].
        rewrite map_app, in_app_iff. left. apply Hseen. now apply mem_iff.
    + assert (Hnew : ~ In (basename f) (map basename acc)).
      { intros Hin. apply Hseen, mem_iff in Hin. congruence. }
      destruct (IH (acc ++ [f]) (basename f :: seen))
        as (extra & E & H1 & H2 & H3).
      { intros x. rewrite map_app, in_app_iff. simpl.
        rewrite (Hseen x). tauto. }
      exists (f :: extra). rewrite E, <- app_assoc.
      split; [reflexivity|]. split; [|split].
      * intros g [<-|Hg]; [auto|].
        destruct (H1 g Hg) as [Hin Hout]. split; [now right|].
        intros Hb. apply Hout. rewrite map_app, in_app_iff. now left.
      * simpl. constructor; [|exact H2].
        intros Hin. apply in_map_iff in Hin. destruct Hin as (g & Hb & Hg).
        destruct (H1 g Hg) as [_ Hout]. apply Hout.
        rewrite map_app, in_app_iff. right. simpl. now left.
      * intros g [<-|Hg].
        -- rewrite map_app, in_app_iff. right. simpl. now left.
        -- specialize (H3 g Hg). now rewrite <- app_assoc in H3.
Qed.

(** X17.  The files that [initialize_multiple_browsers] finds by itself
    are all the files of [saved], in [glob] order, followed by those files
    of [active] whose base name is in neither [saved] nor earlier in
    [active]: every file of [active] is there by name, none twice, and a
    name that is in both directories is taken from [saved]. *)
Theorem discover_auth_files_prefers_saved :
  forall saved active : option (list string),
    exists extra,
      discover_auth_files saved active = glob_result saved ++ extra
      /\ (forall f, In f extra ->
            In f (glob_result active)
            /\ ~ In (basename f) (map basename (glob_result saved)))
      /\ NoDup (map basename extra)
      /\ (forall f, In f (glob_result active) ->
            In (basename f)
              (map basename (discover_auth_files saved active))).
Proof.
  intros saved active. unfold discover_auth_files.
  change (match saved with Some files => files | None => [] end)
    with (glob_result saved).
  destruct active as [files|]; simpl.
  - destruct (add_unseen_adds files (glob_result saved)
                (map basename (glob_result saved)))
      as (extra & E & H1 & H2 & H3); [tauto|].
    exists extra. rewrite E. auto.
  - exists []. rewrite app_nil_r.
    split; [reflexivity|]. split; [intros f []|].
    split; [constructor | intros f []].
Qed.

(** ** The single-instance fallback *)

(** X18.  [initialize_single_browser_fallback] either registers the one
    instance ["default"], ready, enabled and with both counters at zero,
    and returns [True], or returns [False] and leaves the manager
    untouched; it returns [False] whenever the endpoint variable is unset
    or empty, the browser did not come up or the port is no number.  After
    a [True] on a new manager the instance is the only candidate, so every
    selection returns it, whatever the strategy. *)
Theorem single_fallback_registers_default_or_nothing :
  forall (ws_endpoint_env : option string) (clock : nat -> Z)
         (bring_up_default : option (Handle * option Handle))
         (default_port : option Z) (auth_file : option string)
         (m : MultiInstanceManager),
    let run := initialize_single_browser_fallback ws_endpoint_env clock
                 bring_up_default default_port auth_file m in
    (fst run = Ok false /\ snd run = m
     \/ fst run = Ok true
        /\ exists inst,
             snd run = exec (add_instance inst) m
             /\ id inst = "default"%string
             /\ is_ready inst = true /\ enabled inst = true
             /\ request_count inst = 0%Z /\ error_count inst = 0%Z
             /\ Some (ws_endpoint inst) = ws_endpoint_env
             /\ Some (port inst) = default_port)
    /\ (truthy_opt ws_endpoint_env = false \/ bring_up_default = None
        \/ default_port = None ->
        fst run = Ok false /\ snd run = m)
    /\ (fst run = Ok true -> instances m = [] ->
        forall draw, exists inst,
          get_enabled_instances (snd run) = [inst]
          /\ id inst = "default"%string
          /\ fst (get_next_instance draw (snd run)) = Ok (Some inst)).
Proof.
  intros ws_endpoint_env clock bring_up_default default_port auth_file m run.
  unfold run, initialize_single_browser_fallback.
  destruct ws_endpoint_env as [ws|]; simpl;
    [|split; [left; auto | split; [auto | discriminate]]].
  destruct (truthy ws) eqn:Hws; simpl;
    [|split; [left; auto | split; [auto | discriminate]]].
  destruct bring_up_default as [[browser page]|]; simpl;
    [|split; [left; auto | split; [auto | discriminate]]].
  destruct default_port as [p|]; simpl;
    [|split; [left; auto | split; [auto | discriminate]]].
  split; [|split].
  - right. split; [reflexivity|].
    match goal with
    | |- context [Dict.setitem _ ?i _] => exists i
    end.
    split; [reflexivity|]. simpl. auto 10.
  - intros [H|[H|H]]; discriminate.
  - intros _ Hempty draw. eexists.
    unfold get_enabled_instances. simpl. rewrite Hempty. simpl.
    split; [reflexivity|]. split; [reflexivity|].
    match goal with
    | |- fst (get_next_instance draw ?m1) = _ =>
        destruct (get_next_instance_cases draw m1)
          as [[He _]|[_ (i & m2 & Hrun & Hin & _)]]
    end.
    + unfold get_enabled_instances in He. simpl in He.
      rewrite ?Hempty in He. discriminate.
    + rewrite Hrun. unfold get_enabled_instances in Hin. simpl in Hin.
      rewrite ?Hempty in Hin. simpl in Hin.
      destruct Hin as [<-|[]]. reflexivity.
Qed.

(* ===================================================================== *)
(** * Properties of the facade and of the context builder *)
(* ===================================================================== *)

Lemma enabled_and_ready_length l :
  List.length (enabled_and_ready l) <= List.length l.
Proof.
  induction l as [|a l IH]; simpl; [lia|].
  destruct (enabled a && is_ready a); simpl; lia.
Qed.

(** X19.  [LoadBalancer.get_stats] only reads.  It counts every registered
    instance in [total_instances] and the candidates in
    [enabled_instances], which is never the larger and is zero exactly
    when the next [get_instance] returns [None]; it has one statistics
    entry per counted instance; its strategy name reads back as the
    active strategy; and [get_load_balance_config] of the router reports
    the same three values. *)
Theorem facade_stats_count_the_pool :
  forall m : MultiInstanceManager,
    exists st,
      LoadBalancer.get_stats m = (Ok st, m)
      /\ LoadBalancer.total_instances st = List.length (instances m)
      /\ LoadBalancer.enabled_instances st
         = List.length (get_enabled_instances m)
      /\ LoadBalancer.enabled_instances st <= LoadBalancer.total_instances st
      /\ (LoadBalancer.enabled_instances st = 0 <->
          forall draw, LoadBalancer.get_instance draw m = (Ok None, m))
      /\ (Dict.wf (instances m) ->
          Dict.len (LoadBalancer.stats_instances st)
          = LoadBalancer.total_instances st)
      /\ strategy_of_value (JStr (LoadBalancer.stats_strategy st))
         = Ok (strategy m)
      /\ get_load_balance_config m
         = (Ok (mkLoadBalanceConfig (LoadBalancer.stats_strategy st)
                  (LoadBalancer.enabled_instances st)
                  (LoadBalancer.total_instances st)), m).
Proof.
  intros m. eexists. split; [reflexivity|]. simpl.
  split; [reflexivity|]. split; [reflexivity|]. split.
  { unfold get_enabled_instances, Dict.len.
    pose proof (enabled_and_ready_length (Dict.values (instances m))) as H.
    unfold Dict.values in H. now rewrite length_map in H. }
  split.
  { split.
    - intros Hzero draw. apply length_zero_iff_nil in Hzero.
      unfold LoadBalancer.get_instance, bind, ret.
      now rewrite (get_next_instance_empty draw m Hzero).
    - intros Hnone. specialize (Hnone 0).
      unfold LoadBalancer.get_instance, bind, ret in Hnone.
      destruct (get_next_instance_cases 0 m)
        as [[He _]|[_ (inst & m' & Hrun & _)]].
      + now rewrite He.
      + rewrite Hrun in Hnone. discriminate. }
  split.
  { intros Hwf. rewrite (get_stats_entries m Hwf).
    unfold Dict.len. apply length_map. }
  split; [apply strategy_of_value_round_trip | reflexivity].
Qed.

(** X20.  A context built by [initialize_request_context] is of one of two
    kinds.  Either it carries the page and readiness flag of the server
    state, or it carries the page of a candidate of the pool, and then the
    page is set and the context is marked ready whatever the server state
    says.  With no candidate the manager is left exactly as it was.  In
    every case the builder registers and removes nothing and keeps the
    strategy. *)
Theorem request_context_is_from_the_pool_or_the_state :
  forall (state : ServerState) (now : Z) (draw : nat)
         (request : ChatCompletionRequest) (m : MultiInstanceManager),
    exists ctx m',
      initialize_request_context state now draw request m = (Ok ctx, m')
      /\ ((ctx_page ctx = page_instance state
           /\ ctx_is_page_ready ctx = is_page_ready state)
          \/ (ctx_is_page_ready ctx = true
              /\ exists inst,
                   In inst (get_enabled_instances m)
                   /\ ctx_page ctx = page inst
                   /\ page inst <> None))
      /\ (get_enabled_instances m = [] ->
          m' = m
          /\ ctx_page ctx = page_instance state
          /\ ctx_is_page_ready ctx = is_page_ready state)
      /\ Dict.keys (instances m') = Dict.keys (instances m)
      /\ strategy m' = strategy m
      /\ ctx_is_streaming ctx = stream request
      /\ ctx_requested_model ctx = model request.
Proof.
  intros state now draw request m.
  destruct (get_next_instance_cases draw m)
    as [[He Hrun]|[Hne (inst & m1 & Hrun & Hin & Hreg & Hst)]].
  - assert (Hgi : LoadBalancer.get_instance draw m = (Ok None, m))
      by (unfold LoadBalancer.get_instance, bind, ret; now rewrite Hrun).
    eexists. exists m.
    unfold initialize_request_context. unfold bind at 1. rewrite Hgi.
    split; [reflexivity|]. simpl. auto 8.
  - assert (Hgi : LoadBalancer.get_instance draw m = (Ok (Some inst), m1))
      by (unfold LoadBalancer.get_instance, bind, ret; now rewrite Hrun).
    unfold initialize_request_context. unfold bind at 1. rewrite Hgi.
    unfold usable_page.
    destruct (page inst) as [p|] eqn:Hp.
    + destruct (Dict.get (id inst) (instances m1)) as [v|] eqn:Hget.
      * eexists. eexists.
        unfold LoadBalancer.mark_request_start, bind, ret.
        rewrite (mark_request_start_registered m1 (id inst) v now Hget).
        split; [reflexivity|]. simpl.
        split.
        { right. split.
          - unfold get_enabled_instances in Hin.
            rewrite enabled_and_ready_filter in Hin.
            apply filter_In in Hin. destruct Hin as [_ Hflags].
            apply andb_true_iff in Hflags. tauto.
          - exists inst. rewrite Hp. repeat split; auto. discriminate. }
        split; [intros He; contradiction|].
        split; [|auto].
        rewrite dict_keys_setitem_present
          by (eapply dict_get_in_keys; eauto).
        now rewrite Hreg.
      * eexists. exists m1.
        unfold LoadBalancer.mark_request_start, bind, ret.
        rewrite mark_request_start_unknown
          by (unfold Dict.contains; now rewrite Hget).
        split; [reflexivity|]. simpl.
        split.
        { right. split.
          - unfold get_enabled_instances in Hin.
            rewrite enabled_and_ready_filter in Hin.
            apply filter_In in Hin. destruct Hin as [_ Hflags].
            apply andb_true_iff in Hflags. tauto.
          - exists inst. rewrite Hp. repeat split; auto. discriminate. }
        split; [intros He; contradiction|].
        rewrite Hreg. auto.
    + eexists. exists m1. unfold bind, ret.
      split; [reflexivity|]. simpl.
      split; [left; auto|].
      split; [intros He; contradiction|].
      rewrite Hreg. auto.
Qed.

(* ===================================================================== *)
(** * More on round robin and on paths *)
(* ===================================================================== *)

(** Only the cursor modulo the number of candidates matters to a call. *)
Lemma round_robin_normalised_cursor draw m :
  strategy m = ROUND_ROBIN ->
  get_enabled_instances m <> [] ->
  get_next_instance draw m
  = get_next_instance draw
      (set_current_index
         (current_index m
          mod Z.of_nat (List.length (get_enabled_instances m))) m).
Proof.
  intros Hs Hne.
  set (n := Z.of_nat (List.length (get_enabled_instances m))).
  assert (Hn : (0 < n)%Z) by now apply nonempty_length_pos.
  destruct (get_next_instance_round_robin draw m Hne Hs) as (i1 & R1 & N1).
  destruct (get_next_instance_round_robin draw
              (set_current_index (current_index m mod n) m) Hne Hs)
    as (i2 & R2 & N2).
  fold n in R1, N1. simpl in R2, N2.
  change (get_enabled_instances (set_current_index (current_index m mod n) m))
    with (get_enabled_instances m) in N2.
  fold n in R2, N2.
  rewrite Z.mod_mod in N2 by lia.
  rewrite R1, R2. f_equal; [congruence|].
  unfold set_current_index. simpl. f_equal.
  change (get_enabled_instances
            (mkManager (instances m) (strategy m) (current_index m mod n)))
    with (get_enabled_instances m).
  fold n. rewrite Z.add_mod_idemp_l by lia. reflexivity.
Qed.

(** X21.  Round robin serves everyone in turn from wherever the cursor
    stands, also a cursor left out of range by a removal: as many
    consecutive calls as there are candidates return every candidate
    exactly once, in list order starting at place [cursor mod length] and
    wrapping around, and leave the cursor at that place. *)
Theorem round_robin_serves_each_candidate_once :
  forall (m : MultiInstanceManager) (draws : list nat),
    strategy m = ROUND_ROBIN ->
    get_enabled_instances m <> [] ->
    List.length draws = List.length (get_enabled_instances m) ->
    let n := List.length (get_enabled_instances m) in
    let c := Z.to_nat (current_index m mod Z.of_nat n) in
    select_many draws m
    = (map (fun i => Ok (Some i))
         (skipn c (get_enabled_instances m)
          ++ firstn c (get_enabled_instances m)),
       set_current_index (Z.of_nat c) m)
    /\ Permutation
         (skipn c (get_enabled_instances m)
          ++ firstn c (get_enabled_instances m))
         (get_enabled_instances m).
Proof.
  intros m draws Hs Hne Hlen n c.
  assert (Hn : 0 < n)
    by (unfold n; destruct (get_enabled_instances m); simpl;
        [congruence | lia]).
  assert (Hc : c < n).
  { unfold c. pose proof (Z.mod_pos_bound (current_index m) (Z.of_nat n)).
    lia. }
  split.
  - set (m0 := set_current_index (Z.of_nat c) m).
    assert (Hcands : get_enabled_instances m0 = get_enabled_instances m)
      by reflexivity.
    assert (Hfirst : select_many draws m = select_many draws m0).
    { destruct draws as [|d rest]; [simpl in Hlen; unfold n in Hn; lia|].
      simpl. rewrite (round_robin_normalised_cursor d m Hs Hne).
      fold n. unfold m0, c. rewrite Z2Nat.id; [reflexivity|].
      apply Z.mod_pos_bound. lia. }
    rewrite Hfirst.
    rewrite <- (firstn_skipn (n - c) draws).
    rewrite select_many_app.
    rewrite (round_robin_partial_lap (firstn (n - c) draws) c m0)
      by (rewrite ?Hcands, ?length_firstn; fold n; try reflexivity;
          try assumption; lia).
    rewrite Hcands. fold n. rewrite length_firstn, Hlen. fold n.
    replace (Nat.min (n - c) n) with (n - c) by lia.
    replace (c + (n - c)) with n by lia.
    rewrite Nat.Div0.mod_same. simpl fst. simpl snd.
    set (m1 := set_current_index 0%Z m0).
    assert (Hcands1 : get_enabled_instances m1 = get_enabled_instances m)
      by reflexivity.
    rewrite (round_robin_partial_lap (skipn (n - c) draws) 0 m1)
      by (rewrite ?Hcands1, ?length_skipn; fold n; try reflexivity;
          try assumption; lia).
    rewrite Hcands1. fold n. rewrite length_skipn, Hlen. fold n.
    replace (n - (n - c)) with c by lia.
    rewrite Nat.add_0_l, Nat.mod_small by exact Hc.
    simpl skipn. simpl fst. simpl snd.
    rewrite map_app. f_equal. f_equal.
    rewrite firstn_all2; [reflexivity|].
    rewrite length_skipn. fold n. lia.
  - rewrite Permutation_app_comm. now rewrite firstn_skipn.
Qed.

(** ** Base names *)

Lemma chars_app (a b : string) : chars (a ++ b) = chars a ++ chars b.
Proof. induction a as [|x a IH]; simpl; [reflexivity | now rewrite IH]. Qed.

Lemma directory_part_has_sep (d b : string) :
  directory_part d -> d <> EmptyString -> In "/"%char (chars (d ++ b)).
Proof.
  intros [->|(d' & ->)] Hne; [congruence|].
  rewrite !chars_app, !in_app_iff. left. right. simpl. now left.
Qed.

Lemma directory_part_tail (a : ascii) (d : string) :
  directory_part (String a d) -> directory_part d.
Proof.
  intros [H|(d' & H)]; [discriminate|].
  destruct d' as [|x d']; simpl in H; inversion H.
  - now left.
  - right. now exists d'.
Qed.

(** A path splits in one way only into a directory part and a name
    without ['/']. *)
Lemma split_at_last_sep : forall d1 d2 b1 b2 : string,
  (d1 ++ b1)%string = (d2 ++ b2)%string ->
  directory_part d1 -> directory_part d2 ->
  ~ In "/"%char (chars b1) -> ~ In "/"%char (chars b2) ->
  b1 = b2.
Proof.
  induction d1 as [|a d1 IH]; intros d2 b1 b2 E H1 H2 N1 N2.
  - simpl in E. destruct d2 as [|x d2]; [exact E|].
    elim N1. rewrite E. apply directory_part_has_sep; [exact H2|discriminate].
  - destruct d2 as [|x d2].
    + simpl in E. elim N2. rewrite <- E.
      apply (directory_part_has_sep (String a d1) b1 H1). discriminate.
    + simpl in E. inversion E; subst.
      apply (IH d2 b1 b2); auto; eapply directory_part_tail; eauto.
Qed.

Lemma endswith_sep_directory (d : string) :
  endswith_sep d = true -> directory_part d.
Proof.
  induction d as [|a d IH]; simpl; [discriminate|].
  destruct d as [|b d].
  - intros H. apply Ascii.eqb_eq in H. subst. right. now exists EmptyString.
  - intros H. destruct (IH H) as [E|(d' & E)]; [discriminate|].
    right. exists (String a d'). simpl. now rewrite E.
Qed.

Lemma string_app_assoc (a b c : string) :
  ((a ++ b) ++ c)%string = (a ++ b ++ c)%string.
Proof. induction a as [|x a IH]; simpl; [reflexivity | now rewrite IH]. Qed.

Lemma no_sep_is_relative (name : string) :
  ~ In "/"%char (chars name) -> startswith "/" name = false.
Proof.
  destruct name as [|a name]; [reflexivity|]. cbn [startswith chars].
  intros H. rewrite andb_true_r.
  destruct (Ascii.eqb_spec "/"%char a) as [<-|]; [|reflexivity].
  elim H. simpl. now left.
Qed.

(** X22.  Joining a directory and a file name and taking the base name
    gives the file name back, for every name without ['/']: a file saved
    as [os.path.join(SAVED_AUTH_DIR, name)] is listed and reported under
    [name].  Taking the base name twice changes nothing. *)
Theorem basename_of_joined_path :
  forall d name p : string,
    (~ In "/"%char (chars name) -> basename (path_join d name) = name)
    /\ basename (basename p) = basename p.
Proof.
  intros d name p.
  assert (Hsplit : forall dir b,
    directory_part dir -> ~ In "/"%char (chars b) ->
    basename (dir ++ b) = b).
  { intros dir b Hd Hb.
    destruct (basename_strips_directory (dir ++ b)) as (dir' & E & Hd' & Hno).
    symmetry. apply (split_at_last_sep dir dir' b (basename (dir ++ b)) E);
      auto. }
  split.
  - intros Hname. unfold path_join.
    rewrite (no_sep_is_relative name Hname).
    destruct d as [|a d]; simpl negb; cbn [orb].
    + apply (Hsplit EmptyString name); [now left | exact Hname].
    + destruct (endswith_sep (String a d)) eqn:E.
      * apply Hsplit; [now apply endswith_sep_directory | exact Hname].
      * rewrite <- string_app_assoc.
        apply Hsplit; [right; now exists (String a d) | exact Hname].
  - destruct (basename_strips_directory p) as (dir & _ & _ & Hno).
    apply (Hsplit EmptyString (basename p)); [now left | exact Hno].
Qed.

(* ===================================================================== *)
(** * The further properties on sample inputs *)
(* ===================================================================== *)

Lemma add_instance_upserts_witness :
  Dict.keys
    (instances (exec (add_instance Samples.replacement)
                  Examples.round_robin_pool))
  = ["instance_0"; "instance_1"; "instance_2"]%string
  /\ Dict.get "instance_1"
       (instances (exec (add_instance Samples.replacement)
                     Examples.round_robin_pool))
     = Some Samples.replacement
  /\ instances (exec (add_instance Samples.newcomer)
                  Examples.round_robin_pool)
     = instances Examples.round_robin_pool
       ++ [("instance_7"%string, Samples.newcomer)].
Proof.
  destruct (add_instance_upserts Samples.replacement Examples.round_robin_pool)
    as (_ & Hget & _ & _ & Hkeys & _).
  destruct (add_instance_upserts Samples.newcomer Examples.round_robin_pool)
    as (_ & _ & _ & Hnew & _).
  split; [|split].
  - apply Hkeys. simpl. auto.
  - exact Hget.
  - apply Hnew. simpl. intuition discriminate.
Defined.

Lemma remove_instance_unregisters_witness :
  Dict.wf (instances Examples.round_robin_pool)
  /\ Dict.keys
       (instances (exec (remove_instance "instance_1")
                     Examples.round_robin_pool))
     = ["instance_0"; "instance_2"]%string
  /\ Dict.get "instance_1"
       (instances (exec (remove_instance "instance_1")
                     Examples.round_robin_pool))
     = None.
Proof.
  assert (Hwf : Dict.wf (instances Examples.round_robin_pool))
    by distinct_keys.
  destruct (remove_instance_unregisters "instance_1"
              Examples.round_robin_pool Hwf)
    as (_ & Hgone & _ & Hkeys & _).
  split; [exact Hwf|]. split; [exact Hkeys | exact Hgone].
Defined.

Lemma add_then_remove_restores_witness :
  exec (remove_instance "instance_7")
    (exec (add_instance Samples.newcomer) Examples.round_robin_pool)
  = Examples.round_robin_pool.
Proof.
  apply (add_then_remove_restores Samples.newcomer Examples.round_robin_pool).
  simpl. intuition discriminate.
Defined.

Lemma mark_request_starts_counts_witness :
  exists m',
    mark_request_starts [5; 8; 13]%Z "instance_2" Examples.round_robin_pool
    = (Ok tt, m')
    /\ Dict.get "instance_2" (instances m')
       = Some (set_last_used 13 (set_request_count 3 Examples.instance_2)).
Proof.
  destruct (mark_request_starts_counts [5; 8; 13]%Z Examples.round_robin_pool
              "instance_2" Examples.instance_2 eq_refl)
    as (m' & Hrun & Hget & _).
  exists m'. split; [exact Hrun | exact Hget].
Defined.

Lemma well_formed_round_robin_pool : well_formed Examples.round_robin_pool.
Proof. split; [distinct_keys | repeat constructor]. Defined.

Lemma enable_instance_toggles_candidacy_witness :
  map id
    (get_enabled_instances
       (exec (enable_instance "instance_1" false) Examples.round_robin_pool))
  = ["instance_0"; "instance_2"]%string
  /\ exec (enable_instance "instance_1" true)
       (exec (enable_instance "instance_1" false) Examples.round_robin_pool)
     = Examples.round_robin_pool.
Proof.
  destruct (enable_instance_toggles_candidacy Examples.round_robin_pool
              "instance_1" Examples.instance_1 false
              well_formed_round_robin_pool eq_refl)
    as (_ & _ & _ & _ & Hcands & Hback).
  split; [rewrite Hcands; reflexivity | apply Hback; reflexivity].
Defined.

Lemma selection_changes_the_cursor_only_witness :
  snd (select_many [4; 9; 2] Examples.least_connections_pool)
  = Examples.least_connections_pool
  /\ exists inst,
       get_next_instance 5
         (exec (set_strategy RANDOM) Examples.round_robin_pool)
       = (Ok (Some inst),
          exec (set_strategy RANDOM) Examples.round_robin_pool)
       /\ inst = Examples.instance_2.
Proof.
  destruct (selection_changes_the_cursor_only
              Examples.least_connections_pool [4; 9; 2])
    as (_ & _ & Hsame & _).
  destruct (selection_changes_the_cursor_only
              (exec (set_strategy RANDOM) Examples.round_robin_pool) [])
    as (_ & _ & _ & Hrandom).
  split.
  - apply Hsame. left. discriminate.
  - destruct (Hrandom eq_refl) with (draw := 5) as (inst & Hrun & Hnth).
    + vm_compute. discriminate.
    + exists inst. split; [exact Hrun|].
      vm_compute in Hnth. now inversion Hnth.
Defined.

Lemma strategy_detour_keeps_the_rotation_witness :
  exec (set_strategy ROUND_ROBIN)
    (snd (select_many [1; 2; 3]
            (exec (set_strategy LEAST_CONNECTIONS)
               (set_current_index 2 Examples.round_robin_pool))))
  = set_current_index 2 Examples.round_robin_pool.
Proof.
  destruct (strategy_detour_keeps_the_rotation
              (set_current_index 2 Examples.round_robin_pool)
              LEAST_CONNECTIONS [1; 2; 3])
    as (_ & _ & _ & Hback).
  apply Hback. discriminate.
Defined.

Lemma registry_is_keyed_by_id_witness :
  well_formed (calls Samples.traffic (init ROUND_ROBIN))
  /\ id Samples.newcomer = "instance_7"%string.
Proof.
  destruct (registry_is_keyed_by_id Samples.traffic ROUND_ROBIN)
    as [Hwf Hkeys].
  split; [exact Hwf|].
  apply (Hkeys "instance_7"%string Samples.newcomer). reflexivity.
Defined.

Lemma instance_is_kept_and_counters_grow_witness :
  exists inst',
    Dict.get "instance_0"
      (instances (calls Samples.traffic Examples.round_robin_pool))
    = Some inst'
    /\ is_ready inst' = true
    /\ (0 <= request_count inst')%Z
    /\ (0 <= error_count inst')%Z.
Proof.
  destruct (instance_is_kept_and_counters_grow Samples.traffic
              Examples.round_robin_pool "instance_0" Examples.instance_0
              eq_refl eq_refl)
    as (inst' & Hget & _ & _ & _ & _ & _ & _ & Hready & Hreq & Herr).
  exists inst'. auto.
Defined.

Lemma least_connections_keeps_the_load_level_witness :
  spread_within 2
    (get_enabled_instances
       (serve Examples.server_state Examples.chat_request
          Samples.arrivals Examples.least_connections_pool)).
Proof.
  assert (Hwf : well_formed Examples.least_connections_pool)
    by (split; [distinct_keys | repeat constructor]).
  apply (least_connections_keeps_the_load_level Examples.server_state
           Examples.chat_request Samples.arrivals
           Examples.least_connections_pool 2 Hwf eq_refl).
  - intros i [<-|[<-|[<-|[]]]]; discriminate.
  - lia.
  - intros x y [<-|[<-|[<-|[]]]] [<-|[<-|[<-|[]]]]; simpl; lia.
Defined.

Lemma access_checks_verify_bearer_then_x_api_key_witness :
  verify_config_access Samples.known_keys Samples.is_known_key
    Samples.bearer_headers = Returned true
  /\ verify_config_access Samples.known_keys Samples.is_known_key
       Samples.basic_headers = Returned true
  /\ verify_config_access [] Samples.is_known_key (fun _ => None)
     = Returned true.
Proof.
  destruct (access_checks_verify_bearer_then_x_api_key Samples.known_keys
              Samples.is_known_key Samples.bearer_headers)
    as (_ & _ & _ & _ & Hkeys).
  destruct (Hkeys ltac:(discriminate)) as [Hbearer _].
  destruct (access_checks_verify_bearer_then_x_api_key Samples.known_keys
              Samples.is_known_key Samples.basic_headers)
    as (_ & _ & _ & _ & Hkeys').
  destruct (Hkeys' ltac:(discriminate)) as [_ Hother].
  destruct (access_checks_verify_bearer_then_x_api_key []
              Samples.is_known_key (fun _ => None))
    as (_ & _ & _ & Hopen & _).
  split; [|split].
  - rewrite (Hbearer "secret-key-1"%string); [reflexivity | discriminate
                                              | reflexivity].
  - rewrite Hother; [reflexivity|].
    right. right. exists "Basic dXNlcjpwYXNz"%string. split; reflexivity.
  - apply Hopen. reflexivity.
Defined.

Lemma strategy_endpoint_accepts_the_three_names_witness :
  set_load_balance_strategy [("strategy"%string, JStr "random")]
    Examples.round_robin_pool
  = (Ok (Returned tt),
     mkManager (instances Examples.round_robin_pool) RANDOM 0)
  /\ set_load_balance_strategy [("strategy"%string, JStr "fastest")]
       Examples.round_robin_pool
     = (Ok (HTTPException 400), Examples.round_robin_pool).
Proof.
  destruct (strategy_endpoint_accepts_the_three_names
              [("strategy"%string, JStr "random")] Examples.round_robin_pool)
    as (Hok & _).
  destruct (strategy_endpoint_accepts_the_three_names
              [("strategy"%string, JStr "fastest")] Examples.round_robin_pool)
    as (_ & Hbad & _).
  split.
  - apply (Hok RANDOM). reflexivity.
  - apply Hbad. intros s H. destruct s; discriminate H.
Defined.

Lemma enable_endpoint_never_reports_a_missing_instance_witness :
  enable_instance_endpoint "instance_9" false Examples.round_robin_pool
  = (Ok (Returned tt), Examples.round_robin_pool).
Proof.
  destruct (enable_endpoint_never_reports_a_missing_instance "instance_9"
              false Examples.round_robin_pool)
    as (m' & Hrun & Hsame & _).
  rewrite Hrun. f_equal. apply Hsame. simpl. intuition discriminate.
Defined.

Lemma list_auth_files_lists_each_name_once_witness :
  map filename
    (list_auth_files Samples.saved_files Samples.active_files Samples.sizes)
  = ["a.json"; "b.json"; "c.json"]%string
  /\ exists e,
       In e (list_auth_files Samples.saved_files Samples.active_files
               Samples.sizes)
       /\ filename e = "b.json"%string
       /\ In (path e) (glob_result Samples.saved_files).
Proof.
  destruct (list_auth_files_lists_each_name_once Samples.saved_files
              Samples.active_files Samples.sizes)
    as (_ & _ & _ & Hsaved).
  split; [reflexivity|].
  apply (Hsaved "/srv/auth/saved/b.json"%string).
  - simpl. auto.
  - discriminate.
Defined.

Lemma delete_auth_file_checks_the_prefix_only_witness :
  delete_auth_file "/srv/auth/saved" "/srv/auth/saved" (fun _ => false)
    (fun _ => true) "../../../etc/passwd"
  = HTTPException 404
  /\ delete_auth_file "auth_profiles/saved" "/srv/auth_profiles/saved"
       (fun _ => true) (fun _ => true) "a.json"
     = HTTPException 403.
Proof.
  destruct (delete_auth_file_checks_the_prefix_only "/srv/auth/saved"
              "/srv/auth/saved" (fun _ => false) (fun _ => true)
              "../../../etc/passwd" eq_refl)
    as (Hpass & _).
  destruct (delete_auth_file_checks_the_prefix_only "auth_profiles/saved"
              "/srv/auth_profiles/saved" (fun _ => true) (fun _ => true)
              "a.json" eq_refl)
    as (_ & _ & Hrel).
  split.
  - rewrite Hpass; reflexivity.
  - apply Hrel; reflexivity.
Defined.

Lemma initialize_multiple_browsers_registers_what_came_up_witness :
  Dict.keys
    (instances
       (snd (initialize_multiple_browsers Samples.saved_files
               Samples.active_files Samples.all_exist true
               (Some "ws://127.0.0.1:9222/x"%string) Samples.second_fails
               Samples.ticks None 9222 (init ROUND_ROBIN))))
  = ["instance_0"; "instance_2"]%string
  /\ List.length
       (brought_up Samples.all_exist (Some "ws://127.0.0.1:9222/x"%string)
          Samples.second_fails Samples.ticks 9222 0
          (files_to_try Samples.saved_files Samples.active_files false None))
     <= 1.
Proof.
  destruct (initialize_multiple_browsers_registers_what_came_up
              Samples.saved_files Samples.active_files Samples.all_exist true
              (Some "ws://127.0.0.1:9222/x"%string) Samples.second_fails
              Samples.ticks 9222 None ROUND_ROBIN)
    as (_ & Hreg & _).
  destruct (initialize_multiple_browsers_registers_what_came_up
              Samples.saved_files Samples.active_files Samples.all_exist false
              (Some "ws://127.0.0.1:9222/x"%string) Samples.second_fails
              Samples.ticks 9222 None ROUND_ROBIN)
    as (_ & _ & _ & _ & _ & _ & Hsingle).
  split.
  - rewrite Hreg. reflexivity.
  - apply Hsingle. reflexivity.
Defined.

Lemma discover_auth_files_prefers_saved_witness :
  discover_auth_files Samples.saved_files Samples.active_files
  = ["/srv/auth/saved/a.json"; "/srv/auth/saved/b.json";
     "/srv/auth/active/c.json"]%string
  /\ In "b.json"%string
       (map basename
          (discover_auth_files Samples.saved_files Samples.active_files)).
Proof.
  destruct (discover_auth_files_prefers_saved Samples.saved_files
              Samples.active_files)
    as (extra & _ & _ & _ & Hall).
  split; [reflexivity|].
  apply (Hall "/srv/auth/active/b.json"%string). simpl. auto.
Defined.

Lemma single_fallback_registers_default_or_nothing_witness :
  exists inst,
    get_enabled_instances
      (snd (initialize_single_browser_fallback
              (Some "ws://127.0.0.1:9222/x"%string) Samples.ticks
              (Some (ObjRef 1, Some (ObjRef 2))) (Some 9222%Z) None
              (init RANDOM)))
    = [inst]
    /\ id inst = "default"%string
    /\ fst (get_next_instance 3
              (snd (initialize_single_browser_fallback
                      (Some "ws://127.0.0.1:9222/x"%string) Samples.ticks
                      (Some (ObjRef 1, Some (ObjRef 2))) (Some 9222%Z) None
                      (init RANDOM))))
       = Ok (Some inst).
Proof.
  destruct (single_fallback_registers_default_or_nothing
              (Some "ws://127.0.0.1:9222/x"%string) Samples.ticks
              (Some (ObjRef 1, Some (ObjRef 2))) (Some 9222%Z) None
              (init RANDOM))
    as (_ & _ & Hselect).
  apply (Hselect eq_refl eq_refl 3).
Defined.

Lemma facade_stats_count_the_pool_witness :
  exists st,
    LoadBalancer.get_stats Examples.profile_pool
    = (Ok st, Examples.profile_pool)
    /\ LoadBalancer.total_instances st = 1
    /\ Dict.len (LoadBalancer.stats_instances st) = 1.
Proof.
  destruct (facade_stats_count_the_pool Examples.profile_pool)
    as (st & Hrun & Htotal & _ & _ & _ & Hlen & _).
  exists st. split; [exact Hrun|]. split; [exact Htotal|].
  rewrite Hlen; [exact Htotal | distinct_keys].
Defined.

Lemma request_context_is_from_the_pool_or_the_state_witness :
  exists ctx m',
    initialize_request_context Examples.server_state 42 0
      Examples.chat_request (init ROUND_ROBIN) = (Ok ctx, m')
    /\ m' = init ROUND_ROBIN
    /\ ctx_page ctx = Some (ObjRef 11)
    /\ ctx_is_page_ready ctx = true.
Proof.
  destruct (request_context_is_from_the_pool_or_the_state
              Examples.server_state 42 0 Examples.chat_request
              (init ROUND_ROBIN))
    as (ctx & m' & Hrun & _ & Hempty & _).
  destruct (Hempty eq_refl) as (Hm & Hpage & Hready).
  exists ctx, m'. auto.
Defined.

Lemma round_robin_serves_each_candidate_once_witness :
  fst (select_many [0; 0; 0]
         (set_current_index 7 Examples.round_robin_pool))
  = map (fun i => Ok (Some i))
      [Examples.instance_1; Examples.instance_2; Examples.instance_0].
Proof.
  destruct (round_robin_serves_each_candidate_once
              (set_current_index 7 Examples.round_robin_pool) [0; 0; 0]
              eq_refl)
    as [Hrun _].
  - vm_compute. discriminate.
  - reflexivity.
  - rewrite Hrun. reflexivity.
Defined.

Lemma basename_of_joined_path_witness :
  basename (path_join "/srv/auth/saved" "account.json") = "account.json"%string
  /\ basename (path_join "/srv/auth/saved/" "account.json")
     = "account.json"%string.
Proof.
  destruct (basename_of_joined_path "/srv/auth/saved" "account.json"
              EmptyString) as [H1 _].
  destruct (basename_of_joined_path "/srv/auth/saved/" "account.json"
              EmptyString) as [H2 _].
  split; [apply H1 | apply H2]; simpl; intuition discriminate.
Defined.

Lemma interleaved_selection_never_stuck_witness :
  exists i s',
    step i (run [0; 1; 0] (start Examples.round_robin_pool [0; 0])) = Some s'.
Proof.
  apply (interleaved_selection_never_stuck Examples.round_robin_pool
           [0; 0] [0; 1; 0]).
  reflexivity.
Defined.
